(** * ElectrumX client: session, failover and correlation engine

    A shallow embedding of [cryptos/electrumx_client/rpc.py].  The client
    object is a record of its attributes, every method is a function in a
    state-and-exception monad over that record, and the collaborators the
    file imports (the TCP connection, the JSON session, the random generator
    and the clock) are an explicit [World] of oracles. *)

From stdpp Require Import gmap strings list fin_maps pretty.
From Stdlib Require Import ZArith Lia.

Open Scope Z_scope.
Open Scope string_scope.

(** ** Python values *)

(** The JSON payloads and the tuples the client passes around.  Tuples and
    lists are both [PList]; the modelled methods never do arithmetic on a
    payload number, so numbers are integers. *)
#[local] Unset Elimination Schemes.
Inductive pyval : Type :=
| PNone
| PBool (b : bool)
| PInt (z : Z)
| PStr (s : string)
| PList (l : list pyval)
| PDict (d : list (string * pyval)).
#[local] Set Elimination Schemes.

(** Python truthiness, as tested by [if x:] and [not x]. *)
Definition truthy (v : pyval) : bool :=
  match v with
  | PNone => false
  | PBool b => b
  | PInt z => negb (Z.eqb z 0)
  | PStr s => negb (String.eqb s "")
  | PList l => match l with [] => false | _ => true end
  | PDict d => match d with [] => false | _ => true end
  end.

(** ** Exceptions *)

Inductive exn : Type :=
| AttributeError (attr : string)
| IndexError
| KeyError (key : pyval)
| TypeError
| ValueError
| OSError
| SSLError
| TimeoutError
| RecursionError
| OverflowError
| RPCResponseExecption (payload : pyval)
| Exception_ (arg : pyval).

(** The outcome of running a method: a value, a raised exception, or
    [Diverge] when the model's loop budget is used up. *)
Inductive Res (A : Type) : Type :=
| Ok (a : A)
| Raise (e : exn)
| Diverge.
Arguments Ok {A} a.
Arguments Raise {A} e.
Arguments Diverge {A}.

(** ** The client object and its collaborators *)

(** One entry of the catalog: the dict read from the servers file, with the
    keys ['s'] (TLS port), ['t'] (plain port) and ['usable']. *)
Abbreviation Server := (gmap string pyval).

(** A request is the pair [(method, params)]. *)
Definition Request : Type := string * pyval.

(** The dict [handle_response] stores for an answered request. *)
Record ResultDict : Type := mkResult {
  data : pyval;
  error : pyval;
  method : string;
  params : pyval
}.

(** The closures handed to [send_rpc_request] as [callback].  A user callback
    is opaque code: it is named by a number, and calling it is recorded.  The
    dict a closure has captured is the items of the caller's dict, in
    insertion order, as they are when the subscription is made. *)
Inductive Callback : Type :=
| handle_response_cb
| handle_scripthash_notify_cb (addrs_scripthashes : list (string * pyval)) (callback : nat)
| handle_block_headers_notify_cb (callback : nat).

(** [partial(callback, method, params)]. *)
Record Handler : Type := mkHandler {
  h_callback : Callback;
  h_method : string;
  h_params : pyval
}.

(** An [RPCClient] session: [self.result], and the part of [JSONSession] the
    client relies on (the handler table and the identifier allocator). *)
Record RPCClient : Type := mkRPCClient {
  result : gmap nat ResultDict;
  handlers : gmap nat Handler;
  next_id : nat;
  peer : string;
  made : option (option nat);
  closed : bool
}.

(** A frame delivered by the server: [(id_, data, error)]. *)
Definition Frame : Type := nat * pyval * pyval.

(** What [TCPConnection(...).create_connection()] does. *)
Inductive ConnOutcome : Type :=
| ConnOSError
| ConnSSLError
| ConnReturn (transport : option nat) (client : bool).

(** One cache entry of [self.cache['fees']]. *)
Record FeeEntry : Type := mkFeeEntry {
  fee : pyval;
  expiry : Z
}.

(** The client's attributes, followed by the record of what it did to the
    outside (random draws, connection attempts, requests sent, batches
    awaited, clock reads, callbacks called).  [host] is a string: [__init__]
    replaces a [None] or empty [host] argument before anything reads it.
    [transport] is [None] while the attribute has never been bound on the
    object. *)
Record Client : Type := mkClient {
  use_ssl : bool;
  cache_fees : gmap Z FeeEntry;
  client_name : pyval;
  protocol_version : pyval;
  timeout : Z;
  failed_hosts : list string;
  max_servers : Z;
  servers : list (string * Server);
  host : string;
  port : pyval;
  rpc_client : option RPCClient;
  transport : option (option nat);
  server_electrumx_version : option pyval;
  server_protocol_version : option pyval;
  draws : nat;
  connects : list (string * pyval);
  sent : list (string * Request);
  gathers : nat;
  ticks : nat;
  calls : list (nat * list pyval)
}.

(** The collaborators, as oracles indexed by how often they were used;
    [recursion_limit] is the number of nested calls the interpreter still
    allows, and [timeout_is_oserror] tells whether [asyncio.TimeoutError] is
    the built-in [TimeoutError], a subclass of [OSError], as it is from
    Python 3.11 on. *)
Record World : Type := mkWorld {
  read_json : list (string * Server);
  random_below : nat -> nat;
  create_connection : nat -> string -> pyval -> bool -> ConnOutcome;
  send_raises : nat -> string -> Request -> bool;
  arrivals : nat -> list Frame;
  now : nat -> Z;
  recursion_limit : nat;
  timeout_is_oserror : bool
}.

(** ** The monad *)

Definition M (A : Type) : Type := Client -> Res A * Client.

Definition ret {A} (a : A) : M A := fun s => (Ok a, s).
Definition bind {A B} (m : M A) (f : A -> M B) : M B := fun s =>
  match m s with
  | (Ok a, s') => f a s'
  | (Raise e, s') => (Raise e, s')
  | (Diverge, s') => (Diverge, s')
  end.

Declare Scope py_scope.
Delimit Scope py_scope with py.
Notation "x <- c1 ;; c2" := (bind c1 (fun x => c2))
  (at level 61, c1 at next level, c2 at level 200, right associativity,
   only parsing) : py_scope.
Notation "c1 ;;; c2" := (bind c1 (fun _ => c2))
  (at level 61, c2 at level 200, right associativity, only parsing) : py_scope.
Open Scope py_scope.

Definition raise {A} (e : exn) : M A := fun s => (Raise e, s).
Definition diverge {A} : M A := fun s => (Diverge, s).
Definition gets {A} (f : Client -> A) : M A := fun s => (Ok (f s), s).
Definition modify (f : Client -> Client) : M unit := fun s => (Ok tt, f s).
Definition lift {A} (r : Res A) : M A := fun s => (r, s).

(** [try: body except <classes>: handler]; [handler e] is [None] for an
    exception the clause does not name. *)
Definition try_except {A} (body : M A) (handler : exn -> option (M A)) : M A :=
  fun s =>
    match body s with
    | (Raise e, s') =>
        match handler e with
        | Some h => h s'
        | None => (Raise e, s')
        end
    | r => r
    end.

(** Attribute assignments. *)
Definition set_failed_hosts (v : list string) (c : Client) : Client :=
  mkClient (use_ssl c) (cache_fees c) (client_name c) (protocol_version c)
    (timeout c) v (max_servers c) (servers c) (host c) (port c) (rpc_client c)
    (transport c) (server_electrumx_version c) (server_protocol_version c)
    (draws c) (connects c) (sent c) (gathers c) (ticks c) (calls c).
Definition set_servers (v : list (string * Server)) (c : Client) : Client :=
  mkClient (use_ssl c) (cache_fees c) (client_name c) (protocol_version c)
    (timeout c) (failed_hosts c) (max_servers c) v (host c) (port c)
    (rpc_client c) (transport c) (server_electrumx_version c)
    (server_protocol_version c) (draws c) (connects c) (sent c) (gathers c)
    (ticks c) (calls c).
Definition set_host_port (h : string) (p : pyval) (c : Client) : Client :=
  mkClient (use_ssl c) (cache_fees c) (client_name c) (protocol_version c)
    (timeout c) (failed_hosts c) (max_servers c) (servers c) h p
    (rpc_client c) (transport c) (server_electrumx_version c)
    (server_protocol_version c) (draws c) (connects c) (sent c) (gathers c)
    (ticks c) (calls c).
Definition set_rpc_client (v : option RPCClient) (c : Client) : Client :=
  mkClient (use_ssl c) (cache_fees c) (client_name c) (protocol_version c)
    (timeout c) (failed_hosts c) (max_servers c) (servers c) (host c) (port c)
    v (transport c) (server_electrumx_version c) (server_protocol_version c)
    (draws c) (connects c) (sent c) (gathers c) (ticks c) (calls c).
Definition set_transport (v : option (option nat)) (c : Client) : Client :=
  mkClient (use_ssl c) (cache_fees c) (client_name c) (protocol_version c)
    (timeout c) (failed_hosts c) (max_servers c) (servers c) (host c) (port c)
    (rpc_client c) v (server_electrumx_version c) (server_protocol_version c)
    (draws c) (connects c) (sent c) (gathers c) (ticks c) (calls c).
Definition set_server_electrumx_version (v : pyval) (c : Client) : Client :=
  mkClient (use_ssl c) (cache_fees c) (client_name c) (protocol_version c)
    (timeout c) (failed_hosts c) (max_servers c) (servers c) (host c) (port c)
    (rpc_client c) (transport c) (Some v) (server_protocol_version c)
    (draws c) (connects c) (sent c) (gathers c) (ticks c) (calls c).
Definition set_server_protocol_version (v : pyval) (c : Client) : Client :=
  mkClient (use_ssl c) (cache_fees c) (client_name c) (protocol_version c)
    (timeout c) (failed_hosts c) (max_servers c) (servers c) (host c) (port c)
    (rpc_client c) (transport c) (server_electrumx_version c) (Some v)
    (draws c) (connects c) (sent c) (gathers c) (ticks c) (calls c).
Definition set_cache_fees (v : gmap Z FeeEntry) (c : Client) : Client :=
  mkClient (use_ssl c) v (client_name c) (protocol_version c)
    (timeout c) (failed_hosts c) (max_servers c) (servers c) (host c) (port c)
    (rpc_client c) (transport c) (server_electrumx_version c)
    (server_protocol_version c) (draws c) (connects c) (sent c) (gathers c)
    (ticks c) (calls c).
Definition set_draws (v : nat) (c : Client) : Client :=
  mkClient (use_ssl c) (cache_fees c) (client_name c) (protocol_version c)
    (timeout c) (failed_hosts c) (max_servers c) (servers c) (host c) (port c)
    (rpc_client c) (transport c) (server_electrumx_version c)
    (server_protocol_version c) v (connects c) (sent c) (gathers c)
    (ticks c) (calls c).
Definition set_connects (v : list (string * pyval)) (c : Client) : Client :=
  mkClient (use_ssl c) (cache_fees c) (client_name c) (protocol_version c)
    (timeout c) (failed_hosts c) (max_servers c) (servers c) (host c) (port c)
    (rpc_client c) (transport c) (server_electrumx_version c)
    (server_protocol_version c) (draws c) v (sent c) (gathers c)
    (ticks c) (calls c).
Definition set_sent (v : list (string * Request)) (c : Client) : Client :=
  mkClient (use_ssl c) (cache_fees c) (client_name c) (protocol_version c)
    (timeout c) (failed_hosts c) (max_servers c) (servers c) (host c) (port c)
    (rpc_client c) (transport c) (server_electrumx_version c)
    (server_protocol_version c) (draws c) (connects c) v (gathers c)
    (ticks c) (calls c).
Definition set_gathers (v : nat) (c : Client) : Client :=
  mkClient (use_ssl c) (cache_fees c) (client_name c) (protocol_version c)
    (timeout c) (failed_hosts c) (max_servers c) (servers c) (host c) (port c)
    (rpc_client c) (transport c) (server_electrumx_version c)
    (server_protocol_version c) (draws c) (connects c) (sent c) v
    (ticks c) (calls c).
Definition set_ticks (v : nat) (c : Client) : Client :=
  mkClient (use_ssl c) (cache_fees c) (client_name c) (protocol_version c)
    (timeout c) (failed_hosts c) (max_servers c) (servers c) (host c) (port c)
    (rpc_client c) (transport c) (server_electrumx_version c)
    (server_protocol_version c) (draws c) (connects c) (sent c) (gathers c)
    v (calls c).
Definition set_calls (v : list (nat * list pyval)) (c : Client) : Client :=
  mkClient (use_ssl c) (cache_fees c) (client_name c) (protocol_version c)
    (timeout c) (failed_hosts c) (max_servers c) (servers c) (host c) (port c)
    (rpc_client c) (transport c) (server_electrumx_version c)
    (server_protocol_version c) (draws c) (connects c) (sent c) (gathers c)
    (ticks c) v.

(** ** Indexing and dict access *)

(** [v[i]] for a literal index [i]. *)
Definition getitem (v : pyval) (i : nat) : Res pyval :=
  match v with
  | PList l => match l !! i with Some x => Ok x | None => Raise IndexError end
  | PStr s =>
      match String.get i s with
      | Some a => Ok (PStr (String a EmptyString))
      | None => Raise IndexError
      end
  | PDict _ => Raise (KeyError (PInt (Z.of_nat i)))
  | _ => Raise TypeError
  end.

(** [d[k]] on the items of a dict, in insertion order. *)
Fixpoint dict_lookup (d : list (string * pyval)) (k : string) : option pyval :=
  match d with
  | [] => None
  | (k', v) :: d' => if String.eqb k' k then Some v else dict_lookup d' k
  end.

(** [addrs_scripthashes[key]] on a dict kept in insertion order. *)
Definition addrs_lookup (addrs_scripthashes : list (string * pyval))
    (key : pyval) : Res pyval :=
  match key with
  | PStr k =>
      match dict_lookup addrs_scripthashes k with
      | Some a => Ok a
      | None => Raise (KeyError key)
      end
  | PList _ | PDict _ => Raise TypeError
  | _ => Raise (KeyError key)
  end.

(** [server[k]]: [KeyError] when the key is absent. *)
Definition server_getitem (server : Server) (k : string) : Res pyval :=
  match server !! k with
  | Some v => Ok v
  | None => Raise (KeyError (PStr k))
  end.

(** [self.servers[host]]. *)
Fixpoint registry_lookup (reg : list (string * Server)) (h : string) : option Server :=
  match reg with
  | [] => None
  | (k, v) :: rest => if String.eqb k h then Some v else registry_lookup rest h
  end.

(** [del self.servers[host]]. *)
Definition registry_delete (reg : list (string * Server)) (h : string) : list (string * Server) :=
  filter (fun kv => kv.1 <> h) reg.

(** ** Server selection *)

(** [ElectrumXClient.server_is_usable]; the result is the value of
    [server.get('usable', True)], which the caller tests for truth. *)
Definition server_is_usable (ssl : bool) (server : Server) : pyval :=
  if ssl && negb (bool_decide (is_Some (server !! "s"))) then PBool false
  else if negb ssl && negb (bool_decide (is_Some (server !! "t"))) then PBool false
  else default (PBool true) (server !! "usable").

(** The dict comprehension of [__init__] that builds [self.servers]. *)
Definition usable_servers (ssl : bool) (catalog : list (string * Server)) : list (string * Server) :=
  filter (fun kv => truthy (server_is_usable ssl kv.2) = true) catalog.

Section Methods.
Variable w : World.

(** [random.choice(seq)]: [IndexError] on an empty sequence. *)
Definition random_choice {A} (seq : list A) : M A := fun c =>
  match seq !! (random_below w (draws c) `mod` length seq)%nat with
  | Some x => (Ok x, set_draws (S (draws c)) c)
  | None => (Raise IndexError, c)
  end.

(** [ElectrumXClient.choose_random_server].  The self-call sits in the
    [except KeyError] clause, after the chosen host was deleted; [depth]
    counts the nested calls still allowed. *)
Fixpoint choose_random_server_rec (depth : nat) : M (string * pyval) :=
  match depth with
  | O => raise RecursionError
  | S depth' =>
      reg <- gets servers;;
      h <- random_choice (map fst reg);;
      try_except
        (ssl <- gets use_ssl;;
         match registry_lookup reg h with
         | None => raise (KeyError (PStr h))
         | Some server =>
             p <- lift (server_getitem server (if ssl then "s" else "t"));;
             ret (h, p)
         end)
        (fun e =>
           match e with
           | KeyError _ =>
               Some (modify (fun c => set_servers (registry_delete (servers c) h) c);;;
                     choose_random_server_rec depth')
           | _ => None
           end)
  end.

Definition choose_random_server : M (string * pyval) :=
  choose_random_server_rec (recursion_limit w).

(** ** The session *)

(** What [RPCClient.wait_for_response] coroutines wrapped in
    [asyncio.wait_for] are: awaitables naming the identifier waited for.
    [get_coroutines] may also hand back the values of a resubmitted batch,
    which are plain dicts. *)
Inductive Awaitable : Type :=
| Coro (id_ : nat)
| Value (v : ResultDict).

(** [TCPConnection(RPCClient, host, port, ...).create_connection()];
    the session it builds starts with an empty [self.result]. *)
Definition new_rpc_client (h : string) : RPCClient :=
  mkRPCClient ∅ ∅ 0 h None false.

(** Modelled from the spec: [JSONSession.send_request] (jsonrpc.py is not
    part of the sources).  The request is framed and written to the
    connection, which may raise a transport error; otherwise it is recorded
    under a freshly allocated identifier, with its handler, and the
    identifier is returned at once. *)
Definition send_request (handler : Handler) : M nat := fun c =>
  match rpc_client c with
  | None => (Raise (AttributeError "send_rpc_request"), c)
  | Some rc =>
      if send_raises w (length (sent c)) (peer rc) (h_method handler, h_params handler)
      then (Raise OSError, c)
      else
        let id_ := next_id rc in
        let rc' := mkRPCClient (result rc) (<[id_ := handler]> (handlers rc))
                     (S id_) (peer rc) (made rc) (closed rc) in
        (Ok id_, set_sent (sent c ++ [(peer rc, (h_method handler, h_params handler))])
                   (set_rpc_client (Some rc') c))
  end.

(** [RPCClient.send_rpc_request], called on [self.rpc_client]. *)
Definition send_rpc_request (method_ : string) (params_ : pyval)
    (callback : option Callback) : M nat :=
  let callback := default handle_response_cb callback in
  let handler := mkHandler callback method_ params_ in
  send_request handler.

(** [RPCClient.handle_response]. *)
Definition handle_response (method_ : string) (params_ : pyval)
    (id_ : nat) (data_ error_ : pyval) : M unit := fun c =>
  match rpc_client c with
  | None => (Raise (AttributeError "result"), c)
  | Some rc =>
      let rc' := mkRPCClient
                   (<[id_ := mkResult data_ error_ method_ params_]> (result rc))
                   (handlers rc) (next_id rc) (peer rc) (made rc) (closed rc) in
      (Ok tt, set_rpc_client (Some rc') c)
  end.

(** A user callback is called: the call is recorded. *)
Definition call_callback (cb : nat) (args : list pyval) : M unit :=
  modify (fun c => set_calls (calls c ++ [(cb, args)]) c).

(** The closure [handle_scripthash_notify] of
    [subscribe_to_scripthashes]. *)
Definition handle_scripthash_notify (addrs_scripthashes : list (string * pyval))
    (callback : nat) (method_ : string) (params_ : pyval)
    (id_ : nat) (data_ error_ : pyval) : M unit :=
  if truthy error_ then raise (Exception_ error_)
  else
    scripthash <- lift (getitem data_ 0);;
    address <- lift (addrs_lookup addrs_scripthashes scripthash);;
    status <- lift (getitem data_ 1);;
    call_callback callback [address; status].

(** The closure [handle_block_headers_notify] of
    [subscribe_to_block_headers]. *)
Definition handle_block_headers_notify (callback : nat) (method_ : string)
    (params_ : pyval) (id_ : nat) (data_ error_ : pyval) : M unit :=
  if truthy error_ then raise (Exception_ error_)
  else call_callback callback [data_].

(** Calling a handler [partial(callback, method, params)] on a frame. *)
Definition run_handler (h : Handler) (id_ : nat) (data_ error_ : pyval) : M unit :=
  match h_callback h with
  | handle_response_cb =>
      handle_response (h_method h) (h_params h) id_ data_ error_
  | handle_scripthash_notify_cb addrs cb =>
      handle_scripthash_notify addrs cb (h_method h) (h_params h) id_ data_ error_
  | handle_block_headers_notify_cb cb =>
      handle_block_headers_notify cb (h_method h) (h_params h) id_ data_ error_
  end.

(** Modelled from the spec: the dispatch of [JSONSession] (jsonrpc.py is
    not part of the sources).  An inbound frame is handed to the handler
    registered under its identifier.  How the session finds the handler of a
    frame that carries no such identifier belongs to that file and is not
    modelled: here such a frame reaches no handler. *)
Definition dispatch (f : Frame) : M unit :=
  let '(id_, data_, error_) := f in
  rc <- gets rpc_client;;
  match rc with
  | None => ret tt
  | Some rc =>
      match handlers rc !! id_ with
      | Some h => run_handler h id_ data_ error_
      | None => ret tt
      end
  end.

Fixpoint dispatch_all (fs : list Frame) : M unit :=
  match fs with
  | [] => ret tt
  | f :: fs' => dispatch f;;; dispatch_all fs'
  end.

(** [asyncio.wait_for(self.rpc_client.wait_for_response(id_), timeout)],
    once the loop runs it: the result stored under [id_] is popped; when no
    answer came in time the wait raises [TimeoutError].  The event awaited
    and its removal belong to [JSONSession]; here the entry of the handler
    table is removed with the result. *)
Definition wait_for_response (id_ : nat) : M ResultDict := fun c =>
  match rpc_client c with
  | None => (Raise (AttributeError "wait_for_response"), c)
  | Some rc =>
      match result rc !! id_ with
      | None => (Raise TimeoutError, c)
      | Some r =>
          let rc' := mkRPCClient (delete id_ (result rc))
                       (delete id_ (handlers rc)) (next_id rc) (peer rc)
                       (made rc) (closed rc) in
          (Ok r, set_rpc_client (Some rc') c)
      end
  end.

Fixpoint wait_all (ids : list nat) : M (list ResultDict) :=
  match ids with
  | [] => ret []
  | i :: ids' =>
      r <- wait_for_response i;;
      rs <- wait_all ids';;
      ret (r :: rs)
  end.

(** The identifiers of a list of coroutines; [None] when an element is not
    awaitable. *)
Fixpoint awaitable_ids (cs : list Awaitable) : option (list nat) :=
  match cs with
  | [] => Some []
  | Coro i :: cs' => option_map (cons i) (awaitable_ids cs')
  | Value _ :: _ => None
  end.

(** [self.loop.run_until_complete] of [asyncio.gather] on the coroutines:
    [gather] refuses what is not awaitable; then the loop runs, the frames
    that arrive are dispatched, and the results come back in the order of
    the coroutines. *)
Definition run_until_complete_gather (cs : list Awaitable) : M (list ResultDict) :=
  match awaitable_ids cs with
  | None => raise TypeError
  | Some ids =>
      n <- gets gathers;;
      modify (set_gathers (S n));;;
      dispatch_all (arrivals w n);;;
      wait_all ids
  end.

(** ** Failover *)

(** The exceptions [except OSError] catches: [ssl.SSLError] is a subclass of
    [OSError], and so is [asyncio.TimeoutError] where it is the built-in
    [TimeoutError]. *)
Definition is_OSError (e : exn) : bool :=
  match e with
  | OSError | SSLError => true
  | TimeoutError => timeout_is_oserror w
  | _ => false
  end.

(** [TCPConnection(RPCClient, self.host, self.port, ...).create_connection()]
    with its result bound as [transport, self.rpc_client = ...]; when the
    call raises, nothing is assigned. *)
Definition connect (c : Client) : Res (option nat) * Client :=
  let c' := set_connects (connects c ++ [(host c, port c)]) c in
  match create_connection w (length (connects c)) (host c) (port c) (use_ssl c) with
  | ConnOSError => (Raise OSError, c')
  | ConnSSLError => (Raise SSLError, c')
  | ConnReturn t cl =>
      (Ok t, set_rpc_client (if cl then Some (new_rpc_client (host c)) else None) c')
  end.

(** [self.rpc_client.connection_made(transport)]. *)
Definition connection_made (t : option nat) : M unit := fun c =>
  match rpc_client c with
  | None => (Raise (AttributeError "connection_made"), c)
  | Some rc =>
      (Ok tt, set_rpc_client
                (Some (mkRPCClient (result rc) (handlers rc) (next_id rc)
                         (peer rc) (Some t) (closed rc))) c)
  end.

(** [self.rpc_client.close_connection()]. *)
Definition close_connection : M unit := fun c =>
  match rpc_client c with
  | None => (Raise (AttributeError "close_connection"), c)
  | Some rc =>
      (Ok tt, set_rpc_client
                (Some (mkRPCClient (result rc) (handlers rc) (next_id rc)
                         (peer rc) (made rc) true)) c)
  end.

(** The loop [while self.host in self.failed_hosts] of [change_server];
    [fuel] bounds its iterations. *)
Fixpoint while_host_failed (fuel : nat) : M unit :=
  match fuel with
  | O => diverge
  | S fuel' =>
      h <- gets host;;
      f <- gets failed_hosts;;
      if bool_decide (h ∈ f) then
        hp <- choose_random_server;;
        modify (set_host_port hp.1 hp.2);;;
        while_host_failed fuel'
      else ret tt
  end.

(** The message of the exception [change_server] raises. *)
Definition attempted_message (n : nat) : pyval :=
  PStr ("Attempted to connect to " ++ pretty n ++ " servers but failed").

(** The bodies of the methods that call each other in a cycle, with the
    calls that close a cycle ([connect_to_server] from [change_server],
    [rpc_multiple_send_and_wait] from [get_coroutines]) left open. *)
Section Bodies.
Variable fuel : nat.
Variable connect_to_server_rec : M unit.
Variable rpc_multiple_send_and_wait_rec : list Request -> M (list ResultDict).

(** [ElectrumXClient.change_server]. *)
Definition change_server_body : M unit :=
  t <- gets transport;;
  match t with
  | None => raise (AttributeError "transport")
  | Some t =>
      (if bool_decide (is_Some t)
       then close_connection;;; modify (set_transport (Some None))
       else ret tt);;;
      h <- gets host;;
      f <- gets failed_hosts;;
      (if bool_decide (h ∈ f) then ret tt
       else modify (set_failed_hosts (f ++ [h])));;;
      f <- gets failed_hosts;;
      m <- gets max_servers;;
      if (m <=? Z.of_nat (length f))%Z
      then raise (Exception_ (attempted_message (length f)))
      else while_host_failed fuel;;; connect_to_server_rec
  end.

(** The [for] loop of [get_coroutines]; [requests] is the whole batch,
    [rest] what is still to send. *)
Fixpoint get_coroutines_loop (requests rest : list Request)
    (coroutines : list Awaitable) : M (list Awaitable) :=
  match rest with
  | [] => ret coroutines
  | (method_, params_) :: rest' =>
      r <- try_except
             (id_ <- send_rpc_request method_ params_ None;;
              try_except
                (ret (inl (Coro id_)))
                (fun e =>
                   match e with
                   | TimeoutError =>
                       Some (change_server_body;;;
                             vs <- rpc_multiple_send_and_wait_rec requests;;
                             ret (inr vs))
                   | _ => None
                   end))
             (fun e =>
                if is_OSError e
                then Some (change_server_body;;;
                           vs <- rpc_multiple_send_and_wait_rec requests;;
                           ret (inr vs))
                else None);;
      match r with
      | inl coro => get_coroutines_loop requests rest' (coroutines ++ [coro])
      | inr vs => ret (map Value vs)
      end
  end.

(** [ElectrumXClient.get_coroutines]. *)
Definition get_coroutines_body (requests : list Request) : M (list Awaitable) :=
  get_coroutines_loop requests requests [].

(** [ElectrumXClient.rpc_multiple_send_and_wait]. *)
Definition rpc_multiple_send_and_wait_body (requests : list Request)
    : M (list ResultDict) :=
  coroutines <- get_coroutines_body requests;;
  values <- run_until_complete_gather coroutines;;
  modify (set_failed_hosts []);;;
  ret values.

(** [ElectrumXClient.run_command], over a given batcher. *)
Definition run_command_with (batch : list Request -> M (list ResultDict))
    (request : Request) : M pyval :=
  values <- batch [request];;
  match values with
  | [] => raise IndexError
  | r :: _ =>
      if truthy (error r) then raise (RPCResponseExecption (error r))
      else ret (data r)
  end.

(** [ElectrumXClient._server_version] with its defaults. *)
Definition _server_version : M Request :=
  n <- gets client_name;;
  v <- gets protocol_version;;
  ret ("server.version", PList [n; v]).

(** [ElectrumXClient.connect_to_server]. *)
Definition connect_to_server_body : M unit :=
  try_except
    (transport_ <- connect;;
     rc <- gets rpc_client;;
     (if negb (bool_decide (is_Some transport_)) || negb (bool_decide (is_Some rc))
      then change_server_body else ret tt);;;
     connection_made transport_;;;
     try_except
       (request <- _server_version;;
        result_ <- run_command_with rpc_multiple_send_and_wait_body request;;
        v0 <- lift (getitem result_ 0);;
        modify (set_server_electrumx_version v0);;;
        v1 <- lift (getitem result_ 1);;
        modify (set_server_protocol_version v1))
       (fun e =>
          match e with
          | RPCResponseExecption _ => Some change_server_body
          | _ => None
          end))
    (fun e => if is_OSError e then Some change_server_body else None).

End Bodies.

(** The two methods that close the cycles, with [depth] cycle-closing calls
    still allowed before the interpreter gives up. *)
Record Cycle : Type := mkCycle {
  cy_connect_to_server : M unit;
  cy_rpc_multiple_send_and_wait : list Request -> M (list ResultDict)
}.

Fixpoint cycle (fuel depth : nat) : Cycle :=
  match depth with
  | O => mkCycle (raise RecursionError) (fun _ => raise RecursionError)
  | S depth' =>
      let r := cycle fuel depth' in
      mkCycle
        (connect_to_server_body fuel (cy_connect_to_server r)
           (cy_rpc_multiple_send_and_wait r))
        (rpc_multiple_send_and_wait_body fuel (cy_connect_to_server r)
           (cy_rpc_multiple_send_and_wait r))
  end.

Definition connect_to_server (fuel : nat) : M unit :=
  cy_connect_to_server (cycle fuel (recursion_limit w)).

Definition rpc_multiple_send_and_wait (fuel : nat) (requests : list Request)
    : M (list ResultDict) :=
  cy_rpc_multiple_send_and_wait (cycle fuel (recursion_limit w)) requests.

Definition change_server (fuel : nat) : M unit :=
  change_server_body fuel
    (cy_connect_to_server (cycle fuel (recursion_limit w))).

Definition get_coroutines (fuel : nat) (requests : list Request) : M (list Awaitable) :=
  get_coroutines_body fuel
    (cy_connect_to_server (cycle fuel (recursion_limit w)))
    (cy_rpc_multiple_send_and_wait (cycle fuel (recursion_limit w)))
    requests.

Definition run_command (fuel : nat) (request : Request) : M pyval :=
  run_command_with (rpc_multiple_send_and_wait fuel) request.

(** ** The calls built on the batcher *)

(** [ElectrumXClient._estimate_fee]. *)
Definition _estimate_fee (numblocks : Z) : Request :=
  ("blockchain.estimatefee", PList [PInt numblocks]).

(** [ElectrumXClient.estimate_fee]. *)
Definition estimate_fee (fuel : nat) (numblocks : Z) : M pyval :=
  run_command fuel (_estimate_fee numblocks).

(** [datetime.now()], in microseconds since the first instant a [datetime]
    holds. *)
Definition datetime_now : M Z := fun c =>
  (Ok (now w (ticks c)), set_ticks (S (ticks c)) c).

(** [timedelta(minutes=cache)], in microseconds. *)
Definition timedelta_minutes (cache : Z) : Z := (cache * 60000000)%Z.

(** The microseconds of a day. *)
Definition day_us : Z := 86400000000.

(** A [timedelta] holds durations of up to 999999999 days in magnitude. *)
Definition timedelta_in_range (us : Z) : bool :=
  (-999999999 * day_us <=? us)%Z && (us <? 1000000000 * day_us)%Z.

(** A [datetime] holds the instants of the years 1 to 9999, which are
    3652059 days. *)
Definition datetime_in_range (t : Z) : bool :=
  (0 <=? t)%Z && (t <? 3652059 * day_us)%Z.

(** [timedelta(minutes=cache)]: [OverflowError] out of range. *)
Definition timedelta (cache : Z) : Res Z :=
  if timedelta_in_range (timedelta_minutes cache)
  then Ok (timedelta_minutes cache)
  else Raise OverflowError.

(** [now + interval]: [OverflowError] when the date leaves the range. *)
Definition datetime_add (t interval : Z) : Res Z :=
  if datetime_in_range (t + interval) then Ok (t + interval)%Z
  else Raise OverflowError.

(** [ElectrumXClient.estimate_fee_cached]. *)
Definition estimate_fee_cached (fuel : nat) (numblocks : Z) (cache : Z) : M pyval :=
  now_ <- datetime_now;;
  fees <- gets cache_fees;;
  let refresh : M pyval :=
    fee_ <- estimate_fee fuel numblocks;;
    interval <- lift (timedelta cache);;
    expiry_ <- lift (datetime_add now_ interval);;
    modify (fun c => set_cache_fees
              (<[numblocks := mkFeeEntry fee_ expiry_]> (cache_fees c)) c);;;
    ret fee_ in
  match fees !! numblocks with
  | Some entry => if (expiry entry <=? now_)%Z then ret (fee entry) else refresh
  | None => refresh
  end.

(** [ElectrumXClient._broadcast_transaction]. *)
Definition _broadcast_transaction (raw_tx : pyval) : Request :=
  ("blockchain.transaction.broadcast", PList [raw_tx]).

(** The unpacking [method, params = request] of a value used as a request. *)
Definition unpack_request (v : pyval) : Res Request :=
  match v with
  | PList [PStr m; p] => Ok (m, p)
  | PList [_; _] => Raise TypeError
  | PList _ | PStr _ | PDict _ => Raise ValueError
  | _ => Raise TypeError
  end.

(** [ElectrumXClient.broadcast_transaction]: the argument of [run_command]
    is a call of [broadcast_transaction] itself; [depth] is the number of
    nested calls still allowed. *)
Fixpoint broadcast_transaction_rec (depth fuel : nat) (raw_tx : pyval) : M pyval :=
  match depth with
  | O => raise RecursionError
  | S depth' =>
      v <- broadcast_transaction_rec depth' fuel raw_tx;;
      request <- lift (unpack_request v);;
      run_command fuel request
  end.

Definition broadcast_transaction (fuel : nat) (raw_tx : pyval) : M pyval :=
  broadcast_transaction_rec (recursion_limit w) fuel raw_tx.

(** ** Subscriptions *)

(** [ElectrumXClient.rpc_subscribe]. *)
Fixpoint rpc_subscribe_loop (requests : list Request) (callback : Callback)
    (ids : list nat) : M (list nat) :=
  match requests with
  | [] => ret ids
  | (method_, params_) :: rest =>
      id_ <- send_rpc_request method_ params_ (Some callback);;
      rpc_subscribe_loop rest callback (ids ++ [id_])
  end.

Definition rpc_subscribe (requests : list Request) (callback : Callback) : M (list nat) :=
  rpc_subscribe_loop requests callback [].

(** [ElectrumXClient._subscribe_to_scripthash]. *)
Definition _subscribe_to_scripthash (scripthash : string) : Request :=
  ("blockchain.scripthash.subscribe", PList [PStr scripthash]).

(** [ElectrumXClient.subscribe_to_scripthashes]; the requests follow the
    keys of the dict, in insertion order. *)
Definition subscribe_to_scripthashes (addrs_scripthashes : list (string * pyval))
    (callback : nat) : M (list nat) :=
  rpc_subscribe
    (map (fun kv => _subscribe_to_scripthash kv.1) addrs_scripthashes)
    (handle_scripthash_notify_cb addrs_scripthashes callback).

(** [ElectrumXClient._subscribe_to_block_headers]. *)
Definition _subscribe_to_block_headers : Request :=
  ("blockchain.headers.subscribe", PList []).

(** [ElectrumXClient.subscribe_to_block_headers]. *)
Definition subscribe_to_block_headers (callback : nat) : M (list nat) :=
  rpc_subscribe [_subscribe_to_block_headers] (handle_block_headers_notify_cb callback).

(** ** Construction *)

(** The arguments of [ElectrumXClient.__init__] the model keeps. *)
Record InitArgs : Type := mkInitArgs {
  arg_servers : list (string * Server);
  arg_host : option string;
  arg_port : pyval;
  arg_use_ssl : bool;
  arg_timeout : Z;
  arg_max_servers : Z;
  arg_protocol_version : pyval;
  arg_client_name : pyval
}.

(** [ElectrumXClient.__init__]: the attributes are bound ([transport] is not
    among them), a server is chosen when no [host] was given, and the
    connection is made. *)
Definition __init__ (fuel : nat) (a : InitArgs) : Res unit * Client :=
  let catalog :=
    match arg_servers a with
    | [] => read_json w
    | l => l
    end in
  let self :=
    mkClient (arg_use_ssl a) ∅ (arg_client_name a) (arg_protocol_version a)
      (arg_timeout a) [] (arg_max_servers a)
      (usable_servers (arg_use_ssl a) catalog)
      (default "" (arg_host a)) (arg_port a) None None None None
      0 [] [] 0 0 [] in
  ((if String.eqb (default "" (arg_host a)) ""
    then hp <- choose_random_server;; modify (set_host_port hp.1 hp.2)
    else ret tt);;;
   connect_to_server fuel) self.

(** ** Programs over a client *)

(** A call of one of the client's methods from outside, or the arrival of
    pushed frames while the loop runs. *)
Inductive Call : Type :=
| call_choose_random_server
| call_connect_to_server
| call_change_server
| call_get_coroutines (requests : list Request)
| call_rpc_multiple_send_and_wait (requests : list Request)
| call_run_command (request : Request)
| call_estimate_fee (numblocks : Z)
| call_estimate_fee_cached (numblocks cache : Z)
| call_broadcast_transaction (raw_tx : pyval)
| call_subscribe_to_scripthashes (addrs_scripthashes : list (string * pyval)) (callback : nat)
| call_subscribe_to_block_headers (callback : nat)
| call_frames (frames : list Frame).

(** The client after a call, whether the call returned or raised. *)
Definition after_call (fuel : nat) (c : Client) (k : Call) : Client :=
  match k with
  | call_choose_random_server => (choose_random_server c).2
  | call_connect_to_server => (connect_to_server fuel c).2
  | call_change_server => (change_server fuel c).2
  | call_get_coroutines requests => (get_coroutines fuel requests c).2
  | call_rpc_multiple_send_and_wait requests =>
      (rpc_multiple_send_and_wait fuel requests c).2
  | call_run_command request => (run_command fuel request c).2
  | call_estimate_fee numblocks => (estimate_fee fuel numblocks c).2
  | call_estimate_fee_cached numblocks cache =>
      (estimate_fee_cached fuel numblocks cache c).2
  | call_broadcast_transaction raw_tx => (broadcast_transaction fuel raw_tx c).2
  | call_subscribe_to_scripthashes addrs callback =>
      (subscribe_to_scripthashes addrs callback c).2
  | call_subscribe_to_block_headers callback =>
      (subscribe_to_block_headers callback c).2
  | call_frames frames => (dispatch_all frames c).2
  end.

(** The client after a sequence of calls. *)
Definition after_calls (fuel : nat) (c : Client) (ks : list Call) : Client :=
  foldl (after_call fuel) c ks.

End Methods.

(** ** The remaining calls *)

(** Sequencing of outcomes that do not touch the client. *)
Definition res_bind {A B} (r : Res A) (f : A -> Res B) : Res B :=
  match r with
  | Ok a => f a
  | Raise e => Raise e
  | Diverge => Diverge
  end.

(** [[f(x) for x in xs]], stopping at the first exception. *)
Fixpoint res_map {A B} (f : A -> Res B) (xs : list A) : Res (list B) :=
  match xs with
  | [] => Ok []
  | x :: xs' =>
      res_bind (f x) (fun y => res_bind (res_map f xs') (fun ys => Ok (y :: ys)))
  end.

(** [d[k] = x]: an existing key keeps its place, a new one goes last. *)
Fixpoint dict_set (d : list (string * pyval)) (k : string) (x : pyval)
    : list (string * pyval) :=
  match d with
  | [] => [(k, x)]
  | (k', v) :: d' =>
      if String.eqb k' k then (k', x) :: d' else (k', v) :: dict_set d' k x
  end.

(** [v[k]] for a string key [k]. *)
Definition py_getitem_str (v : pyval) (k : string) : Res pyval :=
  match v with
  | PDict d =>
      match dict_lookup d k with
      | Some x => Ok x
      | None => Raise (KeyError (PStr k))
      end
  | _ => Raise TypeError
  end.

(** [v[k] = x] for a string key [k]; the value of [v] afterwards. *)
Definition py_setitem_str (v : pyval) (k : string) (x : pyval) : Res pyval :=
  match v with
  | PDict d => Ok (PDict (dict_set d k x))
  | _ => Raise TypeError
  end.

(** The items [for u in v] goes through. *)
Definition py_iter (v : pyval) : Res (list pyval) :=
  match v with
  | PList l => Ok l
  | PStr s => Ok (map (fun a => PStr (String a EmptyString)) (String.list_ascii_of_string s))
  | PDict d => Ok (map (fun kv => PStr kv.1) d)
  | _ => Raise TypeError
  end.

(** The keys of the dict [handle_response] builds. *)
Definition result_keys (r : ResultDict) : list string :=
  ["data"; "error"; "method"; "params"].

Section Calls.
Variable w : World.

(** [ElectrumXClient._relay_fee] and [relay_fee]. *)
Definition _relay_fee : Request := ("blockchain.relayfee", PList []).
Definition relay_fee (fuel : nat) : M pyval := run_command w fuel _relay_fee.

(** [ElectrumXClient._server_donation_address] and
    [server_donation_address]. *)
Definition _server_donation_address : Request := ("server.donation_address", PList []).
Definition server_donation_address (fuel : nat) : M pyval :=
  run_command w fuel _server_donation_address.

(** [ElectrumXClient._server_banner] and [server_banner]. *)
Definition _server_banner : Request := ("server.banner", PList []).
Definition server_banner (fuel : nat) : M pyval := run_command w fuel _server_banner.

(** [ElectrumXClient.server_features]: the argument of [run_command] is a
    call of [server_features] itself. *)
Fixpoint server_features_rec (depth fuel : nat) : M pyval :=
  match depth with
  | O => raise RecursionError
  | S depth' =>
      v <- server_features_rec depth' fuel;;
      request <- lift (unpack_request v);;
      run_command w fuel request
  end.

Definition server_features (fuel : nat) : M pyval :=
  server_features_rec (recursion_limit w) fuel.

(** [ElectrumXClient.subcribe_to_peers]: likewise a call of itself. *)
Fixpoint subcribe_to_peers_rec (depth fuel : nat) : M pyval :=
  match depth with
  | O => raise RecursionError
  | S depth' =>
      v <- subcribe_to_peers_rec depth' fuel;;
      request <- lift (unpack_request v);;
      run_command w fuel request
  end.

Definition subcribe_to_peers (fuel : nat) : M pyval :=
  subcribe_to_peers_rec (recursion_limit w) fuel.

(** [ElectrumXClient._block_header] and [block_header]. *)
Definition _block_header (heights : list pyval) : list Request :=
  map (fun height => ("blockchain.block.get_header", PList [height])) heights.

Definition block_header (fuel : nat) (heights : list pyval) : M (list ResultDict) :=
  rpc_multiple_send_and_wait w fuel (_block_header heights).

(** [ElectrumXClient._get_merkle] and [get_merkle]; each [tx] is indexed by
    ['tx_hash'] and then by ['height']. *)
Definition _get_merkle (txs : list pyval) : Res (list Request) :=
  res_map (fun tx =>
             res_bind (py_getitem_str tx "tx_hash") (fun tx_hash =>
             res_bind (py_getitem_str tx "height") (fun height =>
             Ok ("blockchain.transaction.get_merkle", PList [tx_hash; height]))))
    txs.

Definition get_merkle (fuel : nat) (txs : list pyval) : M (list ResultDict) :=
  requests <- lift (_get_merkle txs);;
  rpc_multiple_send_and_wait w fuel requests.

(** The loop of [get_all_merkle_data].  Its test is ['merkle' in
    result.keys()]; inside, the generator given to [next] starts by
    indexing a result with ['height']. *)
Fixpoint merkle_loop (results todo : list ResultDict) (merkles : list ResultDict)
    : Res (list ResultDict) :=
  match todo with
  | [] => Ok merkles
  | result_ :: rest =>
      if bool_decide ("merkle" ∈ result_keys result_)
      then Raise (KeyError (PStr "height"))
      else merkle_loop results rest merkles
  end.

(** [ElectrumXClient.get_all_merkle_data]. *)
Definition get_all_merkle_data (fuel : nat) (txs : list pyval) : M (list ResultDict) :=
  heights <- lift (res_map (fun tx => py_getitem_str tx "height") txs);;
  let block_header_requests := _block_header heights in
  get_merkle_requests <- lift (_get_merkle txs);;
  results <- rpc_multiple_send_and_wait w fuel
               (block_header_requests ++ get_merkle_requests);;
  lift (merkle_loop results results []).

(** [ElectrumXClient._get_tx] and [get_txs]. *)
Definition _get_tx (tx_hash : pyval) : Request :=
  ("blockchain.transaction.get", PList [tx_hash]).

Definition get_txs (fuel : nat) (tx_hashes : list pyval) : M (list ResultDict) :=
  rpc_multiple_send_and_wait w fuel (map _get_tx tx_hashes).

(** The request of a query about one scripthash. *)
Definition scripthash_request (method_ : string) (scripthash : string) : Request :=
  (method_, PList [PStr scripthash]).

(** The inner loop of [unspent], [get_mempool] and [history]: each item gets
    the address under ['address'] and is appended. *)
Fixpoint tag_items (addr : pyval) (items acc : list pyval) : Res (list pyval) :=
  match items with
  | [] => Ok acc
  | u :: rest =>
      res_bind (py_setitem_str u "address" addr) (fun u' =>
      tag_items addr rest (acc ++ [u']))
  end.

(** Their outer loop, over the results of the batch. *)
Fixpoint collect_tagged (addrs_scripthashes : list (string * pyval))
    (results : list ResultDict) (acc : list pyval) : Res (list pyval) :=
  match results with
  | [] => Ok acc
  | result_ :: rest =>
      if truthy (error result_)
      then Raise (RPCResponseExecption (error result_))
      else
        res_bind (getitem (params result_) 0) (fun scripthash =>
        res_bind (addrs_lookup addrs_scripthashes scripthash) (fun addr =>
        res_bind (py_iter (data result_)) (fun items =>
        res_bind (tag_items addr items acc) (fun acc' =>
        collect_tagged addrs_scripthashes rest acc'))))
  end.

(** The three methods have the same body, up to the name of the remote
    method. *)
Definition tagged_query (method_ : string) (fuel : nat)
    (addrs_scripthashes : list (string * pyval)) : M (list pyval) :=
  results <- rpc_multiple_send_and_wait w fuel
               (map (fun kv => scripthash_request method_ kv.1) addrs_scripthashes);;
  lift (collect_tagged addrs_scripthashes results []).

(** [ElectrumXClient.unspent]. *)
Definition unspent : nat -> list (string * pyval) -> M (list pyval) :=
  tagged_query "blockchain.scripthash.listunspent".

(** [ElectrumXClient.get_mempool]. *)
Definition get_mempool : nat -> list (string * pyval) -> M (list pyval) :=
  tagged_query "blockchain.scripthash.get_mempool".

(** [ElectrumXClient.history]. *)
Definition history : nat -> list (string * pyval) -> M (list pyval) :=
  tagged_query "blockchain.scripthash.get_history".

End Calls.

(** ** The client after the steps of a batch *)

(** The session once [send_rpc_request] has registered a handler for
    [callback] and request [r]. *)
Definition add_handler (callback : Callback) (rc : RPCClient) (r : Request) : RPCClient :=
  mkRPCClient (result rc)
    (<[next_id rc := mkHandler callback r.1 r.2]> (handlers rc))
    (S (next_id rc)) (peer rc) (made rc) (closed rc).

(** The client once the requests [rs] were sent through session [rc]. *)
Definition after_sends (callback : Callback) (c : Client) (rc : RPCClient)
    (rs : list Request) : Client :=
  set_sent (sent c ++ map (pair (peer rc)) rs)
    (set_rpc_client (Some (foldl (add_handler callback) rc rs)) c).

(** The session once a frame was handed to [handle_response]. *)
Definition deliver (rc : RPCClient) (f : Frame) : RPCClient :=
  match handlers rc !! f.1.1 with
  | Some h =>
      mkRPCClient
        (<[f.1.1 := mkResult f.1.2 f.2 (h_method h) (h_params h)]> (result rc))
        (handlers rc) (next_id rc) (peer rc) (made rc) (closed rc)
  | None => rc
  end.

(** The session once the waiter of [id_] has popped its result. *)
Definition pop (rc : RPCClient) (id_ : nat) : RPCClient :=
  mkRPCClient (delete id_ (result rc)) (delete id_ (handlers rc))
    (next_id rc) (peer rc) (made rc) (closed rc).

(** The frames that answer the identifiers [ids] with [answers], pairs
    [(data, error)]. *)
Definition answer_frames (ids : list nat) (answers : list (pyval * pyval)) : list Frame :=
  zip_with (fun i a => (i, a.1, a.2)) ids answers.

(** The results a batch [requests] answered by [answers] must produce. *)
Definition expected_results (requests : list Request)
    (answers : list (pyval * pyval)) : list ResultDict :=
  zip_with (fun r a => mkResult a.1 a.2 r.1 r.2) requests answers.

(** The client once a batch was sent, answered by [frames] and collected. *)
Definition after_batch (c : Client) (rc : RPCClient) (requests : list Request)
    (frames : list Frame) : Client :=
  let ids := seq (next_id rc) (length requests) in
  set_failed_hosts []
    (set_rpc_client
       (Some (foldl pop
                (foldl deliver (foldl (add_handler handle_response_cb) rc requests) frames)
                ids))
       (set_gathers (S (gathers c)) (after_sends handle_response_cb c rc requests))).

(** ** Concrete clients and worlds *)

(** A catalog entry that advertises only a TLS port. *)
Definition tls_server (p : string) : Server := {[ "s" := PStr p ]}.

(** A client as [__init__] leaves it once connected to [h]: the handshake
    request was sent with identifier 0, answered and collected. *)
Definition connected_client (h : string) (catalog : list (string * Server)) : Client :=
  mkClient true ∅ (PStr "cryptos") (PStr "1.4") 15 [] 5 catalog h (PStr "50002")
    (Some (mkRPCClient ∅ ∅ 1 h (Some (Some 1%nat)) false)) None
    (Some (PStr "ElectrumX 1.13")) (Some (PStr "1.4"))
    1 [(h, PStr "50002")]
    [(h, ("server.version", PList [PStr "cryptos"; PStr "1.4"]))] 1 0 [].

(** A world in which every connection is accepted, every send succeeds, the
    frames of [script n] arrive during the [n]-th batch and the clock reads
    [clock n] at the [n]-th look. *)
Definition scripted_world (script : nat -> list Frame) (clock : nat -> Z) : World :=
  mkWorld [] (fun n => n) (fun _ _ _ _ => ConnReturn (Some 1%nat) true)
    (fun _ _ _ => false) script clock 100 false.

(** The arguments [ElectrumXClient(servers=catalog, max_servers=n)], the
    other parameters at the values [connected_client] shows. *)
Definition default_args (catalog : list (string * Server)) (n : Z) : InitArgs :=
  mkInitArgs catalog None (PInt 50002) true 15 n (PStr "1.4") (PStr "cryptos").

(** The frame answering the handshake, which has identifier [id_]. *)
Definition handshake_frame (id_ : nat) : Frame :=
  (id_, PList [PStr "ElectrumX 1.13"; PStr "1.4"], PNone).

(** A world in which every server refuses the connection. *)
Definition rejecting_world : World :=
  mkWorld [] (fun n => n) (fun _ _ _ _ => ConnOSError) (fun _ _ _ => false)
    (fun _ => []) (fun _ => 0%Z) 100 false.

(** Three servers, each with a TLS port. *)
Definition three_servers : list (string * Server) :=
  [("a", tls_server "50002"); ("b", tls_server "50002"); ("c", tls_server "50002")].

(** The client [__init__] has built from [default_args three_servers 3] when
    it reaches [connect_to_server]: a server was drawn, nothing else done. *)
Definition fresh_client : Client :=
  mkClient true ∅ (PStr "cryptos") (PStr "1.4") 15 [] 3 three_servers "a"
    (PStr "50002") None None None None 1 [] [] 0 0 [].

(** A world that accepts connections but drops the second request sent. *)
Definition send_failing_world : World :=
  mkWorld [] (fun n => n) (fun _ _ _ _ => ConnReturn (Some 1%nat) true)
    (fun n _ _ => Nat.eqb n 1) (fun _ => []) (fun _ => 0%Z) 100 false.

(** Fee answers 100, 200, 300 to the requests 1, 2, 3, and a clock that
    reads 0, then 5 minutes, then 16 minutes. *)
Definition fee_world : World :=
  scripted_world
    (fun n => [(n, PInt (100 * Z.of_nat n), PNone)])
    (fun k => match k with
              | O => 0%Z
              | S O => timedelta_minutes 5
              | _ => timedelta_minutes 16
              end).

(** ** Notions used by the statements on selection *)

(** The key under which a descriptor advertises the port the TLS policy
    needs. *)
Definition port_key (ssl : bool) : string := if ssl then "s" else "t".

(** An exception is dedicated to the empty registry when the constructor
    raises it in no other situation. *)
Definition dedicated_to_empty_registry (e : exn) : Prop :=
  forall w fuel a c, __init__ w fuel a = (Raise e, c) -> servers c = [].

(** A client with an empty registry, as [__init__] has it when no entry of
    the catalog is usable and it is about to choose a server. *)
Definition client_without_servers : Client :=
  mkClient true ∅ (PStr "cryptos") (PStr "1.4") 15 [] 5 [] ""
    (PInt 50002) None None None None 0 [] [] 0 0 [].

(** A world whose generator always draws the first element, and whose
    server answers the handshake with a one-element list. *)
Definition short_handshake_world : World :=
  mkWorld [] (fun _ => 0%nat) (fun _ _ _ _ => ConnReturn (Some 1%nat) true)
    (fun _ _ _ => false) (fun _ => [(0%nat, PList [PStr "ElectrumX 1.13"], PNone)])
    (fun _ => 0%Z) 100 false.

(** ** Relations between a client before and after a call *)

(** A computation respects [R] when the client it leaves is related by [R]
    to the client it started from, whatever its outcome. *)
Definition respects {A} (R : Client -> Client -> Prop) (m : M A) : Prop :=
  forall c, R c (m c).2.

(** The registry has lost entries at most, and the TLS policy is the same. *)
Definition registry_shrinks (c c' : Client) : Prop :=
  use_ssl c' = use_ssl c /\ forall kv, kv ∈ servers c' -> kv ∈ servers c.

(** On a client whose [transport] is unbound and whose list of failed hosts
    is empty, both stay so, no connection is attempted and the host and port
    stay the same. *)
Definition stays_put (c c' : Client) : Prop :=
  transport c = None -> failed_hosts c = [] ->
  transport c' = None /\ failed_hosts c' = [] /\
  connects c' = connects c /\ host c' = host c /\ port c' = port c.

(** On such a client no server is drawn either: the registry and the number
    of draws stay the same. *)
Definition draws_nothing (c c' : Client) : Prop :=
  transport c = None -> failed_hosts c = [] ->
  transport c' = None /\ failed_hosts c' = [] /\
  servers c' = servers c /\ draws c' = draws c /\ use_ssl c' = use_ssl c.

(** The failover state is untouched: same [transport], same failed hosts,
    same connection attempts. *)
Definition same_attempts (c c' : Client) : Prop :=
  transport c' = transport c /\ failed_hosts c' = failed_hosts c /\
  connects c' = connects c.

(** Nothing about the server in use has changed. *)
Definition same_server (c c' : Client) : Prop :=
  host c' = host c /\ port c' = port c /\ connects c' = connects c /\
  servers c' = servers c /\ failed_hosts c' = failed_hosts c /\
  transport c' = transport c /\ cache_fees c' = cache_fees c.

(** The calls of [connect_to_server] from outside. *)
Definition is_connect_call (k : Call) : bool :=
  match k with
  | call_connect_to_server => true
  | _ => false
  end.

(** Two header requests, and the world that answers them in the reverse
    order. *)
Definition two_headers : list Request :=
  [("blockchain.block.get_header", PList [PInt 1]);
   ("blockchain.block.get_header", PList [PInt 2])].

Definition two_headers_world : World :=
  scripted_world (fun _ => [(2%nat, PInt 20, PNone); (1%nat, PInt 10, PNone)])
    (fun _ => 0%Z).

(** What [connect_to_server] has established when it returns: the last
    request sent is the handshake, made with the client's name and protocol
    version; the last batch awaited brought a frame for it whose error is not
    populated, and the two versions recorded are the first two items of that
    frame's data; the session has no request pending and no host is listed
    as failed. *)
Definition handshake_answered (w : World) (c : Client) : Prop :=
  failed_hosts c = [] /\
  exists rc id_ d e v0 v1 earlier,
    rpc_client c = Some rc /\ result rc = ∅ /\ handlers rc = ∅ /\
    next_id rc = S id_ /\
    sent c =
      (earlier ++ [(peer rc, ("server.version",
                              PList [client_name c; protocol_version c]))])%list /\
    (0 < gathers c)%nat /\ (id_, d, e) ∈ arrivals w (gathers c - 1) /\
    truthy e = false /\
    getitem d 0 = Ok v0 /\ getitem d 1 = Ok v1 /\
    server_electrumx_version c = Some v0 /\
    server_protocol_version c = Some v1.

(** A transaction as the callers of [get_merkle] pass it, and the world
    that answers the header request and the merkle request made for it. *)
Definition one_tx : pyval := PDict [("tx_hash", PStr "ab12"); ("height", PInt 5)].

Definition merkle_world : World :=
  scripted_world
    (fun _ => [(1%nat, PDict [("merkle_root", PStr "r00t"); ("block_height", PInt 5)], PNone);
               (2%nat, PDict [("merkle", PList [PStr "h1"]); ("block_height", PInt 5)], PNone)])
    (fun _ => 0%Z).

(** ** Notions used by the statements on the scripthash queries *)

(** An item of a query result with the address stored under ['address']. *)
Definition with_address (addr : pyval) (item : list (string * pyval)) : pyval :=
  PDict (dict_set item "address" addr).

(** The items of all scripthashes, each with the address of its scripthash,
    scripthash after scripthash. *)
Definition tagged (addrs_scripthashes : list (string * pyval))
    (items : list (list (list (string * pyval)))) : list pyval :=
  concat (zip_with (fun kv its => map (with_address kv.2) its)
            addrs_scripthashes items).

(** The answer to a query: a list of dict items as data, and an error. *)
Definition items_answer (a : list (list (string * pyval)) * pyval) : pyval * pyval :=
  (PList (map PDict a.1), a.2).

(** The three queries with the name of their remote method. *)
Definition scripthash_queries (w : World)
    : list (string * (nat -> list (string * pyval) -> M (list pyval))) :=
  [("blockchain.scripthash.listunspent", unspent w);
   ("blockchain.scripthash.get_mempool", get_mempool w);
   ("blockchain.scripthash.get_history", history w)].

(** Two scripthashes with their addresses, and a world in which the second
    is answered first: one unspent output for the first, two for the
    second. *)
Definition two_addrs : list (string * pyval) :=
  [("5c1e", PStr "1BoatSLRHtKNngkdXEeobR76b53LETtpyT");
   ("a0f4", PStr "1dice8EMZmqKvrGE4Qc9bUFf9PX3xaYDp")].

Definition two_addrs_items : list (list (list (string * pyval)) * pyval) :=
  [([[("tx_pos", PInt 0); ("value", PInt 5000)]], PNone);
   ([[("tx_pos", PInt 1); ("value", PInt 700)];
     [("tx_pos", PInt 3); ("value", PInt 20)]], PNone)].

Definition two_addrs_world : World :=
  scripted_world
    (fun _ => [(2%nat, PList [PDict [("tx_pos", PInt 1); ("value", PInt 700)];
                              PDict [("tx_pos", PInt 3); ("value", PInt 20)]], PNone);
               (1%nat, PList [PDict [("tx_pos", PInt 0); ("value", PInt 5000)]], PNone)])
    (fun _ => 0%Z).

(** The same with the second scripthash answered by an error. *)
Definition two_addrs_error_world : World :=
  scripted_world
    (fun _ => [(2%nat, PNone, PStr "history too large");
               (1%nat, PList [PDict [("tx_pos", PInt 0); ("value", PInt 5000)]], PNone)])
    (fun _ => 0%Z).

(** A client in the middle of a failover whose only server has failed. *)
Definition client_all_failed : Client :=
  mkClient true ∅ (PStr "cryptos") (PStr "1.4") 15 [] 5
    [("a", tls_server "50002")] "a"
    (PStr "50002") None (Some None) None None 1 [("a", PStr "50002")] [] 0 0 [].

(** A transaction that can be asked about: a dict with ['tx_hash'] and
    ['height']. *)
Definition has_merkle_keys (tx : pyval) : bool :=
  match tx with
  | PDict d =>
      bool_decide (is_Some (dict_lookup d "tx_hash")) &&
      bool_decide (is_Some (dict_lookup d "height"))
  | _ => false
  end.

(** * Properties *)

(** ** The [transport] attribute is never bound *)

(** A computation keeps [transport] unbound when it was. *)
Definition keeps_unbound {A} (m : M A) : Prop :=
  forall c, transport c = None -> transport (m c).2 = None.

Lemma keeps_ret {A} (a : A) : keeps_unbound (ret a).
Proof. intros c H; exact H. Qed.

Lemma keeps_raise {A} (e : exn) : keeps_unbound (@raise A e).
Proof. intros c H; exact H. Qed.

Lemma keeps_diverge {A} : keeps_unbound (@diverge A).
Proof. intros c H; exact H. Qed.

Lemma keeps_gets {A} (f : Client -> A) : keeps_unbound (gets f).
Proof. intros c H; exact H. Qed.

Lemma keeps_lift {A} (r : Res A) : keeps_unbound (lift r).
Proof. intros c H; exact H. Qed.

Lemma keeps_modify (f : Client -> Client) :
  (forall c, transport (f c) = transport c) -> keeps_unbound (modify f).
Proof. intros Hf c H; cbn; rewrite Hf; exact H. Qed.

Lemma keeps_bind {A B} (m : M A) (f : A -> M B) :
  keeps_unbound m -> (forall a, keeps_unbound (f a)) -> keeps_unbound (bind m f).
Proof.
  intros Hm Hf c H. unfold bind. specialize (Hm c H).
  destruct (m c) as [[a | e |] c']; cbn in *; auto. apply Hf; auto.
Qed.

Lemma keeps_try_except {A} (m : M A) (h : exn -> option (M A)) :
  keeps_unbound m ->
  (forall e k, h e = Some k -> keeps_unbound k) ->
  keeps_unbound (try_except m h).
Proof.
  intros Hm Hh c H. unfold try_except. specialize (Hm c H).
  destruct (m c) as [[a | e |] c']; cbn in *; auto.
  destruct (h e) as [k |] eqn:E; cbn; auto. eapply Hh; eauto.
Qed.

Lemma keeps_if {A} (b : bool) (m1 m2 : M A) :
  keeps_unbound m1 -> keeps_unbound m2 -> keeps_unbound (if b then m1 else m2).
Proof. destruct b; auto. Qed.

Create HintDb keeps.
#[local] Hint Resolve keeps_ret keeps_raise keeps_diverge keeps_gets keeps_lift
  keeps_bind keeps_try_except keeps_if : keeps.

(** Closes the goal for a method written as a function of the client whose
    every branch assigns some attribute other than [transport]. *)
Ltac keeps_by_cases :=
  intros c H; cbv beta zeta delta [random_choice send_rpc_request send_request handle_response
    wait_for_response connect connection_made close_connection datetime_now];
  repeat match goal with
         | |- context [match ?x with _ => _ end] => destruct x
         end; cbn; auto.

Section Unbound.
Variable w : World.

Lemma keeps_random_choice {A} (seq : list A) : keeps_unbound (random_choice w seq).
Proof. keeps_by_cases. Qed.

Lemma keeps_choose_random_server_rec depth :
  keeps_unbound (choose_random_server_rec w depth).
Proof.
  induction depth as [| depth IH]; cbn [choose_random_server_rec].
  - apply keeps_raise.
  - apply keeps_bind; [apply keeps_gets | intros reg].
    apply keeps_bind; [apply keeps_random_choice | intros h].
    apply keeps_try_except.
    + apply keeps_bind; [apply keeps_gets | intros ssl].
      destruct (registry_lookup reg h); auto with keeps.
    + intros e k; destruct e; try discriminate.
      intros [= <-]. apply keeps_bind; [| auto].
      apply keeps_modify; reflexivity.
Qed.

Lemma keeps_choose_random_server : keeps_unbound (choose_random_server w).
Proof. apply keeps_choose_random_server_rec. Qed.

Lemma keeps_send_rpc_request m p cb : keeps_unbound (send_rpc_request w m p cb).
Proof. keeps_by_cases. Qed.

Lemma keeps_handle_response m p i d e : keeps_unbound (handle_response m p i d e).
Proof. keeps_by_cases. Qed.

Lemma keeps_call_callback cb args : keeps_unbound (call_callback cb args).
Proof. apply keeps_modify; reflexivity. Qed.

Lemma keeps_run_handler h i d e : keeps_unbound (run_handler h i d e).
Proof.
  unfold run_handler, handle_scripthash_notify, handle_block_headers_notify.
  destruct (h_callback h); [apply keeps_handle_response | |];
    destruct (truthy e); auto 10 using keeps_call_callback with keeps.
Qed.

Lemma keeps_dispatch f : keeps_unbound (dispatch f).
Proof.
  destruct f as [[i d] e]. unfold dispatch.
  apply keeps_bind; [apply keeps_gets | intros [rc |]]; [| apply keeps_ret].
  destruct (handlers rc !! i); [apply keeps_run_handler | apply keeps_ret].
Qed.

Lemma keeps_dispatch_all fs : keeps_unbound (dispatch_all fs).
Proof.
  induction fs; cbn [dispatch_all]; auto using keeps_dispatch with keeps.
Qed.

Lemma keeps_wait_for_response i : keeps_unbound (wait_for_response i).
Proof. keeps_by_cases. Qed.

Lemma keeps_wait_all ids : keeps_unbound (wait_all ids).
Proof.
  induction ids; cbn [wait_all]; auto 10 using keeps_wait_for_response with keeps.
Qed.

Lemma keeps_run_until_complete_gather cs :
  keeps_unbound (run_until_complete_gather w cs).
Proof.
  unfold run_until_complete_gather. destruct (awaitable_ids cs); [| apply keeps_raise].
  apply keeps_bind; [apply keeps_gets | intros n].
  apply keeps_bind; [apply keeps_modify; reflexivity | intros _].
  apply keeps_bind; [apply keeps_dispatch_all | intros _]. apply keeps_wait_all.
Qed.

Lemma keeps_connect : keeps_unbound (connect w).
Proof. keeps_by_cases. Qed.

Lemma keeps_connection_made t : keeps_unbound (connection_made t).
Proof. keeps_by_cases. Qed.

(** [change_server] reads [self.transport] first: with the attribute unbound
    it raises at once and changes nothing. *)
Lemma change_server_body_unbound fuel k c :
  transport c = None ->
  change_server_body w fuel k c = (Raise (AttributeError "transport"), c).
Proof. intros H. unfold change_server_body, bind, gets. rewrite H. reflexivity. Qed.

Lemma keeps_change_server_body fuel k : keeps_unbound (change_server_body w fuel k).
Proof. intros c H. rewrite change_server_body_unbound; auto. Qed.

Section Body.
Variable fuel : nat.
Variable connect_rec : M unit.
Variable batch_rec : list Request -> M (list ResultDict).
Hypothesis batch_rec_keeps : forall requests, keeps_unbound (batch_rec requests).

Lemma keeps_get_coroutines_loop requests rest acc :
  keeps_unbound (get_coroutines_loop w fuel connect_rec batch_rec requests rest acc).
Proof.
  revert acc. induction rest as [| [m p] rest IH]; intros acc;
    cbn [get_coroutines_loop]; [apply keeps_ret |].
  apply keeps_bind.
  - apply keeps_try_except.
    + apply keeps_bind; [apply keeps_send_rpc_request | intros i].
      apply keeps_try_except; [apply keeps_ret |].
      intros e k; destruct e; try discriminate. intros [= <-].
      auto 10 using keeps_change_server_body with keeps.
    + intros e k. destruct (is_OSError w e); [| discriminate]. intros [= <-].
      auto 10 using keeps_change_server_body with keeps.
  - intros [coro | vs]; [apply IH | apply keeps_ret].
Qed.

Lemma keeps_rpc_multiple_send_and_wait_body requests :
  keeps_unbound (rpc_multiple_send_and_wait_body w fuel connect_rec batch_rec requests).
Proof.
  unfold rpc_multiple_send_and_wait_body, get_coroutines_body.
  apply keeps_bind; [apply keeps_get_coroutines_loop | intros cs].
  apply keeps_bind; [apply keeps_run_until_complete_gather | intros vs].
  apply keeps_bind; [apply keeps_modify; reflexivity | intros _; apply keeps_ret].
Qed.

Lemma keeps_run_command_with batch request :
  (forall requests, keeps_unbound (batch requests)) ->
  keeps_unbound (run_command_with batch request).
Proof.
  intros Hb. unfold run_command_with.
  apply keeps_bind; [apply Hb | intros [| r vs]]; [apply keeps_raise |].
  destruct (truthy (error r)); auto with keeps.
Qed.

Lemma keeps_connect_to_server_body :
  keeps_unbound (connect_to_server_body w fuel connect_rec batch_rec).
Proof.
  unfold connect_to_server_body, _server_version.
  apply keeps_try_except.
  - apply keeps_bind; [apply keeps_connect | intros t].
    apply keeps_bind; [apply keeps_gets | intros rc].
    apply keeps_bind;
      [apply keeps_if; [apply keeps_change_server_body | apply keeps_ret] | intros _].
    apply keeps_bind; [apply keeps_connection_made | intros _].
    apply keeps_try_except.
    + apply keeps_bind; [auto with keeps | intros request].
      apply keeps_bind;
        [apply keeps_run_command_with, keeps_rpc_multiple_send_and_wait_body
        | intros v].
      apply keeps_bind; [apply keeps_lift | intros v0].
      apply keeps_bind; [apply keeps_modify; reflexivity | intros _].
      apply keeps_bind; [apply keeps_lift | intros v1].
      apply keeps_modify; reflexivity.
    + intros e k; destruct e; try discriminate. intros [= <-].
      apply keeps_change_server_body.
  - intros e k. destruct (is_OSError w e); [| discriminate]. intros [= <-].
    apply keeps_change_server_body.
Qed.

End Body.

Lemma keeps_cycle fuel depth :
  keeps_unbound (cy_connect_to_server (cycle w fuel depth)) /\
  forall requests,
    keeps_unbound (cy_rpc_multiple_send_and_wait (cycle w fuel depth) requests).
Proof.
  induction depth as [| depth [IHc IHb]]; cbn [cycle cy_connect_to_server
    cy_rpc_multiple_send_and_wait].
  - split; [| intros]; apply keeps_raise.
  - split; [| intros requests].
    + apply keeps_connect_to_server_body; assumption.
    + apply keeps_rpc_multiple_send_and_wait_body; assumption.
Qed.

Lemma keeps_rpc_multiple_send_and_wait fuel requests :
  keeps_unbound (rpc_multiple_send_and_wait w fuel requests).
Proof. apply keeps_cycle. Qed.

Lemma keeps_run_command fuel request : keeps_unbound (run_command w fuel request).
Proof. apply keeps_run_command_with, keeps_rpc_multiple_send_and_wait. Qed.

Lemma keeps_estimate_fee_cached fuel n cache :
  keeps_unbound (estimate_fee_cached w fuel n cache).
Proof.
  unfold estimate_fee_cached, estimate_fee.
  apply keeps_bind; [keeps_by_cases | intros t].
  apply keeps_bind; [apply keeps_gets | intros fees].
  assert (keeps_unbound
            (bind (run_command w fuel (_estimate_fee n))
               (fun fee_ =>
                  bind (lift (timedelta cache)) (fun interval =>
                  bind (lift (datetime_add t interval)) (fun expiry_ =>
                  bind (modify (fun c => set_cache_fees
                          (<[n := mkFeeEntry fee_ expiry_]> (cache_fees c)) c))
                    (fun _ => ret fee_)))))) as Hr.
  { apply keeps_bind; [apply keeps_run_command | intros v].
    apply keeps_bind; [apply keeps_lift | intros i].
    apply keeps_bind; [apply keeps_lift | intros x].
    apply keeps_bind; [apply keeps_modify; reflexivity | intros _; apply keeps_ret]. }
  destruct (fees !! n) as [entry |]; [| exact Hr].
  destruct (expiry entry <=? t)%Z; [apply keeps_ret | exact Hr].
Qed.

Lemma keeps_broadcast_transaction_rec depth fuel raw_tx :
  keeps_unbound (broadcast_transaction_rec w depth fuel raw_tx).
Proof.
  induction depth; cbn [broadcast_transaction_rec]; [apply keeps_raise |].
  apply keeps_bind; [assumption | intros v].
  apply keeps_bind; [apply keeps_lift | intros r; apply keeps_run_command].
Qed.

Lemma keeps_rpc_subscribe_loop requests cb ids :
  keeps_unbound (rpc_subscribe_loop w requests cb ids).
Proof.
  revert ids; induction requests as [| [m p] rest IH]; intros ids;
    cbn [rpc_subscribe_loop]; [apply keeps_ret |].
  apply keeps_bind; [apply keeps_send_rpc_request | intros i; apply IH].
Qed.

Lemma after_call_unbound fuel c k :
  transport c = None -> transport (after_call w fuel c k) = None.
Proof.
  intros H. destruct k; cbn [after_call].
  - apply keeps_choose_random_server, H.
  - apply keeps_cycle, H.
  - unfold change_server. rewrite change_server_body_unbound; auto.
  - apply keeps_get_coroutines_loop; [apply keeps_cycle | exact H].
  - apply keeps_rpc_multiple_send_and_wait, H.
  - apply keeps_run_command, H.
  - apply keeps_run_command, H.
  - apply keeps_estimate_fee_cached, H.
  - apply keeps_broadcast_transaction_rec, H.
  - apply keeps_rpc_subscribe_loop, H.
  - apply keeps_rpc_subscribe_loop, H.
  - apply keeps_dispatch_all, H.
Qed.

Lemma after_calls_unbound fuel ks c :
  transport c = None -> transport (after_calls w fuel c ks) = None.
Proof.
  revert c. induction ks as [| k ks IH]; intros c H; cbn; [exact H |].
  apply IH, after_call_unbound, H.
Qed.

Lemma init_unbound fuel a : transport (__init__ w fuel a).2 = None.
Proof.
  unfold __init__.
  match goal with |- transport (?m ?c).2 = None => assert (keeps_unbound m) as Hm end.
  { apply keeps_bind; [| intros _; apply keeps_cycle].
    apply keeps_if; [| apply keeps_ret].
    apply keeps_bind; [apply keeps_choose_random_server | intros hp].
    apply keeps_modify; reflexivity. }
  apply Hm. reflexivity.
Qed.

(** C3: [change_server] begins by reading [self.transport], and nothing binds
    that attribute before [change_server] has read it: [__init__] does not,
    [connect_to_server] keeps the transport in a local variable, and no other
    method assigns it.  So on the client [__init__] leaves behind, and after
    any sequence of further calls on it, [change_server] raises
    [AttributeError]; it has closed no connection and chosen no server, the
    client is as it was. *)
Theorem change_server_raises_attribute_error (fuel : nat) (a : InitArgs) (ks : list Call) :
  let c := after_calls w fuel (__init__ w fuel a).2 ks in
  transport c = None /\
  change_server w fuel c = (Raise (AttributeError "transport"), c).
Proof.
  cbn zeta.
  assert (transport (after_calls w fuel (__init__ w fuel a).2 ks) = None) as H
    by apply after_calls_unbound, init_unbound.
  split; [exact H |]. unfold change_server. apply change_server_body_unbound, H.
Qed.

End Unbound.

(** ** [broadcast_transaction] calls itself *)

Lemma broadcast_transaction_rec_raises w depth fuel raw_tx c :
  broadcast_transaction_rec w depth fuel raw_tx c = (Raise RecursionError, c).
Proof.
  induction depth as [| depth IH]; cbn [broadcast_transaction_rec]; [reflexivity |].
  unfold bind at 1. rewrite IH. reflexivity.
Qed.

(** C10: [broadcast_transaction] evaluates [self.broadcast_transaction(raw_tx)]
    as the argument of [run_command], so every call starts with a call of
    itself: whatever the transaction, the client and the recursion limit, the
    call ends in [RecursionError], never in a value, and the client is
    untouched; in particular no request was sent. *)
Theorem broadcast_transaction_never_returns (w : World) (fuel : nat)
    (raw_tx : pyval) (c : Client) :
  broadcast_transaction w fuel raw_tx c = (Raise RecursionError, c) /\
  sent (broadcast_transaction w fuel raw_tx c).2 = sent c.
Proof.
  unfold broadcast_transaction. rewrite broadcast_transaction_rec_raises. auto.
Qed.

(** ** A batch on a connected client *)

Section Batch.
Variable w : World.

Lemma send_rpc_request_ok m p cb c rc :
  rpc_client c = Some rc ->
  send_raises w (length (sent c)) (peer rc) (m, p) = false ->
  send_rpc_request w m p cb c =
    (Ok (next_id rc), after_sends (default handle_response_cb cb) c rc [(m, p)]).
Proof.
  intros Hrc Hs. unfold send_rpc_request, send_request. cbn. rewrite Hrc, Hs. reflexivity.
Qed.

Lemma foldl_add_handler_peer cb rs rc :
  peer (foldl (add_handler cb) rc rs) = peer rc.
Proof. revert rc; induction rs as [| r rs IH]; intros rc; cbn; [| rewrite IH]; done. Qed.

Lemma foldl_add_handler_next_id cb rs rc :
  next_id (foldl (add_handler cb) rc rs) = (next_id rc + length rs)%nat.
Proof.
  revert rc; induction rs as [| r rs IH]; intros rc; cbn; [lia |].
  rewrite IH. cbn. lia.
Qed.

Lemma foldl_add_handler_result cb rs rc :
  result (foldl (add_handler cb) rc rs) = result rc.
Proof. revert rc; induction rs as [| r rs IH]; intros rc; cbn; [| rewrite IH]; done. Qed.

Lemma foldl_add_handler_old cb rs rc j :
  (j < next_id rc)%nat ->
  handlers (foldl (add_handler cb) rc rs) !! j = handlers rc !! j.
Proof.
  revert rc; induction rs as [| r rs IH]; intros rc Hj; cbn; [done |].
  rewrite IH by (cbn; lia). cbn. apply lookup_insert_ne. lia.
Qed.

Lemma foldl_add_handler_new cb rs rc i r :
  rs !! i = Some r ->
  handlers (foldl (add_handler cb) rc rs) !! (next_id rc + i)%nat =
    Some (mkHandler cb r.1 r.2).
Proof.
  revert rc i; induction rs as [| r0 rs IH]; intros rc i Hi; [done |].
  destruct i as [| i]; cbn in *.
  - injection Hi as ->. rewrite foldl_add_handler_old by (cbn; lia).
    cbn. rewrite Nat.add_0_r. apply lookup_insert_eq.
  - replace (next_id rc + S i)%nat with (next_id (add_handler cb rc r0) + i)%nat
      by (cbn; lia).
    apply IH, Hi.
Qed.

Lemma after_sends_cons cb c rc r rs :
  after_sends cb (after_sends cb c rc [r]) (add_handler cb rc r) rs =
    after_sends cb c rc (r :: rs).
Proof.
  unfold after_sends, set_sent, set_rpc_client; cbn. f_equal.
  rewrite <- app_assoc. reflexivity.
Qed.

Lemma after_sends_nil cb c rc : rpc_client c = Some rc -> after_sends cb c rc [] = c.
Proof.
  intros H. destruct c; cbn in *; subst.
  unfold after_sends, set_sent, set_rpc_client; cbn. rewrite app_nil_r. reflexivity.
Qed.

Lemma get_coroutines_loop_ok fuel k b requests rest acc c rc :
  rpc_client c = Some rc ->
  (forall i r, rest !! i = Some r ->
     send_raises w (length (sent c) + i) (peer rc) r = false) ->
  get_coroutines_loop w fuel k b requests rest acc c =
    (Ok (acc ++ map Coro (seq (next_id rc) (length rest)))%list,
     after_sends handle_response_cb c rc rest).
Proof.
  revert acc c rc. induction rest as [| [m p] rest IH]; intros acc c rc Hrc Hs.
  - cbn. rewrite app_nil_r, after_sends_nil; auto.
  - cbn [get_coroutines_loop]. unfold bind at 1. unfold try_except at 1.
    unfold bind at 1. rewrite (send_rpc_request_ok m p None c rc Hrc).
    2:{ specialize (Hs 0%nat (m, p) eq_refl). rewrite Nat.add_0_r in Hs. exact Hs. }
    cbn [default]. unfold try_except, ret.
    rewrite (IH _ _ (add_handler handle_response_cb rc (m, p))).
    + rewrite after_sends_cons. cbn [length seq map add_handler next_id].
      rewrite <- app_assoc. reflexivity.
    + reflexivity.
    + intros i r Hi. cbn [after_sends set_sent sent add_handler peer].
      unfold after_sends; cbn. rewrite length_app; cbn.
      replace (length (sent c) + 1 + i)%nat with (length (sent c) + S i)%nat by lia.
      apply Hs. exact Hi.
Qed.

Lemma awaitable_ids_coros ids : awaitable_ids (map Coro ids) = Some ids.
Proof. induction ids as [| i ids IH]; cbn; [| rewrite IH]; reflexivity. Qed.

Lemma deliver_handlers rc f : handlers (deliver rc f) = handlers rc.
Proof. unfold deliver. destruct (handlers rc !! f.1.1); reflexivity. Qed.

Lemma foldl_deliver_handlers fs rc : handlers (foldl deliver rc fs) = handlers rc.
Proof.
  revert rc; induction fs as [| f fs IH]; intros rc; cbn; [done |].
  rewrite IH. apply deliver_handlers.
Qed.

Lemma dispatch_ok f c rc :
  rpc_client c = Some rc ->
  (forall h, handlers rc !! f.1.1 = Some h -> h_callback h = handle_response_cb) ->
  dispatch f c = (Ok tt, set_rpc_client (Some (deliver rc f)) c).
Proof.
  intros Hrc Hh. destruct f as [[i d] e]. unfold dispatch, deliver, bind, gets.
  rewrite Hrc. cbn in *. destruct (handlers rc !! i) as [h |] eqn:E.
  - unfold run_handler. rewrite (Hh h eq_refl). unfold handle_response.
    rewrite Hrc. reflexivity.
  - destruct c; cbn in *; subst. reflexivity.
Qed.

Lemma dispatch_all_ok fs c rc :
  rpc_client c = Some rc ->
  (forall f h, f ∈ fs -> handlers rc !! f.1.1 = Some h ->
     h_callback h = handle_response_cb) ->
  dispatch_all fs c = (Ok tt, set_rpc_client (Some (foldl deliver rc fs)) c).
Proof.
  revert c rc. induction fs as [| f fs IH]; intros c rc Hrc Hh.
  - cbn. destruct c; cbn in *; subst. reflexivity.
  - cbn [dispatch_all foldl]. unfold bind.
    rewrite (dispatch_ok f c rc Hrc) by (intros h; apply Hh; left).
    rewrite (IH _ (deliver rc f)); [reflexivity | reflexivity |].
    intros f' h Hin. rewrite deliver_handlers. apply Hh. right. exact Hin.
Qed.

Lemma wait_all_ok ids vs c rc :
  rpc_client c = Some rc -> NoDup ids ->
  Forall2 (fun i v => result rc !! i = Some v) ids vs ->
  wait_all ids c = (Ok vs, set_rpc_client (Some (foldl pop rc ids)) c).
Proof.
  intros Hrc Hnd HF. revert vs c rc Hrc Hnd HF.
  induction ids as [| i ids IH]; intros vs c rc Hrc Hnd HF.
  - apply Forall2_nil_inv_l in HF as ->. cbn.
    destruct c; cbn in *; subst. reflexivity.
  - apply Forall2_cons_inv_l in HF as (v & vs' & Hv & HF & ->).
    apply NoDup_cons in Hnd as [Hni Hnd].
    cbn [wait_all foldl]. unfold bind at 1. unfold wait_for_response.
    rewrite Hrc, Hv. fold (pop rc i). unfold bind at 1.
    rewrite (IH vs' _ (pop rc i)); [reflexivity | reflexivity | exact Hnd |].
    apply Forall2_same_length_lookup.
    split; [eapply Forall2_length; exact HF |].
    intros n j u Hj Hu. cbn. rewrite lookup_delete_ne.
    + exact (Forall2_lookup_lr _ _ _ _ _ _ HF Hj Hu).
    + intros ->. apply Hni. eapply list_elem_of_lookup_2; exact Hj.
Qed.

Lemma foldl_deliver_other fs rc i :
  i ∉ (fun f : Frame => f.1.1) <$> fs ->
  result (foldl deliver rc fs) !! i = result rc !! i.
Proof.
  revert rc. induction fs as [| f fs IH]; intros rc Hi; cbn; [done |].
  rewrite fmap_cons in Hi. apply not_elem_of_cons in Hi as [Hne Hi].
  rewrite IH by exact Hi. unfold deliver.
  destruct (handlers rc !! f.1.1); [| done]. cbn. apply lookup_insert_ne. congruence.
Qed.

Lemma foldl_deliver_lookup fs rc i d e h :
  NoDup ((fun f : Frame => f.1.1) <$> fs) ->
  (i, d, e) ∈ fs ->
  handlers rc !! i = Some h ->
  result (foldl deliver rc fs) !! i = Some (mkResult d e (h_method h) (h_params h)).
Proof.
  revert rc. induction fs as [| f fs IH]; intros rc Hnd Hin Hh.
  - inversion Hin.
  - rewrite fmap_cons in Hnd. apply NoDup_cons in Hnd as [Hni Hnd].
    apply elem_of_cons in Hin as [<- | Hin]; cbn [foldl].
    + rewrite foldl_deliver_other by exact Hni.
      unfold deliver; cbn. rewrite Hh. cbn. apply lookup_insert_eq.
    + apply IH; [exact Hnd | exact Hin | rewrite deliver_handlers; exact Hh].
Qed.

Lemma answer_frames_ids ids answers :
  length answers = length ids ->
  (fun f : Frame => f.1.1) <$> answer_frames ids answers = ids.
Proof.
  revert answers. induction ids as [| i ids IH]; intros [| a answers] Hl;
    cbn in *; try done. rewrite IH by lia. reflexivity.
Qed.

Lemma answer_frames_lookup ids answers n i a :
  ids !! n = Some i -> answers !! n = Some a ->
  (i, a.1, a.2) ∈ answer_frames ids answers.
Proof.
  intros Hi Ha. apply list_elem_of_lookup. exists n.
  unfold answer_frames. rewrite lookup_zip_with, Hi. cbn. rewrite Ha. reflexivity.
Qed.

Lemma answer_frames_elem ids answers f :
  f ∈ answer_frames ids answers -> f.1.1 ∈ ids.
Proof.
  intros Hf. apply list_elem_of_lookup in Hf as [n Hn].
  unfold answer_frames in Hn. apply lookup_zip_with_Some in Hn as (i & a & -> & Hi & _).
  cbn. eapply list_elem_of_lookup_2; exact Hi.
Qed.

(** The batcher on a connected client whose sends succeed and whose
    requests are all answered, in whatever order the answers arrive. *)
Lemma rpc_multiple_send_and_wait_body_ok fuel k b requests answers c rc :
  rpc_client c = Some rc ->
  length answers = length requests ->
  (forall i r, requests !! i = Some r ->
     send_raises w (length (sent c) + i) (peer rc) r = false) ->
  arrivals w (gathers c) ≡ₚ
    answer_frames (seq (next_id rc) (length requests)) answers ->
  rpc_multiple_send_and_wait_body w fuel k b requests c =
    (Ok (expected_results requests answers),
     after_batch c rc requests (arrivals w (gathers c))).
Proof.
  intros Hrc Hlen Hs Hperm.
  set (ids := seq (next_id rc) (length requests)) in *.
  set (rc1 := foldl (add_handler handle_response_cb) rc requests).
  unfold rpc_multiple_send_and_wait_body, get_coroutines_body.
  unfold bind at 1. rewrite (get_coroutines_loop_ok _ _ _ _ _ _ _ rc Hrc Hs).
  cbn [app]. fold ids. unfold run_until_complete_gather.
  rewrite awaitable_ids_coros. unfold bind at 1. unfold bind at 1.
  unfold gets at 1. unfold bind at 1. unfold modify at 1. unfold bind at 1.
  assert (gathers (after_sends handle_response_cb c rc requests) = gathers c) as ->
    by reflexivity.
  rewrite (dispatch_all_ok _ _ rc1); [| reflexivity |].
  2:{ intros f h Hf Hh. rewrite Hperm in Hf. apply answer_frames_elem in Hf.
      apply elem_of_seq in Hf as [Hlo Hhi].
      destruct (lookup_lt_is_Some_2 requests (f.1.1 - next_id rc)) as [r Hr]; [lia |].
      pose proof (foldl_add_handler_new handle_response_cb requests rc _ r Hr) as Hn.
      replace (next_id rc + (f.1.1 - next_id rc))%nat with f.1.1 in Hn by lia.
      fold rc1 in Hn. rewrite Hn in Hh. injection Hh as <-. reflexivity. }
  rewrite (wait_all_ok ids (expected_results requests answers) _
             (foldl deliver rc1 (arrivals w (gathers c)))).
  - reflexivity.
  - reflexivity.
  - apply NoDup_seq.
  - apply Forall2_same_length_lookup. split.
    + unfold ids, expected_results.
      rewrite length_seq, length_zip_with, Hlen, Nat.min_id. reflexivity.
    + intros n i v Hi Hv. unfold expected_results in Hv.
      apply lookup_zip_with_Some in Hv as (r & a & -> & Hr & Ha).
      pose proof Hi as Hi'. apply lookup_seq in Hi' as [-> Hn]. cbn.
      apply (foldl_deliver_lookup _ rc1 _ a.1 a.2 (mkHandler handle_response_cb r.1 r.2)).
      * rewrite Hperm, answer_frames_ids; [apply NoDup_seq |].
        unfold ids. rewrite length_seq. exact Hlen.
      * rewrite Hperm. eapply answer_frames_lookup; [exact Hi | exact Ha].
      * apply foldl_add_handler_new, Hr.
Qed.

(** The same for the method itself, [rpc_multiple_send_and_wait]. *)
Lemma rpc_multiple_send_and_wait_ok fuel requests answers c rc :
  recursion_limit w <> 0%nat ->
  rpc_client c = Some rc ->
  length answers = length requests ->
  (forall i r, requests !! i = Some r ->
     send_raises w (length (sent c) + i) (peer rc) r = false) ->
  arrivals w (gathers c) ≡ₚ
    answer_frames (seq (next_id rc) (length requests)) answers ->
  rpc_multiple_send_and_wait w fuel requests c =
    (Ok (expected_results requests answers),
     after_batch c rc requests (arrivals w (gathers c))).
Proof.
  intros Hd. unfold rpc_multiple_send_and_wait.
  destruct (recursion_limit w) as [| d]; [done |]. cbn [cycle cy_rpc_multiple_send_and_wait].
  apply rpc_multiple_send_and_wait_body_ok.
Qed.

End Batch.

(** ** Order of the results *)

(** C5: on a connected client whose sends succeed, when every request of a
    batch of N is answered ([answers] gives the data and error of each, and
    the frames carrying them arrive in any order, a permutation),
    [rpc_multiple_send_and_wait] returns N results, and the i-th result is
    the answer to the i-th request, carrying that request's method and
    params. *)
Theorem rpc_multiple_send_and_wait_keeps_order (w : World) (fuel : nat)
    (requests : list Request) (answers : list (pyval * pyval))
    (c : Client) (rc : RPCClient) :
  recursion_limit w <> 0%nat ->
  rpc_client c = Some rc ->
  length answers = length requests ->
  (forall i r, requests !! i = Some r ->
     send_raises w (length (sent c) + i) (peer rc) r = false) ->
  arrivals w (gathers c) ≡ₚ
    answer_frames (seq (next_id rc) (length requests)) answers ->
  exists values c',
    rpc_multiple_send_and_wait w fuel requests c = (Ok values, c') /\
    length values = length requests /\
    forall i r a, requests !! i = Some r -> answers !! i = Some a ->
      values !! i = Some (mkResult a.1 a.2 r.1 r.2).
Proof.
  intros Hd Hrc Hlen Hs Hperm.
  exists (expected_results requests answers), (after_batch c rc requests (arrivals w (gathers c))).
  split; [apply rpc_multiple_send_and_wait_ok; assumption |]. split.
  - unfold expected_results. rewrite length_zip_with, Hlen, Nat.min_id. reflexivity.
  - intros i r a Hr Ha. unfold expected_results.
    apply lookup_zip_with_Some. exists r, a. auto.
Qed.

(** Two requests whose answers arrive in the reverse order. *)
Lemma rpc_multiple_send_and_wait_keeps_order_witness :
  exists values c',
    rpc_multiple_send_and_wait
      (scripted_world (fun _ => [(2%nat, PInt 20, PNone); (1%nat, PInt 10, PNone)])
         (fun _ => 0%Z))
      0 [("blockchain.block.get_header", PList [PInt 1]);
         ("blockchain.block.get_header", PList [PInt 2])]
      (connected_client "a" [("a", tls_server "50002")]) = (Ok values, c') /\
    length values = 2%nat /\
    forall i r a,
      [("blockchain.block.get_header", PList [PInt 1]);
       ("blockchain.block.get_header", PList [PInt 2])] !! i = Some r ->
      [(PInt 10, PNone); (PInt 20, PNone)] !! i = Some a ->
      values !! i = Some (mkResult a.1 a.2 r.1 r.2).
Proof.
  apply (rpc_multiple_send_and_wait_keeps_order
           (scripted_world (fun _ => [(2%nat, PInt 20, PNone); (1%nat, PInt 10, PNone)])
              (fun _ => 0%Z))
           0 [("blockchain.block.get_header", PList [PInt 1]);
              ("blockchain.block.get_header", PList [PInt 2])]
           [(PInt 10, PNone); (PInt 20, PNone)]
           (connected_client "a" [("a", tls_server "50002")])
           (mkRPCClient ∅ ∅ 1 "a" (Some (Some 1%nat)) false)).
  - cbn. lia.
  - reflexivity.
  - reflexivity.
  - intros i r _. reflexivity.
  - cbn. apply perm_swap.
Defined.

(** ** [run_command] *)

(** C8: on a connected client whose send succeeds and whose request is
    answered by the frame [(id_, d, e)], [run_command] returns [d] when [e]
    is not populated (not true as Python tests it) and raises
    [RPCResponseExecption(e)] when it is, and only then.  In both cases the
    client made no connection attempt, kept its host and port, and sent the
    request once: a populated error does not start a failover. *)
Theorem run_command_data_or_rpc_error (w : World) (fuel : nat) (request : Request)
    (d e : pyval) (c : Client) (rc : RPCClient) :
  recursion_limit w <> 0%nat ->
  rpc_client c = Some rc ->
  send_raises w (length (sent c)) (peer rc) request = false ->
  arrivals w (gathers c) = [(next_id rc, d, e)] ->
  exists c',
    run_command w fuel request c =
      (if truthy e then Raise (RPCResponseExecption e) else Ok d, c') /\
    connects c' = connects c /\ host c' = host c /\ port c' = port c /\
    servers c' = servers c /\
    sent c' = (sent c ++ [(peer rc, request)])%list.
Proof.
  intros Hd Hrc Hs Ha.
  exists (after_batch c rc [request] (arrivals w (gathers c))).
  split; [| repeat split].
  unfold run_command, run_command_with. unfold bind at 1.
  rewrite (rpc_multiple_send_and_wait_ok w fuel [request] [(d, e)] c rc Hd Hrc).
  - cbn. destruct (truthy e); reflexivity.
  - reflexivity.
  - intros [| i] r Hi; [| done]. injection Hi as <-. rewrite Nat.add_0_r. exact Hs.
  - rewrite Ha. reflexivity.
Qed.

(** A fee request answered with an error object. *)
Lemma run_command_data_or_rpc_error_witness :
  exists c',
    run_command
      (scripted_world
         (fun _ => [(1%nat, PNone, PDict [("code", PInt 1); ("message", PStr "busy")])])
         (fun _ => 0%Z))
      0 ("blockchain.estimatefee", PList [PInt 6])
      (connected_client "a" [("a", tls_server "50002")]) =
      (if truthy (PDict [("code", PInt 1); ("message", PStr "busy")])
       then Raise (RPCResponseExecption (PDict [("code", PInt 1); ("message", PStr "busy")]))
       else Ok PNone, c') /\
    connects c' = connects (connected_client "a" [("a", tls_server "50002")]) /\
    host c' = host (connected_client "a" [("a", tls_server "50002")]) /\
    port c' = port (connected_client "a" [("a", tls_server "50002")]) /\
    servers c' = servers (connected_client "a" [("a", tls_server "50002")]) /\
    sent c' =
      (sent (connected_client "a" [("a", tls_server "50002")]) ++
       [("a", ("blockchain.estimatefee", PList [PInt 6]))])%list.
Proof.
  apply (run_command_data_or_rpc_error
           (scripted_world
              (fun _ => [(1%nat, PNone, PDict [("code", PInt 1); ("message", PStr "busy")])])
              (fun _ => 0%Z))
           0 ("blockchain.estimatefee", PList [PInt 6]) PNone
           (PDict [("code", PInt 1); ("message", PStr "busy")])
           (connected_client "a" [("a", tls_server "50002")])
           (mkRPCClient ∅ ∅ 1 "a" (Some (Some 1%nat)) false)).
  - cbn. lia.
  - reflexivity.
  - reflexivity.
  - reflexivity.
Defined.

(** [connected_client] is the client [__init__] builds when the server drawn
    first accepts the connection and answers the handshake. *)
Lemma init_connected_client :
  __init__ (scripted_world (fun n => [handshake_frame 0]) (fun _ => 0%Z)) 0
    (default_args [("a", tls_server "50002")] 5) =
  (Ok tt, connected_client "a" [("a", tls_server "50002")]) /\
  __init__ (scripted_world (fun n => [handshake_frame 0]) (fun _ => 0%Z)) 0
    (default_args [("a", tls_server "50002"); ("b", tls_server "50002")] 5) =
  (Ok tt, connected_client "a" [("a", tls_server "50002"); ("b", tls_server "50002")]).
Proof. split; vm_compute; reflexivity. Qed.

(** ** Timeouts *)

(** A request that nobody answers: the wait raises [TimeoutError] inside
    [run_until_complete], outside every [try] of [get_coroutines], so the
    exception leaves [rpc_multiple_send_and_wait] as it is. *)
Lemma unanswered_request_raises_timeout w fuel request c rc :
  recursion_limit w <> 0%nat ->
  rpc_client c = Some rc ->
  send_raises w (length (sent c)) (peer rc) request = false ->
  arrivals w (gathers c) = [] ->
  result rc !! next_id rc = None ->
  rpc_multiple_send_and_wait w fuel [request] c =
    (Raise TimeoutError,
     set_gathers (S (gathers c)) (after_sends handle_response_cb c rc [request])).
Proof.
  intros Hd Hrc Hs Ha Hr. unfold rpc_multiple_send_and_wait.
  destruct (recursion_limit w) as [| d]; [done |].
  cbn [cycle cy_rpc_multiple_send_and_wait].
  unfold rpc_multiple_send_and_wait_body, get_coroutines_body.
  unfold bind at 1. rewrite (get_coroutines_loop_ok w _ _ _ _ _ _ c rc Hrc).
  2:{ intros [| i] r Hi; [| done]. injection Hi as <-. rewrite Nat.add_0_r. exact Hs. }
  cbn [app length seq map]. unfold run_until_complete_gather. cbn [awaitable_ids option_map].
  unfold bind at 1. unfold bind at 1. unfold gets at 1. unfold bind at 1.
  unfold modify at 1. unfold bind at 1.
  assert (gathers (after_sends handle_response_cb c rc [request]) = gathers c) as ->
    by reflexivity.
  rewrite Ha. cbn [dispatch_all]. unfold ret at 1. cbn [wait_all].
  unfold bind at 1. unfold wait_for_response. cbn. rewrite Hr. reflexivity.
Qed.

(** C2, on the code: a connected client with a second server in its
    registry sends one request that is never answered.  The batcher raises
    [TimeoutError] to its caller; it made no connection attempt, kept its
    host, recorded no failed host, and sent the request once. *)
Theorem timeout_surfaces_without_failover :
  let c := connected_client "a" [("a", tls_server "50002"); ("b", tls_server "50002")] in
  let r := rpc_multiple_send_and_wait (scripted_world (fun _ => []) (fun _ => 0%Z))
             10 [("blockchain.relayfee", PList [])] c in
  r.1 = Raise TimeoutError /\
  connects r.2 = connects c /\ host r.2 = "a" /\ failed_hosts r.2 = [] /\
  sent r.2 = (sent c ++ [("a", ("blockchain.relayfee", PList []))])%list.
Proof. vm_compute. repeat split. Qed.

(** The sibling path: when the send itself raises [OSError], the batcher
    does call [change_server] (which then fails on the unbound
    [transport]). *)
Lemma send_error_calls_change_server :
  (rpc_multiple_send_and_wait send_failing_world 10
     [("blockchain.relayfee", PList [])]
     (connected_client "a" [("a", tls_server "50002"); ("b", tls_server "50002")])).1 =
  Raise (AttributeError "transport").
Proof. vm_compute. reflexivity. Qed.

(** ** The fee cache *)

(** What the test of [estimate_fee_cached] does with an entry whose expiry
    has passed: the stored fee is returned and nothing is sent. *)
Lemma estimate_fee_cached_expired_is_served w fuel numblocks cache c entry :
  cache_fees c !! numblocks = Some entry ->
  (expiry entry <= now w (ticks c))%Z ->
  estimate_fee_cached w fuel numblocks cache c =
    (Ok (fee entry), set_ticks (S (ticks c)) c).
Proof.
  intros He Hx. unfold estimate_fee_cached, bind, datetime_now, gets. cbn.
  rewrite He. apply Z.leb_le in Hx. rewrite Hx. reflexivity.
Qed.

(** And with an entry that has not expired: the fee is asked for again. *)
Lemma estimate_fee_cached_fresh_is_refetched w fuel numblocks cache c entry :
  cache_fees c !! numblocks = Some entry ->
  (now w (ticks c) < expiry entry)%Z ->
  sent (estimate_fee_cached w fuel numblocks cache c).2 =
    sent (estimate_fee w fuel numblocks (set_ticks (S (ticks c)) c)).2.
Proof.
  intros He Hx. unfold estimate_fee_cached, bind, datetime_now, gets. cbn.
  rewrite He. apply Z.leb_gt in Hx. rewrite Hx.
  destruct (estimate_fee w fuel numblocks (set_ticks (S (ticks c)) c))
    as [[v | e |] c']; try reflexivity.
  unfold lift. destruct (timedelta cache) as [i | e |]; try reflexivity.
  destruct (datetime_add (now w (ticks c)) i); reflexivity.
Qed.

(** C4, on the code: [estimate_fee_cached(6, 10)] is called at 0, at 5 and at
    16 minutes.  The second call, within the 10 minutes, sends a second
    request and returns its answer; the third, after the entry has expired,
    sends nothing and returns the stored answer of the second. *)
Theorem estimate_fee_cached_test_is_inverted :
  let c0 := connected_client "a" [("a", tls_server "50002")] in
  let r1 := estimate_fee_cached fee_world 10 6 10 c0 in
  let r2 := estimate_fee_cached fee_world 10 6 10 r1.2 in
  let r3 := estimate_fee_cached fee_world 10 6 10 r2.2 in
  r1.1 = Ok (PInt 100) /\ r2.1 = Ok (PInt 200) /\ r3.1 = Ok (PInt 200) /\
  sent r1.2 = (sent c0 ++ [("a", _estimate_fee 6)])%list /\
  sent r2.2 = (sent c0 ++ [("a", _estimate_fee 6); ("a", _estimate_fee 6)])%list /\
  sent r3.2 = sent r2.2.
Proof. vm_compute. repeat split. Qed.

(** ** Exhausting the servers *)

(** C1, on the code: [max_servers=3] and three servers that all refuse the
    connection.  The first refusal already ends [__init__], with
    [AttributeError] from [change_server]; one connection was attempted and
    no host was recorded as failed. *)
Theorem three_refusals_raise_attribute_error :
  let r := __init__ rejecting_world 10 (default_args three_servers 3) in
  r.1 = Raise (AttributeError "transport") /\
  connects r.2 = [("a", PStr "50002")] /\
  failed_hosts r.2 = [].
Proof. vm_compute. repeat split. Qed.

(** What [change_server] does once it is past the read of [transport]: when
    the failed hosts, with the current one, number [max_servers] or more, it
    raises its exception without drawing a server or connecting. *)
Lemma change_server_gives_up w fuel c :
  transport c = Some None ->
  host c ∈ failed_hosts c ->
  (max_servers c <= Z.of_nat (length (failed_hosts c)))%Z ->
  change_server w fuel c =
    (Raise (Exception_ (attempted_message (length (failed_hosts c)))), c).
Proof.
  intros Ht Hh Hm. unfold change_server, change_server_body, bind, gets.
  rewrite Ht. cbn. rewrite bool_decide_eq_true_2 by exact Hh. cbn.
  apply Z.leb_le in Hm. rewrite Hm. reflexivity.
Qed.

(** With the attribute bound beforehand, the three refusals run as the
    claim says: three connection attempts, then the exception. *)
Lemma three_refusals_with_transport_bound :
  let r := connect_to_server rejecting_world 10 (set_transport (Some None) fresh_client) in
  r.1 = Raise (Exception_ (PStr "Attempted to connect to 3 servers but failed")) /\
  connects r.2 = [("a", PStr "50002"); ("b", PStr "50002"); ("c", PStr "50002")] /\
  failed_hosts r.2 = ["a"; "b"; "c"].
Proof. vm_compute. repeat split. Qed.

(** ** Subscriptions *)

Lemma rpc_subscribe_loop_handlers w requests cb ids0 c ids c' :
  rpc_subscribe_loop w requests cb ids0 c = (Ok ids, c') ->
  (forall i, i ∈ ids0 ->
     exists rc h, rpc_client c = Some rc /\ handlers rc !! i = Some h /\ h_callback h = cb) ->
  forall i, i ∈ ids ->
    exists rc h, rpc_client c' = Some rc /\ handlers rc !! i = Some h /\ h_callback h = cb.
Proof.
  revert ids0 c. induction requests as [| [m p] rest IH]; intros ids0 c Hrun H0.
  - cbn in Hrun. injection Hrun as <- <-. exact H0.
  - cbn [rpc_subscribe_loop] in Hrun. unfold bind at 1 in Hrun.
    unfold send_rpc_request, send_request in Hrun. cbn in Hrun.
    destruct (rpc_client c) as [rc |] eqn:Hrc; [| discriminate].
    destruct (send_raises w (length (sent c)) (peer rc) (m, p)); [discriminate |].
    eapply IH; [exact Hrun |]. intros i Hi. cbn.
    destruct (decide (i = next_id rc)) as [-> | Hne].
    + eexists _, _. split; [reflexivity |]. cbn. rewrite lookup_insert_eq. auto.
    + apply elem_of_app in Hi as [Hi | Hi].
      * destruct (H0 i Hi) as (rc0 & h & Hrc0 & Hh & Hcb).
        try rewrite Hrc in Hrc0. injection Hrc0 as <-.
        eexists _, h. split; [reflexivity |]. cbn.
        rewrite lookup_insert_ne by congruence. auto.
      * apply list_elem_of_singleton in Hi. contradiction.
Qed.



(** ** Server selection *)

Section Selection.
Variable w : World.

Lemma random_choice_elem {A} (seq : list A) c :
  seq <> [] ->
  exists x, random_choice w seq c = (Ok x, set_draws (S (draws c)) c) /\ x ∈ seq.
Proof.
  intros Hne. unfold random_choice.
  destruct (lookup_lt_is_Some_2 seq (random_below w (draws c) `mod` length seq)%nat)
    as [x Hx].
  - apply Nat.mod_upper_bound. destruct seq; [done | cbn; lia].
  - exists x. rewrite Hx. split; [reflexivity |]. eapply list_elem_of_lookup_2, Hx.
Qed.

Lemma random_choice_empty {A} c :
  random_choice w (@nil A) c = (Raise IndexError, c).
Proof. reflexivity. Qed.

Lemma registry_lookup_elem reg h :
  h ∈ map fst reg ->
  exists server, registry_lookup reg h = Some server /\ (h, server) ∈ reg.
Proof.
  induction reg as [| [k v] reg IH]; cbn; intros Hin; [inversion Hin |].
  destruct (String.eqb k h) eqn:E.
  - apply String.eqb_eq in E as ->. exists v. split; [reflexivity | left].
  - apply String.eqb_neq in E. apply elem_of_cons in Hin as [-> | Hin]; [done |].
    destruct (IH Hin) as (s & Hs & Hel). exists s. split; [exact Hs | right; exact Hel].
Qed.

Lemma registry_delete_elem reg h kv :
  kv ∈ registry_delete reg h <-> kv ∈ reg /\ kv.1 <> h.
Proof. unfold registry_delete. rewrite list_elem_of_filter. tauto. Qed.

Lemma registry_delete_length reg h :
  h ∈ map fst reg -> (length (registry_delete reg h) < length reg)%nat.
Proof.
  unfold registry_delete. induction reg as [| [k v] reg IH]; intros Hin;
    [inversion Hin |].
  cbn [map fst] in Hin. rewrite filter_cons. cbn [length]. case_decide as Hk.
  - cbn in Hk. apply elem_of_cons in Hin as [-> | Hin]; [done |].
    cbn [length]. specialize (IH Hin). lia.
  - pose proof (length_filter (fun kv : string * Server => kv.1 <> h) reg). lia.
Qed.

Lemma registry_delete_keys reg h k :
  k ∈ map fst (registry_delete reg h) -> k ∈ map fst reg.
Proof.
  intros Hin. apply list_elem_of_In, in_map_iff in Hin as (kv & <- & Hkv).
  apply list_elem_of_In, registry_delete_elem in Hkv as [Hkv _].
  apply list_elem_of_In, in_map, list_elem_of_In, Hkv.
Qed.

Lemma registry_delete_NoDup reg h :
  NoDup (map fst reg) -> NoDup (map fst (registry_delete reg h)).
Proof.
  induction reg as [| [k v] reg IH]; intros Hnd; [constructor |].
  cbn [map fst] in Hnd. apply NoDup_cons in Hnd as [Hni Hnd].
  unfold registry_delete. rewrite filter_cons. case_decide as Hk.
  - cbn [map fst]. apply NoDup_cons. split; [| apply IH, Hnd].
    intros Hin. apply Hni. eapply registry_delete_keys, Hin.
  - apply IH, Hnd.
Qed.

Lemma registry_NoDup_unique (reg : list (string * Server)) h s1 s2 :
  NoDup (map fst reg) -> (h, s1) ∈ reg -> (h, s2) ∈ reg -> s1 = s2.
Proof.
  induction reg as [| [k v] reg IH]; cbn; intros Hnd H1 H2; [inversion H1 |].
  apply NoDup_cons in Hnd as [Hni Hnd].
  assert (forall s, (h, s) ∈ reg -> h ∈ map fst reg) as Hk.
  { intros s Hs. change h with (fst (h, s)). apply list_elem_of_In, in_map.
    apply list_elem_of_In, Hs. }
  apply elem_of_cons in H1 as [[= -> ->] | H1]; apply elem_of_cons in H2 as [[= ->] | H2];
    try congruence.
  - exfalso. apply Hni. eauto.
  - subst. exfalso. apply Hni. eauto.
  - auto.
Qed.

(** One round of [choose_random_server] on a registry that is not empty:
    some host of the registry is drawn; when its descriptor has the port the
    call returns it, otherwise the host is deleted and the method calls
    itself. *)
Lemma choose_random_server_rec_step depth c :
  servers c <> [] ->
  exists h server,
    (h, server) ∈ servers c /\
    choose_random_server_rec w (S depth) c =
      match server !! port_key (use_ssl c) with
      | Some p => (Ok (h, p), set_draws (S (draws c)) c)
      | None =>
          choose_random_server_rec w depth
            (set_servers (registry_delete (servers c) h) (set_draws (S (draws c)) c))
      end.
Proof.
  intros Hne.
  destruct (random_choice_elem (map fst (servers c)) c) as (h & Hh & Hin).
  { destruct (servers c); [done | discriminate]. }
  destruct (registry_lookup_elem _ _ Hin) as (server & Hl & Hel).
  exists h, server. split; [exact Hel |].
  cbn [choose_random_server_rec]. unfold bind at 1. unfold gets at 1.
  unfold bind at 1. rewrite Hh. unfold try_except, bind, gets. cbn.
  rewrite Hl. unfold lift, server_getitem, port_key.
  destruct (use_ssl c); destruct (server !! _); reflexivity.
Qed.

(** With no descriptor that has the port, the registry is emptied and
    [random.choice] raises [IndexError]. *)
Lemma choose_random_server_rec_none depth c :
  (length (servers c) < depth)%nat ->
  (forall kv, kv ∈ servers c -> kv.2 !! port_key (use_ssl c) = None) ->
  exists c',
    choose_random_server_rec w depth c = (Raise IndexError, c') /\
    servers c' = [] /\ failed_hosts c' = failed_hosts c /\
    host c' = host c /\ connects c' = connects c.
Proof.
  revert c. induction depth as [| depth IH]; intros c Hlen Hno; [lia |].
  destruct (decide (servers c = [])) as [Hreg | Hreg].
  - exists c. cbn [choose_random_server_rec]. unfold bind, gets. rewrite Hreg.
    cbn. auto.
  - destruct (choose_random_server_rec_step depth c Hreg) as (h & server & Hel & ->).
    pose proof (Hno _ Hel) as Hn. cbn in Hn. rewrite Hn.
    destruct (IH (set_servers (registry_delete (servers c) h)
                    (set_draws (S (draws c)) c))) as (c' & Hrun & Hc').
    + cbn. pose proof (registry_delete_length (servers c) h) as Hd.
      assert (h ∈ map fst (servers c)) as Hin.
      { change h with (fst (h, server)). apply list_elem_of_In, in_map.
        apply list_elem_of_In, Hel. }
      specialize (Hd Hin). lia.
    + cbn. intros kv Hkv. apply registry_delete_elem in Hkv as [Hkv _]. auto.
    + exists c'. split; [exact Hrun | exact Hc'].
Qed.

(** With a descriptor that has the port, a server is returned. *)
Lemma choose_random_server_rec_some depth c :
  (length (servers c) < depth)%nat ->
  NoDup (map fst (servers c)) ->
  (exists kv, kv ∈ servers c /\ is_Some (kv.2 !! port_key (use_ssl c))) ->
  exists h p server c',
    choose_random_server_rec w depth c = (Ok (h, p), c') /\
    (h, server) ∈ servers c' /\
    server !! port_key (use_ssl c) = Some p /\
    (forall kv, kv ∈ servers c' -> kv ∈ servers c) /\
    (forall kv, kv ∈ servers c -> kv ∉ servers c' ->
       kv.2 !! port_key (use_ssl c) = None) /\
    failed_hosts c' = failed_hosts c /\ host c' = host c /\ port c' = port c.
Proof.
  revert c. induction depth as [| depth IH]; intros c Hlen Hnd Hex; [lia |].
  destruct (choose_random_server_rec_step depth c) as (h & server & Hel & ->).
  { destruct Hex as (kv & Hkv & _). intros E. rewrite E in Hkv. inversion Hkv. }
  destruct (server !! port_key (use_ssl c)) as [p |] eqn:Hp.
  - exists h, p, server, (set_draws (S (draws c)) c). cbn.
    repeat split; auto. intros kv Hin Hni. contradiction.
  - assert (h ∈ map fst (servers c)) as Hin.
    { change h with (fst (h, server)). apply list_elem_of_In, in_map.
      apply list_elem_of_In, Hel. }
    destruct (IH (set_servers (registry_delete (servers c) h)
                    (set_draws (S (draws c)) c)))
      as (h' & p' & server' & c' & Hrun & Hel' & Hp' & Hsub & Hrem & Hf & Hh & Hpt).
    + cbn. pose proof (registry_delete_length (servers c) h Hin). lia.
    + cbn. apply registry_delete_NoDup, Hnd.
    + cbn. destruct Hex as ([k s] & Hkv & Hs). exists (k, s). split; [| exact Hs].
      apply registry_delete_elem. split; [exact Hkv |]. cbn. intros ->.
      rewrite (registry_NoDup_unique _ _ _ _ Hnd Hkv Hel) in Hs. cbn in Hs.
      rewrite Hp in Hs. destruct Hs; discriminate.
    + cbn in *. exists h', p', server', c'. repeat split; auto.
      * intros kv Hkv. apply Hsub in Hkv. apply registry_delete_elem in Hkv as [Hkv _].
        exact Hkv.
      * intros [k s] Hkv Hni. destruct (decide (k = h)) as [-> | Hne].
        -- rewrite (registry_NoDup_unique _ _ _ _ Hnd Hkv Hel). exact Hp.
        -- apply Hrem; [| exact Hni]. apply registry_delete_elem. auto.
Qed.

(** When the loop of [change_server] ends, the host it has settled on is not
    a failed one. *)
Lemma while_host_failed_exit fuel c c' :
  while_host_failed w fuel c = (Ok tt, c') -> host c' ∉ failed_hosts c'.
Proof.
  revert c. induction fuel as [| fuel IH]; intros c Hrun; [discriminate |].
  cbn [while_host_failed] in Hrun. unfold bind at 1 2 in Hrun. unfold gets in Hrun.
  destruct (bool_decide (host c ∈ failed_hosts c)) eqn:E.
  - unfold bind at 1 in Hrun.
    destruct (choose_random_server w c) as [[hp | e |] c1]; try discriminate.
    unfold bind at 1 in Hrun. cbn in Hrun. eapply IH, Hrun.
  - injection Hrun as <-. apply bool_decide_eq_false in E. exact E.
Qed.

End Selection.

(** The registry [__init__] builds holds only usable entries, and a usable
    entry advertises the port of the TLS policy. *)
Lemma usable_servers_spec ssl catalog kv :
  kv ∈ usable_servers ssl catalog ->
  kv ∈ catalog /\ truthy (server_is_usable ssl kv.2) = true /\
  is_Some (kv.2 !! port_key ssl).
Proof.
  unfold usable_servers. rewrite list_elem_of_filter. intros [Hu Hin].
  repeat split; auto. unfold server_is_usable, port_key in *.
  destruct ssl; cbn in *.
  - destruct (bool_decide (is_Some (kv.2 !! "s"))) eqn:E; [| discriminate].
    apply bool_decide_eq_true in E. exact E.
  - destruct (bool_decide (is_Some (kv.2 !! "t"))) eqn:E; [| discriminate].
    apply bool_decide_eq_true in E. exact E.
Qed.

(** The loop of [change_server] never ends when every host of the registry
    has failed: each draw returns a failed host again. *)
Lemma while_host_failed_spins w fuel c :
  recursion_limit w <> 0%nat ->
  servers c <> [] ->
  (forall kv, kv ∈ servers c ->
     kv.1 ∈ failed_hosts c /\ is_Some (kv.2 !! port_key (use_ssl c))) ->
  host c ∈ failed_hosts c ->
  (while_host_failed w fuel c).1 = Diverge.
Proof.
  intros Hd. revert c. induction fuel as [| fuel IH]; intros c Hne Hall Hh;
    [reflexivity |].
  cbn [while_host_failed]. unfold bind at 1 2. unfold gets.
  rewrite bool_decide_eq_true_2 by exact Hh. unfold bind at 1.
  unfold choose_random_server. destruct (recursion_limit w) as [| d]; [done |].
  destruct (choose_random_server_rec_step w d c Hne) as (h & server & Hel & ->).
  destruct (Hall _ Hel) as [Hf [p Hp]]. cbn in Hf, Hp. rewrite Hp.
  unfold bind at 1. cbn. apply IH; cbn; auto.
Qed.

(** C7, as the claim has it, fails: on an empty registry the selection
    raises [IndexError], and [IndexError] is not dedicated to that
    condition, since [__init__] also ends in it with a server in the
    registry, when the handshake answer has one element. *)
Lemma empty_registry_error_is_not_dedicated :
  ~ (exists e,
       (choose_random_server rejecting_world client_without_servers).1 = Raise e /\
       dedicated_to_empty_registry e).
Proof.
  intros (e & He & Hd). vm_compute in He. injection He as <-.
  specialize (Hd short_handshake_world 0%nat
                (default_args [("a", tls_server "50002")] 5)
                (__init__ short_handshake_world 0
                   (default_args [("a", tls_server "50002")] 5)).2).
  assert (servers (__init__ short_handshake_world 0
                     (default_args [("a", tls_server "50002")] 5)).2 = []) as E.
  { apply Hd. vm_compute. reflexivity. }
  vm_compute in E. discriminate.
Qed.

(** C7, amended: when no descriptor of the registry advertises the port of
    the TLS policy, and in particular when the registry is empty,
    [choose_random_server] deletes the descriptors it draws and ends with the
    [IndexError] of [random.choice] on the empty registry.  The failure is
    raised to the caller after at most one draw per entry; the host and the
    failed hosts are as before and no connection was attempted. *)
Theorem choose_random_server_without_candidates (w : World) (c : Client) :
  (length (servers c) < recursion_limit w)%nat ->
  (forall kv, kv ∈ servers c -> kv.2 !! port_key (use_ssl c) = None) ->
  exists c',
    choose_random_server w c = (Raise IndexError, c') /\
    servers c' = [] /\ failed_hosts c' = failed_hosts c /\
    host c' = host c /\ connects c' = connects c.
Proof. intros Hlen Hno. apply choose_random_server_rec_none; assumption. Qed.

(** The empty registry. *)
Lemma choose_random_server_without_candidates_witness :
  exists c',
    choose_random_server rejecting_world client_without_servers =
      (Raise IndexError, c') /\
    servers c' = [] /\ failed_hosts c' = failed_hosts client_without_servers /\
    host c' = host client_without_servers /\
    connects c' = connects client_without_servers.
Proof.
  apply (choose_random_server_without_candidates rejecting_world client_without_servers).
  - cbn. lia.
  - intros kv Hkv. inversion Hkv.
Defined.

(** * Further properties *)

(** ** Reading the outcome of a composed computation *)

Lemma bind_ok {A B} (m : M A) (f : A -> M B) c b c' :
  bind m f c = (Ok b, c') ->
  exists a c1, m c = (Ok a, c1) /\ f a c1 = (Ok b, c').
Proof.
  unfold bind. destruct (m c) as [[a | e |] c1]; try discriminate. eauto.
Qed.

Lemma try_except_ok {A} (m : M A) (h : exn -> option (M A)) c a c' :
  try_except m h c = (Ok a, c') ->
  m c = (Ok a, c') \/
  exists e c1 k, m c = (Raise e, c1) /\ h e = Some k /\ k c1 = (Ok a, c').
Proof.
  unfold try_except. destruct (m c) as [[a0 | e |] c1]; try discriminate.
  - intros [= <- <-]. left. reflexivity.
  - destruct (h e) as [k |] eqn:E; [| discriminate]. intros Hk. right. eauto 10.
Qed.

Lemma bind_raise {A B} (m : M A) (f : A -> M B) c e c1 :
  m c = (Raise e, c1) -> bind m f c = (Raise e, c1).
Proof. intros H. unfold bind. rewrite H. reflexivity. Qed.

Lemma bind_step {A B} (m : M A) (f : A -> M B) c a c1 :
  m c = (Ok a, c1) -> bind m f c = f a c1.
Proof. intros H. unfold bind. rewrite H. reflexivity. Qed.

Lemma bind_gets_eq {A B} (f : Client -> A) (k : A -> M B) c :
  bind (gets f) k c = k (f c) c.
Proof. reflexivity. Qed.

Lemma bind_diverge {A B} (m : M A) (f : A -> M B) c c1 :
  m c = (Diverge, c1) -> bind m f c = (Diverge, c1).
Proof. intros H. unfold bind. rewrite H. reflexivity. Qed.

(** ** Computations that respect a relation *)

Section Respects.
Variable R : Client -> Client -> Prop.
Hypothesis R_refl : forall c, R c c.
Hypothesis R_trans : forall c1 c2 c3, R c1 c2 -> R c2 c3 -> R c1 c3.

Lemma respects_ret {A} (a : A) : respects R (ret a).
Proof. intros c. apply R_refl. Qed.

Lemma respects_raise {A} (e : exn) : respects R (@raise A e).
Proof. intros c. apply R_refl. Qed.

Lemma respects_diverge {A} : respects R (@diverge A).
Proof. intros c. apply R_refl. Qed.

Lemma respects_gets {A} (f : Client -> A) : respects R (gets f).
Proof. intros c. apply R_refl. Qed.

Lemma respects_lift {A} (r : Res A) : respects R (lift r).
Proof. intros c. apply R_refl. Qed.

Lemma respects_modify (f : Client -> Client) :
  (forall c, R c (f c)) -> respects R (modify f).
Proof. intros Hf c. apply Hf. Qed.

Lemma respects_bind {A B} (m : M A) (f : A -> M B) :
  respects R m -> (forall a, respects R (f a)) -> respects R (bind m f).
Proof.
  intros Hm Hf c. unfold bind. specialize (Hm c).
  destruct (m c) as [[a | e |] c1]; cbn in *; auto.
  eapply R_trans; [exact Hm | apply Hf].
Qed.

Lemma respects_try_except {A} (m : M A) (h : exn -> option (M A)) :
  respects R m -> (forall e k, h e = Some k -> respects R k) ->
  respects R (try_except m h).
Proof.
  intros Hm Hh c. unfold try_except. specialize (Hm c).
  destruct (m c) as [[a | e |] c1]; cbn in *; auto.
  destruct (h e) as [k |] eqn:E; cbn; auto.
  eapply R_trans; [exact Hm | eapply Hh; eauto].
Qed.

Lemma respects_if {A} (b : bool) (m1 m2 : M A) :
  respects R m1 -> respects R m2 -> respects R (if b then m1 else m2).
Proof. destruct b; auto. Qed.

(** What is done after a first step, in a [try] or not, respects [R] from
    the client that first step left. *)
Lemma respects_after_first {A B} (first : M A) (rest : A -> M B)
    (h : exn -> option (M B)) c :
  (forall a, respects R (rest a)) ->
  (forall e k, h e = Some k -> respects R k) ->
  R (first c).2 (try_except (bind first rest) h c).2.
Proof.
  intros Hr Hh. unfold try_except, bind.
  destruct (first c) as [[a | e |] c1]; cbn.
  - specialize (Hr a c1). destruct (rest a c1) as [[b | e |] c2]; cbn in *; auto.
    destruct (h e) as [k |] eqn:E; cbn; auto.
    eapply R_trans; [exact Hr | eapply Hh; eauto].
  - destruct (h e) as [k |] eqn:E; cbn; [eapply Hh; eauto | apply R_refl].
  - apply R_refl.
Qed.

Variable w : World.

(** The assignments every method of the session and of the batcher is made
    of. *)
Hypothesis R_draws : forall c v, R c (set_draws v c).
Hypothesis R_rpc_client : forall c v, R c (set_rpc_client v c).
Hypothesis R_sent : forall c v, R c (set_sent v c).
Hypothesis R_calls : forall c v, R c (set_calls v c).
Hypothesis R_gathers : forall c v, R c (set_gathers v c).
Hypothesis R_ticks : forall c v, R c (set_ticks v c).
Hypothesis R_delete :
  forall c h, R c (set_servers (registry_delete (servers c) h) c).

Lemma respects_random_choice {A} (seq : list A) : respects R (random_choice w seq).
Proof.
  intros c. unfold random_choice.
  destruct (seq !! _); cbn; [apply R_draws | apply R_refl].
Qed.

Lemma respects_choose_random_server_rec depth :
  respects R (choose_random_server_rec w depth).
Proof.
  induction depth as [| depth IH]; cbn [choose_random_server_rec].
  - apply respects_raise.
  - apply respects_bind; [apply respects_gets | intros reg].
    apply respects_bind; [apply respects_random_choice | intros h].
    apply respects_try_except.
    + apply respects_bind; [apply respects_gets | intros ssl].
      destruct (registry_lookup reg h); [| apply respects_raise].
      apply respects_bind; [apply respects_lift | intros p; apply respects_ret].
    + intros e k; destruct e; try discriminate. intros [= <-].
      apply respects_bind; [| intros _; exact IH].
      apply respects_modify. intros c. apply R_delete.
Qed.

Lemma respects_choose_random_server : respects R (choose_random_server w).
Proof. apply respects_choose_random_server_rec. Qed.

Lemma respects_send_request h : respects R (send_request w h).
Proof.
  intros c. unfold send_request. destruct (rpc_client c) as [rc |]; [| apply R_refl].
  destruct (send_raises w _ _ _); cbn; [apply R_refl |].
  eapply R_trans; [apply R_rpc_client | apply R_sent].
Qed.

Lemma respects_send_rpc_request m p cb : respects R (send_rpc_request w m p cb).
Proof. apply respects_send_request. Qed.

Lemma respects_handle_response m p i d e : respects R (handle_response m p i d e).
Proof.
  intros c. unfold handle_response.
  destruct (rpc_client c); cbn; [apply R_rpc_client | apply R_refl].
Qed.

Lemma respects_call_callback cb args : respects R (call_callback cb args).
Proof. apply respects_modify. intros c. apply R_calls. Qed.

Lemma respects_run_handler h i d e : respects R (run_handler h i d e).
Proof.
  unfold run_handler, handle_scripthash_notify, handle_block_headers_notify.
  destruct (h_callback h); [apply respects_handle_response | |];
    (apply respects_if; [apply respects_raise |]).
  - apply respects_bind; [apply respects_lift | intros x].
    apply respects_bind; [apply respects_lift | intros y].
    apply respects_bind; [apply respects_lift | intros z].
    apply respects_call_callback.
  - apply respects_call_callback.
Qed.

Lemma respects_dispatch f : respects R (dispatch f).
Proof.
  destruct f as [[i d] e]. unfold dispatch.
  apply respects_bind; [apply respects_gets | intros [rc |]]; [| apply respects_ret].
  destruct (handlers rc !! i); [apply respects_run_handler | apply respects_ret].
Qed.

Lemma respects_dispatch_all fs : respects R (dispatch_all fs).
Proof.
  induction fs as [| f fs IH]; cbn [dispatch_all]; [apply respects_ret |].
  apply respects_bind; [apply respects_dispatch | intros _; exact IH].
Qed.

Lemma respects_wait_for_response i : respects R (wait_for_response i).
Proof.
  intros c. unfold wait_for_response. destruct (rpc_client c) as [rc |]; [| apply R_refl].
  destruct (result rc !! i); cbn; [apply R_rpc_client | apply R_refl].
Qed.

Lemma respects_wait_all ids : respects R (wait_all ids).
Proof.
  induction ids as [| i ids IH]; cbn [wait_all]; [apply respects_ret |].
  apply respects_bind; [apply respects_wait_for_response | intros r].
  apply respects_bind; [exact IH | intros rs; apply respects_ret].
Qed.

Lemma respects_run_until_complete_gather cs :
  respects R (run_until_complete_gather w cs).
Proof.
  unfold run_until_complete_gather.
  destruct (awaitable_ids cs); [| apply respects_raise].
  apply respects_bind; [apply respects_gets | intros n].
  apply respects_bind; [apply respects_modify; intros c; apply R_gathers | intros _].
  apply respects_bind; [apply respects_dispatch_all | intros _].
  apply respects_wait_all.
Qed.

Lemma respects_connection_made t : respects R (connection_made t).
Proof.
  intros c. unfold connection_made.
  destruct (rpc_client c); cbn; [apply R_rpc_client | apply R_refl].
Qed.

Lemma respects_close_connection : respects R close_connection.
Proof.
  intros c. unfold close_connection.
  destruct (rpc_client c); cbn; [apply R_rpc_client | apply R_refl].
Qed.

Lemma respects_rpc_subscribe_loop requests cb ids :
  respects R (rpc_subscribe_loop w requests cb ids).
Proof.
  revert ids. induction requests as [| [m p] rest IH]; intros ids;
    cbn [rpc_subscribe_loop]; [apply respects_ret |].
  apply respects_bind; [apply respects_send_rpc_request | intros i; apply IH].
Qed.

Lemma respects_datetime_now : respects R (datetime_now w).
Proof. intros c. apply R_ticks. Qed.

(** The batcher, given what [change_server] and the resubmission do. *)
Section Batcher.
Variable fuel : nat.
Variable k : M unit.
Variable b : list Request -> M (list ResultDict).
Hypothesis change_server_respects : respects R (change_server_body w fuel k).
Hypothesis b_respects : forall requests, respects R (b requests).
Hypothesis R_failed_reset : forall c, R c (set_failed_hosts [] c).

Lemma respects_get_coroutines_loop requests rest acc :
  respects R (get_coroutines_loop w fuel k b requests rest acc).
Proof.
  revert acc. induction rest as [| [m p] rest IH]; intros acc;
    cbn [get_coroutines_loop]; [apply respects_ret |].
  assert (respects R
            (bind (change_server_body w fuel k)
               (fun _ => bind (b requests)
                  (fun vs => ret (inr vs : Awaitable + list ResultDict))))) as Hh.
  { apply respects_bind; [exact change_server_respects | intros _].
    apply respects_bind; [apply b_respects | intros vs; apply respects_ret]. }
  apply respects_bind.
  - apply respects_try_except.
    + apply respects_bind; [apply respects_send_rpc_request | intros i].
      apply respects_try_except; [apply respects_ret |].
      intros e k0; destruct e; try discriminate. intros [= <-]. exact Hh.
    + intros e k0. destruct (is_OSError w e); [| discriminate]. intros [= <-].
      exact Hh.
  - intros [coro | vs]; [apply IH | apply respects_ret].
Qed.

Lemma respects_rpc_multiple_send_and_wait_body requests :
  respects R (rpc_multiple_send_and_wait_body w fuel k b requests).
Proof.
  unfold rpc_multiple_send_and_wait_body, get_coroutines_body.
  apply respects_bind; [apply respects_get_coroutines_loop | intros cs].
  apply respects_bind; [apply respects_run_until_complete_gather | intros vs].
  apply respects_bind; [| intros _; apply respects_ret].
  apply respects_modify. exact R_failed_reset.
Qed.

End Batcher.

Lemma respects_run_command_with batch request :
  (forall requests, respects R (batch requests)) ->
  respects R (run_command_with batch request).
Proof.
  intros Hb. unfold run_command_with.
  apply respects_bind; [apply Hb | intros [| r vs]]; [apply respects_raise |].
  apply respects_if; [apply respects_raise | apply respects_ret].
Qed.

Lemma respects_bind_gets {A B} (g : Client -> A) (f : A -> M B) :
  (forall c, R c (f (g c) c).2) -> respects R (bind (gets g) f).
Proof. intros H c. unfold bind, gets. apply H. Qed.

(** [change_server] and [connect_to_server], for a relation that every
    assignment of the failover respects. *)
Section Failover.
Hypothesis R_transport : forall c v, R c (set_transport v c).
Hypothesis R_failed_append :
  forall c, host c ∉ failed_hosts c ->
    R c (set_failed_hosts (failed_hosts c ++ [host c]) c).
Hypothesis R_failed_reset : forall c, R c (set_failed_hosts [] c).
Hypothesis R_host_port : forall c h p, R c (set_host_port h p c).
Hypothesis R_version0 : forall c v, R c (set_server_electrumx_version v c).
Hypothesis R_version1 : forall c v, R c (set_server_protocol_version v c).
Hypothesis connect_respects : respects R (connect w).

Lemma respects_while_host_failed fuel : respects R (while_host_failed w fuel).
Proof.
  induction fuel as [| fuel IH]; cbn [while_host_failed]; [apply respects_diverge |].
  apply respects_bind; [apply respects_gets | intros h].
  apply respects_bind; [apply respects_gets | intros f].
  apply respects_if; [| apply respects_ret].
  apply respects_bind; [apply respects_choose_random_server | intros hp].
  apply respects_bind; [| intros _; exact IH].
  apply respects_modify. intros c. apply R_host_port.
Qed.

Lemma respects_change_server_body fuel k :
  respects R k -> respects R (change_server_body w fuel k).
Proof.
  intros Hk. unfold change_server_body. apply respects_bind_gets. intros c.
  destruct (transport c) as [t |]; [| apply R_refl].
  revert c. change (respects R
    (bind (if bool_decide (is_Some t)
           then bind close_connection (fun _ => modify (set_transport (Some None)))
           else ret tt)
       (fun _ =>
          bind (gets host) (fun h => bind (gets failed_hosts) (fun f =>
            bind (if bool_decide (h ∈ f) then ret tt
                  else modify (set_failed_hosts (f ++ [h])))
              (fun _ => bind (gets failed_hosts) (fun f0 =>
                 bind (gets max_servers) (fun m =>
                   if (m <=? Z.of_nat (length f0))%Z
                   then raise (Exception_ (attempted_message (length f0)))
                   else bind (while_host_failed w fuel) (fun _ => k))))))))).
  apply respects_bind.
  - apply respects_if; [| apply respects_ret].
    apply respects_bind; [apply respects_close_connection | intros _].
    apply respects_modify. intros c. apply R_transport.
  - intros _. apply respects_bind_gets. intros c. unfold bind at 1, gets at 1.
    cbn [fst snd]. unfold bind at 1.
    assert (respects R
              (bind (gets failed_hosts) (fun f0 =>
                 bind (gets max_servers) (fun m =>
                   if (m <=? Z.of_nat (length f0))%Z
                   then raise (Exception_ (attempted_message (length f0)))
                   else bind (while_host_failed w fuel) (fun _ => k))))) as Hrest.
    { apply respects_bind; [apply respects_gets | intros f0].
      apply respects_bind; [apply respects_gets | intros m].
      apply respects_if; [apply respects_raise |].
      apply respects_bind; [apply respects_while_host_failed | intros _; exact Hk]. }
    destruct (bool_decide (host c ∈ failed_hosts c)) eqn:E; cbn.
    + apply Hrest.
    + apply bool_decide_eq_false in E.
      eapply R_trans; [apply R_failed_append, E | apply Hrest].
Qed.

(** What [connect_to_server] does once the connection was attempted. *)
Lemma respects_connect_to_server_body_after fuel k b c :
  respects R (change_server_body w fuel k) ->
  (forall requests, respects R (b requests)) ->
  R (connect w c).2 (connect_to_server_body w fuel k b c).2.
Proof.
  intros Hcs Hb. unfold connect_to_server_body, _server_version.
  apply respects_after_first.
  - intros t.
    apply respects_bind; [apply respects_gets | intros rc].
    apply respects_bind; [apply respects_if; [exact Hcs | apply respects_ret] | intros _].
    apply respects_bind; [apply respects_connection_made | intros _].
    apply respects_try_except.
    + apply respects_bind.
      { apply respects_bind; [apply respects_gets | intros n].
        apply respects_bind; [apply respects_gets | intros v; apply respects_ret]. }
      intros request. apply respects_bind.
      { apply respects_run_command_with. intros requests.
        apply respects_rpc_multiple_send_and_wait_body; assumption. }
      intros v. apply respects_bind; [apply respects_lift | intros v0].
      apply respects_bind; [apply respects_modify; intros c0; apply R_version0 | intros _].
      apply respects_bind; [apply respects_lift | intros v1].
      apply respects_modify. intros c0. apply R_version1.
    + intros e k0; destruct e; try discriminate. intros [= <-]. exact Hcs.
  - intros e k0. destruct (is_OSError w e); [| discriminate]. intros [= <-].
    exact Hcs.
Qed.

Lemma respects_connect_to_server_body fuel k b :
  respects R k -> (forall requests, respects R (b requests)) ->
  respects R (connect_to_server_body w fuel k b).
Proof.
  intros Hk Hb c. eapply R_trans; [apply connect_respects |].
  apply respects_connect_to_server_body_after; [| exact Hb].
  apply respects_change_server_body, Hk.
Qed.

Lemma respects_cycle fuel depth :
  respects R (cy_connect_to_server (cycle w fuel depth)) /\
  forall requests,
    respects R (cy_rpc_multiple_send_and_wait (cycle w fuel depth) requests).
Proof.
  induction depth as [| depth [IHc IHb]];
    cbn [cycle cy_connect_to_server cy_rpc_multiple_send_and_wait].
  - split; [| intros]; apply respects_raise.
  - split; [| intros requests].
    + apply respects_connect_to_server_body; assumption.
    + apply respects_rpc_multiple_send_and_wait_body;
        [apply respects_change_server_body | |]; assumption.
Qed.

End Failover.

(** The methods built on the batcher, given that the batcher respects
    [R]. *)
Section Api.
Hypothesis batch_respects :
  forall fuel requests, respects R (rpc_multiple_send_and_wait w fuel requests).

Lemma respects_run_command fuel request : respects R (run_command w fuel request).
Proof. apply respects_run_command_with, batch_respects. Qed.

Lemma respects_broadcast_transaction_rec depth fuel raw_tx :
  respects R (broadcast_transaction_rec w depth fuel raw_tx).
Proof.
  induction depth as [| depth IH]; cbn [broadcast_transaction_rec];
    [apply respects_raise |].
  apply respects_bind; [exact IH | intros v].
  apply respects_bind; [apply respects_lift | intros r; apply respects_run_command].
Qed.

Lemma respects_estimate_fee_cached fuel n cache :
  (forall c v, R c (set_cache_fees v c)) ->
  respects R (estimate_fee_cached w fuel n cache).
Proof.
  intros R_cache. unfold estimate_fee_cached, estimate_fee.
  apply respects_bind; [apply respects_datetime_now | intros t].
  apply respects_bind; [apply respects_gets | intros fees].
  assert (respects R
            (bind (run_command w fuel (_estimate_fee n))
               (fun fee_ =>
                  bind (lift (timedelta cache)) (fun interval =>
                  bind (lift (datetime_add t interval)) (fun expiry_ =>
                  bind (modify (fun c => set_cache_fees
                          (<[n := mkFeeEntry fee_ expiry_]> (cache_fees c)) c))
                    (fun _ => ret fee_)))))) as Hr.
  { apply respects_bind; [apply respects_run_command | intros v].
    apply respects_bind; [apply respects_lift | intros i].
    apply respects_bind; [apply respects_lift | intros x].
    apply respects_bind; [| intros _; apply respects_ret].
    apply respects_modify. intros c. apply R_cache. }
  destruct (fees !! n) as [entry |]; [| exact Hr].
  destruct (expiry entry <=? t)%Z; [apply respects_ret | exact Hr].
Qed.

Hypothesis change_server_respects : forall fuel, respects R (change_server w fuel).

Lemma respects_get_coroutines fuel requests :
  respects R (get_coroutines w fuel requests).
Proof.
  unfold get_coroutines, get_coroutines_body.
  apply respects_get_coroutines_loop.
  - apply change_server_respects.
  - intros requests0. apply batch_respects.
Qed.

Lemma respects_after_call fuel c k :
  (forall c v, R c (set_cache_fees v c)) ->
  (is_connect_call k = true -> R c (connect_to_server w fuel c).2) ->
  R c (after_call w fuel c k).
Proof.
  intros R_cache Hc. destruct k; cbn [after_call].
  - apply respects_choose_random_server.
  - apply Hc. reflexivity.
  - apply change_server_respects.
  - apply respects_get_coroutines.
  - apply batch_respects.
  - apply respects_run_command.
  - apply respects_run_command.
  - apply respects_estimate_fee_cached, R_cache.
  - apply respects_broadcast_transaction_rec.
  - apply respects_rpc_subscribe_loop.
  - apply respects_rpc_subscribe_loop.
  - apply respects_dispatch_all.
Qed.

End Api.

End Respects.

(** ** The registry only loses entries *)

Lemma registry_shrinks_refl c : registry_shrinks c c.
Proof. split; auto. Qed.

Lemma registry_shrinks_trans c1 c2 c3 :
  registry_shrinks c1 c2 -> registry_shrinks c2 c3 -> registry_shrinks c1 c3.
Proof. intros [H1 H2] [H3 H4]. split; [congruence | auto]. Qed.

Lemma registry_shrinks_delete c h :
  registry_shrinks c (set_servers (registry_delete (servers c) h) c).
Proof.
  split; [reflexivity |]. cbn. intros kv Hkv.
  apply registry_delete_elem in Hkv as [Hkv _]. exact Hkv.
Qed.

Lemma registry_shrinks_connect w : respects registry_shrinks (connect w).
Proof.
  intros c. unfold connect. destruct (create_connection w _ _ _ _); cbn;
    split; auto.
Qed.

(** Closes the goals that an assignment to another attribute respects
    [registry_shrinks]. *)
Ltac registry_kept :=
  first [ exact registry_shrinks_refl
        | exact registry_shrinks_trans
        | exact registry_shrinks_delete
        | apply registry_shrinks_connect
        | lazymatch goal with
          | |- respects _ _ => fail
          | |- _ => intros; split; [reflexivity | cbn; intros; assumption]
          end ].

Lemma registry_shrinks_cycle w fuel depth :
  respects registry_shrinks (cy_connect_to_server (cycle w fuel depth)) /\
  forall requests,
    respects registry_shrinks
      (cy_rpc_multiple_send_and_wait (cycle w fuel depth) requests).
Proof. apply respects_cycle; registry_kept. Qed.

Lemma registry_shrinks_change_server w fuel :
  respects registry_shrinks (change_server w fuel).
Proof.
  unfold change_server. apply respects_change_server_body;
    try apply registry_shrinks_cycle; registry_kept.
Qed.

Lemma registry_shrinks_after_call w fuel c k :
  registry_shrinks c (after_call w fuel c k).
Proof.
  apply respects_after_call;
    try (intros; first [apply registry_shrinks_cycle
                       | apply registry_shrinks_change_server]);
    registry_kept.
Qed.

Lemma registry_shrinks_after_calls w fuel ks c :
  registry_shrinks c (after_calls w fuel c ks).
Proof.
  revert c. induction ks as [| k ks IH]; intros c; cbn; [apply registry_shrinks_refl |].
  eapply registry_shrinks_trans; [apply registry_shrinks_after_call | apply IH].
Qed.

Lemma registry_shrinks_init w fuel a :
  use_ssl (__init__ w fuel a).2 = arg_use_ssl a /\
  forall kv, kv ∈ servers (__init__ w fuel a).2 ->
    kv ∈ usable_servers (arg_use_ssl a)
           (match arg_servers a with [] => read_json w | l => l end).
Proof.
  unfold __init__.
  match goal with
  | |- use_ssl (?m ?c).2 = _ /\ _ =>
      assert (respects registry_shrinks m) as Hm; [| exact (Hm c)]
  end.
  apply (respects_bind _ registry_shrinks_trans).
  - apply respects_if; [| apply respects_ret; registry_kept].
    apply (respects_bind _ registry_shrinks_trans).
    + apply respects_choose_random_server; registry_kept.
    + intros hp. apply respects_modify. registry_kept.
  - intros _. apply registry_shrinks_cycle.
Qed.

(** X1: the registry of a client is what [__init__] kept of the catalog,
    less what [choose_random_server] deleted: after construction and any
    sequence of calls, every entry of [self.servers] is an entry of the
    catalog that [server_is_usable] accepts and that advertises the port of
    the TLS policy, which is still the one given to [__init__]. *)
Theorem registry_holds_usable_catalog_entries (w : World) (fuel : nat)
    (a : InitArgs) (ks : list Call) :
  let c := after_calls w fuel (__init__ w fuel a).2 ks in
  use_ssl c = arg_use_ssl a /\
  Forall (fun kv =>
            kv ∈ match arg_servers a with [] => read_json w | l => l end /\
            truthy (server_is_usable (arg_use_ssl a) kv.2) = true /\
            is_Some (kv.2 !! port_key (arg_use_ssl a)))
    (servers c).
Proof.
  cbn zeta. destruct (registry_shrinks_init w fuel a) as [Hs Hi].
  destruct (registry_shrinks_after_calls w fuel ks (__init__ w fuel a).2) as [Hs' Hk].
  split; [congruence |]. apply Forall_forall. intros kv Hkv.
  apply usable_servers_spec. apply Hi, Hk, Hkv.
Qed.

(** ** No failover ever happens *)

Lemma stays_put_refl c : stays_put c c.
Proof. intros Ht Hf. auto. Qed.

Lemma stays_put_trans c1 c2 c3 :
  stays_put c1 c2 -> stays_put c2 c3 -> stays_put c1 c3.
Proof.
  intros H1 H2 Ht Hf. destruct (H1 Ht Hf) as (Ht' & Hf' & Hc & Hh & Hp).
  destruct (H2 Ht' Hf') as (? & ? & ? & ? & ?). repeat split; congruence.
Qed.

Lemma stays_put_change_server_body w fuel k :
  respects stays_put (change_server_body w fuel k).
Proof.
  intros c Ht Hf. rewrite change_server_body_unbound by exact Ht. auto.
Qed.

(** Closes the goals that an assignment to another attribute respects
    [stays_put]. *)
Ltac stays_put_kept :=
  first [ exact stays_put_refl
        | exact stays_put_trans
        | apply stays_put_change_server_body
        | lazymatch goal with
          | |- respects _ _ => fail
          | |- _ => unfold stays_put; intros; cbn; auto
          end ].

Lemma stays_put_batch w fuel depth requests :
  respects stays_put (cy_rpc_multiple_send_and_wait (cycle w fuel depth) requests).
Proof.
  revert requests. induction depth as [| depth IH]; intros requests;
    cbn [cycle cy_rpc_multiple_send_and_wait].
  - apply respects_raise. stays_put_kept.
  - apply respects_rpc_multiple_send_and_wait_body; try exact IH; stays_put_kept.
Qed.

Lemma stays_put_after_call w fuel c k :
  is_connect_call k = false -> stays_put c (after_call w fuel c k).
Proof.
  intros Hk.
  refine (respects_after_call stays_put stays_put_refl stays_put_trans w
            _ _ _ _ _ _ _ _ fuel c k _ _).
  - intros c0 v Ht Hf. auto.
  - intros c0 v Ht Hf. auto.
  - intros c0 v Ht Hf. auto.
  - intros c0 v Ht Hf. auto.
  - intros c0 v Ht Hf. auto.
  - intros c0 v Ht Hf. auto.
  - intros fuel0 requests. exact (stays_put_batch w fuel0 _ requests).
  - intros fuel0. exact (stays_put_change_server_body w fuel0 _).
  - intros c0 v Ht Hf. auto.
  - rewrite Hk. discriminate.
Qed.

(** [connect_to_server] on such a client attempts one connection, to the
    current host and port, or none when the recursion limit is used up. *)
Lemma connect_to_server_stays w fuel c :
  transport c = None -> failed_hosts c = [] ->
  let c' := (connect_to_server w fuel c).2 in
  transport c' = None /\ failed_hosts c' = [] /\
  host c' = host c /\ port c' = port c /\
  (connects c' = connects c \/
   connects c' = (connects c ++ [(host c, port c)])%list).
Proof.
  intros Ht Hf. cbn zeta. unfold connect_to_server.
  destruct (recursion_limit w) as [| d]; cbn [cycle cy_connect_to_server].
  - cbn. auto 10.
  - pose proof (respects_connect_to_server_body_after stays_put stays_put_refl
                  stays_put_trans w) as H.
    specialize (H ltac:(unfold stays_put; intros; cbn; auto)
                  ltac:(unfold stays_put; intros; cbn; auto)
                  ltac:(unfold stays_put; intros; cbn; auto)
                  ltac:(unfold stays_put; intros; cbn; auto)
                  ltac:(unfold stays_put; intros; cbn; auto)
                  ltac:(unfold stays_put; intros; cbn; auto)
                  ltac:(unfold stays_put; intros; cbn; auto)
                  fuel (cy_connect_to_server (cycle w fuel d))
                  (cy_rpc_multiple_send_and_wait (cycle w fuel d)) c
                  (stays_put_change_server_body _ _ _)
                  (stays_put_batch w fuel d)).
    assert (transport (connect w c).2 = None /\ failed_hosts (connect w c).2 = [] /\
            host (connect w c).2 = host c /\ port (connect w c).2 = port c /\
            connects (connect w c).2 = (connects c ++ [(host c, port c)])%list)
      as (Ht1 & Hf1 & Hh1 & Hp1 & Hc1).
    { unfold connect. destruct (create_connection w _ _ _ _); cbn; auto. }
    destruct (H Ht1 Hf1) as (Ht2 & Hf2 & Hc2 & Hh2 & Hp2).
    repeat split; try congruence. right. congruence.
Qed.

Lemma after_calls_stay w fuel ks c :
  transport c = None -> failed_hosts c = [] ->
  let c' := after_calls w fuel c ks in
  transport c' = None /\ failed_hosts c' = [] /\
  host c' = host c /\ port c' = port c /\
  exists n, (n <= length (List.filter is_connect_call ks))%nat /\
            connects c' = (connects c ++ replicate n (host c, port c))%list.
Proof.
  revert c. induction ks as [| k ks IH]; intros c Ht Hf; cbn zeta.
  - cbn. repeat split; auto. exists 0%nat. cbn. rewrite app_nil_r. auto.
  - cbn [after_calls foldl List.filter].
    destruct (is_connect_call k) eqn:Hk.
    + destruct k; try discriminate. cbn [after_call].
      destruct (connect_to_server_stays w fuel c Ht Hf) as (Ht1 & Hf1 & Hh1 & Hp1 & Hc1).
      destruct (IH _ Ht1 Hf1) as (Ht2 & Hf2 & Hh2 & Hp2 & n & Hn & Hc2).
      unfold after_calls in *. repeat split; try congruence.
      rewrite Hh1, Hp1 in Hc2. destruct Hc1 as [Hc1 | Hc1]; rewrite Hc1 in Hc2.
      * exists n. cbn. split; [lia | exact Hc2].
      * exists (S n). cbn. split; [lia |]. rewrite Hc2, <- app_assoc. reflexivity.
    + destruct (stays_put_after_call w fuel c k Hk Ht Hf) as (Ht1 & Hf1 & Hc1 & Hh1 & Hp1).
      destruct (IH _ Ht1 Hf1) as (Ht2 & Hf2 & Hh2 & Hp2 & n & Hn & Hc2).
      unfold after_calls in *. repeat split; try congruence.
      exists n. split; [exact Hn |]. rewrite Hc2, Hc1, Hh1, Hp1. reflexivity.
Qed.

(** [__init__] attempts one connection at most, to the host and port it
    ends with. *)
Lemma bind_final {A B} (m : M A) (f : A -> M B) c :
  (bind m f c).2 =
    match m c with
    | (Ok a, c1) => (f a c1).2
    | (_, c1) => c1
    end.
Proof. unfold bind. destruct (m c) as [[a | e |] c1]; reflexivity. Qed.

Lemma same_attempts_refl c : same_attempts c c.
Proof. repeat split. Qed.

Lemma same_attempts_trans c1 c2 c3 :
  same_attempts c1 c2 -> same_attempts c2 c3 -> same_attempts c1 c3.
Proof. intros (? & ? & ?) (? & ? & ?). repeat split; congruence. Qed.

Lemma init_connects_once w fuel a :
  let c := (__init__ w fuel a).2 in
  transport c = None /\ failed_hosts c = [] /\
  (connects c = [] \/ connects c = [(host c, port c)]).
Proof.
  cbn zeta. unfold __init__. rewrite bind_final.
  match goal with
  | |- context [match ?m ?c with _ => _ end] =>
      assert (same_attempts c (m c).2) as (Ht & Hf & Hc);
        [| destruct (m c) as [[[] | e |] c1] ]
  end.
  { match goal with
    | |- same_attempts ?c (?m ?c).2 =>
        assert (respects same_attempts m) as Hm; [| exact (Hm c)]
    end.
    apply respects_if; [| apply respects_ret; exact same_attempts_refl].
    apply (respects_bind _ same_attempts_trans).
    - apply respects_choose_random_server;
        first [exact same_attempts_refl | exact same_attempts_trans
              | intros; repeat split].
    - intros hp. apply respects_modify. intros; repeat split. }
  - cbn in Ht, Hf, Hc.
    destruct (connect_to_server_stays w fuel c1 Ht Hf) as (Ht1 & Hf1 & Hh1 & Hp1 & Hc1).
    repeat split; auto. rewrite Hc in Hc1. cbn [connects app] in Hc1.
    destruct Hc1 as [E | E]; [left | right]; rewrite E, ?Hh1, ?Hp1; reflexivity.
  - cbn in *. auto.
  - cbn in *. auto.
Qed.

(** X2: a client built by [__init__] never fails over.  After construction
    and any sequence of calls, [transport] is still unbound and
    [failed_hosts] still empty, the host and port are those [__init__] ended
    with, [__init__] has attempted one connection at most, and every later
    connection attempt comes from an outside call of [connect_to_server], one
    attempt per call at most, each to that same host and port. *)
Theorem client_never_changes_server (w : World) (fuel : nat) (a : InitArgs)
    (ks : list Call) :
  let c0 := (__init__ w fuel a).2 in
  let c := after_calls w fuel c0 ks in
  transport c = None /\ failed_hosts c = [] /\
  host c = host c0 /\ port c = port c0 /\
  (length (connects c0) <= 1)%nat /\
  exists n, (n <= length (List.filter is_connect_call ks))%nat /\
            connects c = (connects c0 ++ replicate n (host c0, port c0))%list.
Proof.
  cbn zeta. destruct (init_connects_once w fuel a) as (Ht & Hf & Hc).
  destruct (after_calls_stay w fuel ks _ Ht Hf) as (Ht1 & Hf1 & Hh1 & Hp1 & n & Hn & Hc1).
  repeat split; auto.
  - destruct Hc as [-> | ->]; cbn; lia.
  - exists n. auto.
Qed.

(** ** A batch that returns was served by one server *)

Lemma same_server_refl c : same_server c c.
Proof. repeat split. Qed.

Lemma same_server_trans c1 c2 c3 :
  same_server c1 c2 -> same_server c2 c3 -> same_server c1 c3.
Proof.
  intros (? & ? & ? & ? & ? & ? & ?) (? & ? & ? & ? & ? & ? & ?).
  repeat split; congruence.
Qed.

Lemma same_server_send w m p cb : respects same_server (send_rpc_request w m p cb).
Proof.
  apply respects_send_rpc_request;
    first [exact same_server_refl | exact same_server_trans | intros; repeat split].
Qed.

Lemma same_server_gather w cs : respects same_server (run_until_complete_gather w cs).
Proof.
  apply respects_run_until_complete_gather;
    first [exact same_server_refl | exact same_server_trans | intros; repeat split].
Qed.

Lemma wait_all_length ids c vs c' :
  wait_all ids c = (Ok vs, c') -> length vs = length ids.
Proof.
  revert c vs c'. induction ids as [| i ids IH]; intros c vs c' H; cbn [wait_all] in H.
  - injection H as <- <-. reflexivity.
  - apply bind_ok in H as (r & c1 & _ & H).
    apply bind_ok in H as (rs & c2 & Hrs & H).
    injection H as <- <-. cbn. f_equal. eapply IH, Hrs.
Qed.

Lemma awaitable_ids_length cs ids :
  awaitable_ids cs = Some ids -> length ids = length cs.
Proof.
  revert ids. induction cs as [| [i | v] cs IH]; intros ids H; cbn in H.
  - injection H as <-. reflexivity.
  - destruct (awaitable_ids cs) as [ids' |]; [| discriminate].
    injection H as <-. cbn. f_equal. apply IH. reflexivity.
  - discriminate.
Qed.

Lemma awaitable_ids_values vs :
  vs <> [] -> awaitable_ids (map Value vs) = None.
Proof. destruct vs; [done | reflexivity]. Qed.

(** The two ways [get_coroutines] returns: with one coroutine per request,
    all sent to the server in use, or with the values of a resubmission. *)
Lemma get_coroutines_loop_returns w fuel k b requests rest acc c cs c1 :
  get_coroutines_loop w fuel k b requests rest acc c = (Ok cs, c1) ->
  (length cs = (length acc + length rest)%nat /\ same_server c c1) \/
  (exists vs c0, cs = map Value vs /\ b requests c0 = (Ok vs, c1)).
Proof.
  revert acc c. induction rest as [| [m p] rest IH]; intros acc c H;
    cbn [get_coroutines_loop] in H.
  - injection H as <- <-. left. split; [cbn; lia | apply same_server_refl].
  - apply bind_ok in H as (r & c2 & Hr & H).
    assert (forall c4,
              bind (change_server_body w fuel k)
                (fun _ => bind (b requests)
                   (fun vs => ret (inr vs : Awaitable + list ResultDict))) c4 =
                (Ok r, c2) ->
              exists vs c0, r = inr vs /\ b requests c0 = (Ok vs, c2)) as Hres.
    { intros c4 Hk. apply bind_ok in Hk as ([] & c5 & _ & Hk).
      apply bind_ok in Hk as (vs & c6 & Hb & Hk). injection Hk as <- <-. eauto. }
    apply try_except_ok in Hr as [Hr | (e & c3 & k0 & _ & Hh & Hk)].
    + apply bind_ok in Hr as (i & c3 & Hs & Hr).
      apply try_except_ok in Hr as [Hr | (e & c4 & k0 & Hraise & _)];
        [| discriminate].
      injection Hr as <- <-.
      pose proof (same_server_send w m p None c) as Hsame. rewrite Hs in Hsame.
      apply IH in H as [[Hlen Hc] | Hv]; [left | right; exact Hv].
      split; [rewrite Hlen, length_app; cbn; lia |].
      eapply same_server_trans; [exact Hsame | exact Hc].
    + destruct (is_OSError w e); [| discriminate]. injection Hh as <-.
      destruct (Hres _ Hk) as (vs & c0 & -> & Hb).
      injection H as <- <-. right. eauto.
Qed.

(** The batcher, as a property of the cycle at every depth. *)
Lemma batch_returns w fuel depth requests c values c' :
  cy_rpc_multiple_send_and_wait (cycle w fuel depth) requests c = (Ok values, c') ->
  length values = length requests /\ failed_hosts c' = [] /\
  host c' = host c /\ port c' = port c /\ connects c' = connects c /\
  servers c' = servers c /\ transport c' = transport c /\
  cache_fees c' = cache_fees c.
Proof.
  revert requests c values c'. induction depth as [| depth IH];
    intros requests c values c' H; cbn [cycle cy_rpc_multiple_send_and_wait] in H;
    [discriminate |].
  unfold rpc_multiple_send_and_wait_body, get_coroutines_body in H.
  apply bind_ok in H as (cs & c1 & Hcs & H).
  apply bind_ok in H as (vs & c2 & Hg & H).
  apply bind_ok in H as ([] & c3 & Hm & H). injection H as <- <-.
  injection Hm as <-.
  pose proof (same_server_gather w cs c1) as Hsame. rewrite Hg in Hsame. cbn in Hsame.
  unfold run_until_complete_gather in Hg.
  destruct (awaitable_ids cs) as [ids |] eqn:Hids; [| discriminate].
  apply bind_ok in Hg as (n & c4 & _ & Hg).
  apply bind_ok in Hg as ([] & c5 & _ & Hg).
  apply bind_ok in Hg as ([] & c6 & _ & Hg).
  apply wait_all_length in Hg. apply awaitable_ids_length in Hids as Hlen.
  destruct requests as [| r0 requests].
  - cbn in Hcs. injection Hcs as <- <-. cbn in Hids. injection Hids as <-.
    destruct Hsame as (? & ? & ? & ? & ? & ? & ?). cbn in Hg. cbn.
    repeat split; auto.
  - apply get_coroutines_loop_returns in Hcs as [[Hl Hc] | (vs' & c0 & -> & Hb)].
    + destruct (same_server_trans _ _ _ Hc Hsame) as (? & ? & ? & ? & ? & ? & ?).
      cbn in Hl. cbn. repeat split; auto. cbn in *. lia.
    + apply IH in Hb as (Hl & _). destruct vs' as [| v vs'].
      * cbn in Hl. discriminate.
      * cbn in Hids. discriminate.
Qed.

(** X3: whenever [rpc_multiple_send_and_wait] returns, it returns one result
    per request, [failed_hosts] is empty, and no failover took place during
    the batch: host, port, registry and [transport] are as before and no
    connection was attempted.  (The path through [except OSError] never
    returns: the values of the resubmitted batch are handed to
    [asyncio.gather], which refuses them.) *)
Theorem batch_returns_one_result_per_request (w : World) (fuel : nat)
    (requests : list Request) (c c' : Client) (values : list ResultDict) :
  rpc_multiple_send_and_wait w fuel requests c = (Ok values, c') ->
  length values = length requests /\ failed_hosts c' = [] /\
  host c' = host c /\ port c' = port c /\ connects c' = connects c /\
  servers c' = servers c /\ transport c' = transport c /\
  cache_fees c' = cache_fees c.
Proof. apply batch_returns. Qed.

(** Two header requests on a connected client. *)
Lemma batch_returns_one_result_per_request_witness :
  let c := connected_client "a" [("a", tls_server "50002")] in
  let c' := (rpc_multiple_send_and_wait two_headers_world 0 two_headers c).2 in
  length [mkResult (PInt 10) PNone "blockchain.block.get_header" (PList [PInt 1]);
          mkResult (PInt 20) PNone "blockchain.block.get_header" (PList [PInt 2])] =
    length two_headers /\
  failed_hosts c' = [] /\
  host c' = host c /\ port c' = port c /\ connects c' = connects c /\
  servers c' = servers c /\ transport c' = transport c /\
  cache_fees c' = cache_fees c.
Proof.
  cbn zeta.
  apply (batch_returns_one_result_per_request two_headers_world 0 two_headers
           (connected_client "a" [("a", tls_server "50002")]) _
           [mkResult (PInt 10) PNone "blockchain.block.get_header" (PList [PInt 1]);
            mkResult (PInt 20) PNone "blockchain.block.get_header" (PList [PInt 2])]).
  vm_compute. reflexivity.
Defined.

(** ** What [connect_to_server] has done when it returns *)

(** The frames of a batch, on a session that waits for one answer only,
    under [i]: the session's result table is empty or holds under [i] the
    data and error of one of the frames. *)
Lemma dispatch_all_one_handler (F fs : list Frame) c rc i m p :
  (forall f, f ∈ fs -> f ∈ F) ->
  rpc_client c = Some rc ->
  handlers rc = {[ i := mkHandler handle_response_cb m p ]} ->
  (result rc = ∅ \/
   exists d e, (i, d, e) ∈ F /\ result rc = {[ i := mkResult d e m p ]}) ->
  exists res,
    dispatch_all fs c =
      (Ok tt, set_rpc_client
                (Some (mkRPCClient res (handlers rc) (next_id rc) (peer rc)
                         (made rc) (closed rc))) c) /\
    (res = ∅ \/ exists d e, (i, d, e) ∈ F /\ res = {[ i := mkResult d e m p ]}).
Proof.
  revert c rc. induction fs as [| [[j d] e] fs IH]; intros c rc HF Hrc Hh Hres.
  - exists (result rc). split; [| exact Hres]. cbn.
    destruct c, rc; cbn in *. subst. reflexivity.
  - cbn [dispatch_all].
    assert (exists res,
              dispatch (j, d, e) c =
                (Ok tt, set_rpc_client
                          (Some (mkRPCClient res (handlers rc) (next_id rc) (peer rc)
                                   (made rc) (closed rc))) c) /\
              (res = ∅ \/
               exists d e, (i, d, e) ∈ F /\ res = {[ i := mkResult d e m p ]}))
      as (res & Hd & Hres').
    { unfold dispatch. rewrite bind_gets_eq, Hrc, Hh.
      destruct (decide (j = i)) as [-> | Hne].
      - rewrite lookup_singleton_eq. unfold run_handler. cbn [h_callback h_method h_params].
        unfold handle_response. rewrite Hrc.
        exists (<[i := mkResult d e m p]> (result rc)). rewrite Hh.
        split; [reflexivity |]. right. exists d, e. split; [apply HF; left |].
        destruct Hres as [-> | (d0 & e0 & _ & ->)].
        + apply insert_empty.
        + apply insert_singleton_eq.
      - rewrite lookup_singleton_ne by congruence.
        exists (result rc). split; [| exact Hres].
        unfold ret. destruct c, rc; cbn in *. subst. reflexivity. }
    rewrite (bind_step _ _ c tt _ Hd).
    set (rc1 := mkRPCClient res (handlers rc) (next_id rc) (peer rc)
                  (made rc) (closed rc)) in *.
    destruct (IH (set_rpc_client (Some rc1) c) rc1)
      as (res2 & Hd2 & Hres2); auto.
    { intros f Hf. apply HF. right. exact Hf. }
    exists res2. split; [| exact Hres2]. rewrite Hd2. reflexivity.
Qed.

(** A batch of one request that returns, on a session with nothing
    pending: the request was sent on that session, under its next
    identifier; a frame for that identifier arrived during the batch, and its
    data and error are the result; the session has nothing pending again. *)
Lemma batch_of_one_returns w fuel k b req c rc values c' :
  (forall reqs c0 vs c1, b reqs c0 = (Ok vs, c1) -> length vs = length reqs) ->
  rpc_client c = Some rc -> result rc = ∅ -> handlers rc = ∅ ->
  rpc_multiple_send_and_wait_body w fuel k b [req] c = (Ok values, c') ->
  exists d e,
    values = [mkResult d e req.1 req.2] /\
    (next_id rc, d, e) ∈ arrivals w (gathers c) /\
    c' = set_failed_hosts []
           (set_rpc_client
              (Some (mkRPCClient ∅ ∅ (S (next_id rc)) (peer rc) (made rc) (closed rc)))
              (set_gathers (S (gathers c))
                 (set_sent (sent c ++ [(peer rc, req)]) c))).
Proof.
  intros Hb Hrc Hres Hh H. destruct req as [m p].
  unfold rpc_multiple_send_and_wait_body, get_coroutines_body in H.
  apply bind_ok in H as (cs & c1 & Hcs & H).
  apply bind_ok in H as (vs & c2 & Hg & H).
  apply bind_ok in H as ([] & c3 & Hm & H). injection H as <- <-.
  injection Hm as <-.
  cbn [get_coroutines_loop] in Hcs.
  apply bind_ok in Hcs as (r & cA & Hr & Hcs).
  apply try_except_ok in Hr as [Hr | (e & c4 & k0 & _ & Hk0 & Hk)].
  2:{ exfalso. destruct (is_OSError w e); [| discriminate]. injection Hk0 as <-.
      apply bind_ok in Hk as ([] & c5 & _ & Hk).
      apply bind_ok in Hk as (vs' & c6 & Hb' & Hk). injection Hk as <- <-.
      injection Hcs as <- <-. apply Hb in Hb'.
      destruct vs' as [| v vs']; [discriminate | cbn in Hg; discriminate]. }
  apply bind_ok in Hr as (i & c4 & Hs & Hr).
  apply try_except_ok in Hr as [Hr | (e & c5 & k0 & Hraise & _)]; [| discriminate].
  injection Hr as <- <-. cbn in Hcs. injection Hcs as <- <-.
  unfold send_rpc_request, send_request in Hs. cbn in Hs. rewrite Hrc in Hs.
  destruct (send_raises w (length (sent c)) (peer rc) (m, p)); [discriminate |].
  injection Hs as <- <-.
  unfold run_until_complete_gather in Hg. cbn [awaitable_ids option_map] in Hg.
  rewrite bind_gets_eq in Hg.
  apply bind_ok in Hg as ([] & c6 & Hm & Hg). injection Hm as <-.
  apply bind_ok in Hg as ([] & c7 & Hd & Hg).
  match type of Hd with
  | dispatch_all ?fs ?c0 = _ =>
      destruct (dispatch_all_one_handler fs fs c0
                  (mkRPCClient (result rc)
                     (<[next_id rc := mkHandler handle_response_cb m p]> (handlers rc))
                     (S (next_id rc)) (peer rc) (made rc) (closed rc))
                  (next_id rc) m p) as (res & Hd' & Hres')
  end.
  { auto. }
  { reflexivity. }
  { cbn. rewrite Hh. apply insert_empty. }
  { left. exact Hres. }
  rewrite Hd' in Hd. injection Hd as <-. cbn [wait_all] in Hg.
  apply bind_ok in Hg as (r & c8 & Hw & Hg).
  apply bind_ok in Hg as (rs & c9 & Hrs & Hg). injection Hrs as <- <-.
  injection Hg as <- <-.
  unfold wait_for_response in Hw. cbn in Hw.
  destruct Hres' as [-> | (d & e & Hin & ->)].
  - rewrite lookup_empty in Hw. discriminate.
  - rewrite lookup_singleton_eq in Hw. injection Hw as <- <-.
    exists d, e. split; [reflexivity |]. split; [exact Hin |].
    cbn. rewrite Hh, delete_singleton_eq, insert_empty, delete_singleton_eq.
    reflexivity.
Qed.

Lemma change_server_body_returns w fuel k (P : Client -> Prop) c c' :
  (forall c0 c1, k c0 = (Ok tt, c1) -> P c1) ->
  change_server_body w fuel k c = (Ok tt, c') -> P c'.
Proof.
  intros Hk H. unfold change_server_body in H.
  apply bind_ok in H as (t & c1 & _ & H). destruct t as [t |]; [| discriminate].
  apply bind_ok in H as ([] & c2 & _ & H).
  apply bind_ok in H as (h & c3 & _ & H).
  apply bind_ok in H as (f & c4 & _ & H).
  apply bind_ok in H as ([] & c5 & _ & H).
  apply bind_ok in H as (f0 & c6 & _ & H).
  apply bind_ok in H as (m & c7 & _ & H).
  destruct (m <=? Z.of_nat (length f0))%Z; [discriminate |].
  apply bind_ok in H as ([] & c8 & _ & H). eapply Hk, H.
Qed.

Lemma connect_to_server_body_returns w fuel k b c c' :
  (forall c0 c1, k c0 = (Ok tt, c1) -> handshake_answered w c1) ->
  (forall reqs c0 vs c1, b reqs c0 = (Ok vs, c1) -> length vs = length reqs) ->
  connect_to_server_body w fuel k b c = (Ok tt, c') -> handshake_answered w c'.
Proof.
  intros Hk Hb H. unfold connect_to_server_body in H.
  apply try_except_ok in H as [H | (e & c1 & k0 & _ & Hh & H)].
  2:{ destruct (is_OSError w e); [| discriminate]. injection Hh as <-.
      eapply change_server_body_returns; eauto. }
  apply bind_ok in H as (t & c1 & Hconn & H).
  rewrite bind_gets_eq in H.
  apply bind_ok in H as ([] & c3 & Hif & H).
  apply bind_ok in H as ([] & c4 & Hmade & H).
  apply try_except_ok in H as [H | (e & c5 & k0 & _ & Hh & H)].
  2:{ destruct e; try discriminate; injection Hh as <-;
        eapply change_server_body_returns; eauto. }
  assert (exists rc3, rpc_client c3 = Some rc3 /\ result rc3 = ∅ /\ handlers rc3 = ∅)
    as (rc3 & Hrc3 & Hres3 & Hh3).
  { destruct (negb (bool_decide (is_Some t)) || negb (bool_decide (is_Some (rpc_client c1))))
      eqn:E.
    - apply (change_server_body_returns w fuel k (handshake_answered w)) in Hif;
        [| exact Hk].
      destruct Hif as (_ & rc & ? & ? & ? & ? & ? & ? & Hrc & Hr & Hh & _). eauto.
    - injection Hif as <-. apply orb_false_elim in E as [_ E].
      apply negb_false_iff, bool_decide_eq_true in E.
      unfold connect in Hconn.
      destruct (create_connection w _ _ _ _) as [| | t0 [|]]; try discriminate.
      + injection Hconn as _ <-. cbn. eauto.
      + injection Hconn as _ <-. cbn in E. destruct E; discriminate. }
  unfold connection_made in Hmade. rewrite Hrc3 in Hmade. injection Hmade as <-.
  apply bind_ok in H as (request & c5 & Hreq & H).
  unfold _server_version in Hreq. rewrite !bind_gets_eq in Hreq.
  injection Hreq as <- <-.
  apply bind_ok in H as (v & c6 & Hrun & H).
  apply bind_ok in H as (v0 & c7 & H0 & H).
  apply bind_ok in H as ([] & c8 & Hm0 & H).
  apply bind_ok in H as (v1 & c9 & H1 & H).
  unfold lift in H0, H1.
  injection H as <-. injection H1 as Hv1 <-. injection Hm0 as <-.
  injection H0 as Hv0 <-.
  unfold run_command_with in Hrun.
  apply bind_ok in Hrun as (values & c10 & Hbatch & Hrun).
  eapply (batch_of_one_returns w fuel k b) in Hbatch as (d & e & Hvals & Hin & Hc10);
    [| exact Hb | reflexivity | exact Hres3 | exact Hh3].
  subst values c10.
  cbn [error data] in Hrun.
  destruct (truthy e) eqn:He; [discriminate |]. injection Hrun as <- <-.
  split; [reflexivity |].
  eexists _, (next_id rc3), d, e, v0, v1, (sent c3).
  cbn. rewrite Nat.sub_0_r. repeat split; try reflexivity; auto. lia.
Qed.

Lemma cycle_connect_returns w fuel depth c c' :
  cy_connect_to_server (cycle w fuel depth) c = (Ok tt, c') -> handshake_answered w c'.
Proof.
  revert c c'. induction depth as [| depth IH]; intros c c' H;
    cbn [cycle cy_connect_to_server] in H; [discriminate |].
  eapply connect_to_server_body_returns; [| | exact H].
  - exact IH.
  - intros reqs c0 vs c1 Hb. apply batch_returns in Hb as [Hl _]. exact Hl.
Qed.

(** X4: when [connect_to_server] returns, and so when [__init__] does, the
    client holds a session with no request pending; the last request sent on
    it is the handshake, made with the client's name and protocol version;
    the last batch awaited brought a frame for that request whose error is not
    populated, and [server_electrumx_version] and [server_protocol_version]
    are items 0 and 1 of that frame's data; [failed_hosts] is empty. *)
Theorem connect_to_server_returns_connected (w : World) (fuel : nat)
    (a : InitArgs) (c c' : Client) :
  connect_to_server w fuel c = (Ok tt, c') \/ __init__ w fuel a = (Ok tt, c') ->
  handshake_answered w c'.
Proof.
  intros [H | H].
  - eapply cycle_connect_returns, H.
  - unfold __init__ in H. apply bind_ok in H as ([] & c1 & _ & H).
    eapply cycle_connect_returns, H.
Qed.

(** The construction of [connected_client]. *)
Lemma connect_to_server_returns_connected_witness :
  handshake_answered (scripted_world (fun n => [handshake_frame 0]) (fun _ => 0%Z))
    (connected_client "a" [("a", tls_server "50002")]).
Proof.
  apply (connect_to_server_returns_connected
           (scripted_world (fun n => [handshake_frame 0]) (fun _ => 0%Z)) 0
           (default_args [("a", tls_server "50002")] 5)
           (connected_client "a" [("a", tls_server "50002")])).
  right. vm_compute. reflexivity.
Defined.

(** ** Calls that cannot return what they are for *)

Lemma server_features_rec_raises w depth fuel c :
  server_features_rec w depth fuel c = (Raise RecursionError, c).
Proof.
  induction depth as [| depth IH]; cbn [server_features_rec]; [reflexivity |].
  unfold bind at 1. rewrite IH. reflexivity.
Qed.

Lemma subcribe_to_peers_rec_raises w depth fuel c :
  subcribe_to_peers_rec w depth fuel c = (Raise RecursionError, c).
Proof.
  induction depth as [| depth IH]; cbn [subcribe_to_peers_rec]; [reflexivity |].
  unfold bind at 1. rewrite IH. reflexivity.
Qed.

(** X5: [server_features] and [subcribe_to_peers] pass a call of themselves
    to [run_command], as [broadcast_transaction] does: on every client and at
    every recursion limit each ends in [RecursionError], and the client is
    untouched, so neither request is ever sent. *)
Theorem server_features_and_peers_never_return (w : World) (fuel : nat) (c : Client) :
  server_features w fuel c = (Raise RecursionError, c) /\
  subcribe_to_peers w fuel c = (Raise RecursionError, c).
Proof.
  split; [apply server_features_rec_raises | apply subcribe_to_peers_rec_raises].
Qed.

Lemma merkle_loop_returns results todo merkles :
  merkle_loop results todo merkles = Ok merkles.
Proof.
  induction todo as [| r todo IH]; cbn [merkle_loop]; [reflexivity |].
  rewrite bool_decide_eq_false_2; [exact IH |].
  unfold result_keys. intros H.
  repeat (apply elem_of_cons in H as [H | H]; [discriminate |]). inversion H.
Qed.

(** X6: [get_all_merkle_data] tests ['merkle' in result.keys()] on the dicts
    of the batch, whose keys are [data], [error], [method] and [params]: the
    test is never true, so whenever the method returns, it returns the empty
    list, whatever the server answered. *)
Theorem get_all_merkle_data_returns_nothing (w : World) (fuel : nat)
    (txs : list pyval) (c c' : Client) (merkles : list ResultDict) :
  get_all_merkle_data w fuel txs c = (Ok merkles, c') -> merkles = [].
Proof.
  unfold get_all_merkle_data. intros H.
  apply bind_ok in H as (heights & c1 & _ & H).
  apply bind_ok in H as (reqs & c2 & _ & H).
  apply bind_ok in H as (results & c3 & _ & H).
  unfold lift in H. rewrite merkle_loop_returns in H. injection H as <- _.
  reflexivity.
Qed.

(** One transaction, both requests answered, the second with a merkle
    branch. *)
Lemma get_all_merkle_data_returns_nothing_witness :
  (get_all_merkle_data merkle_world 0 [one_tx]
     (connected_client "a" [("a", tls_server "50002")])).1 = Ok [] /\
  ([] : list ResultDict) = [].
Proof.
  split; [vm_compute; reflexivity |].
  apply (get_all_merkle_data_returns_nothing merkle_world 0 [one_tx]
           (connected_client "a" [("a", tls_server "50002")])
           (get_all_merkle_data merkle_world 0 [one_tx]
              (connected_client "a" [("a", tls_server "50002")])).2 []).
  vm_compute. reflexivity.
Defined.

(** ** Pushes *)

(** X7: after [subscribe_to_block_headers(callback)] has returned the
    identifier of its request, a frame for it whose error is not populated
    makes the dispatch call [callback(data)], once, with the data of the
    frame as it came. *)
Theorem header_push_calls_back_with_data (w : World) (callback : nat)
    (c c' : Client) (ids : list nat) (id_ : nat) (data_ error_ : pyval) :
  subscribe_to_block_headers w callback c = (Ok ids, c') ->
  id_ ∈ ids ->
  truthy error_ = false ->
  dispatch (id_, data_, error_) c' =
    (Ok tt, set_calls (calls c' ++ [(callback, [data_])]) c').
Proof.
  intros Hsub Hid He. unfold subscribe_to_block_headers, rpc_subscribe in Hsub.
  destruct (rpc_subscribe_loop_handlers _ _ _ _ _ _ _ Hsub
              ltac:(intros i Hi; inversion Hi) id_ Hid) as (rc & h & Hrc & Hh & Hcb).
  unfold dispatch, bind, gets. rewrite Hrc, Hh. unfold run_handler. rewrite Hcb.
  unfold handle_block_headers_notify. rewrite He. reflexivity.
Qed.

(** A new header pushed to a subscriber. *)
Lemma header_push_calls_back_with_data_witness :
  dispatch (1%nat, PDict [("height", PInt 700000)], PNone)
    (subscribe_to_block_headers (scripted_world (fun _ => []) (fun _ => 0%Z)) 3
       (connected_client "a" [("a", tls_server "50002")])).2 =
  (Ok tt,
   set_calls
     (calls (subscribe_to_block_headers (scripted_world (fun _ => []) (fun _ => 0%Z)) 3
               (connected_client "a" [("a", tls_server "50002")])).2 ++
      [(3%nat, [PDict [("height", PInt 700000)]])])
     (subscribe_to_block_headers (scripted_world (fun _ => []) (fun _ => 0%Z)) 3
        (connected_client "a" [("a", tls_server "50002")])).2).
Proof.
  apply (header_push_calls_back_with_data
           (scripted_world (fun _ => []) (fun _ => 0%Z)) 3
           (connected_client "a" [("a", tls_server "50002")]) _ [1%nat] 1
           (PDict [("height", PInt 700000)]) PNone).
  - vm_compute. reflexivity.
  - apply list_elem_of_singleton. reflexivity.
  - reflexivity.
Defined.

(** X8: a frame that carries a populated error, for a request of
    [subscribe_to_scripthashes] or of [subscribe_to_block_headers], makes the
    handler raise [Exception(error)]; the callback is not called and the
    client is unchanged. *)
Theorem push_with_error_raises (w : World) (addrs_scripthashes : list (string * pyval))
    (callback : nat) (c c' : Client) (ids : list nat) (id_ : nat)
    (data_ error_ : pyval) :
  subscribe_to_scripthashes w addrs_scripthashes callback c = (Ok ids, c') \/
  subscribe_to_block_headers w callback c = (Ok ids, c') ->
  id_ ∈ ids ->
  truthy error_ = true ->
  dispatch (id_, data_, error_) c' = (Raise (Exception_ error_), c').
Proof.
  intros Hsub Hid He.
  assert (exists rc h, rpc_client c' = Some rc /\ handlers rc !! id_ = Some h /\
            (h_callback h = handle_scripthash_notify_cb addrs_scripthashes callback \/
             h_callback h = handle_block_headers_notify_cb callback))
    as (rc & h & Hrc & Hh & Hcb).
  { destruct Hsub as [Hsub | Hsub];
      [unfold subscribe_to_scripthashes, rpc_subscribe in Hsub
      | unfold subscribe_to_block_headers, rpc_subscribe in Hsub];
      destruct (rpc_subscribe_loop_handlers _ _ _ _ _ _ _ Hsub
                  ltac:(intros i Hi; inversion Hi) id_ Hid) as (rc & h & Hrc & Hh & Hcb);
      eauto 10. }
  unfold dispatch, bind, gets. rewrite Hrc, Hh. unfold run_handler.
  destruct Hcb as [-> | ->];
    unfold handle_scripthash_notify, handle_block_headers_notify; rewrite He;
    reflexivity.
Qed.

(** A header push with an error object. *)
Lemma push_with_error_raises_witness :
  dispatch (1%nat, PNone, PDict [("code", PInt 1)])
    (subscribe_to_block_headers (scripted_world (fun _ => []) (fun _ => 0%Z)) 3
       (connected_client "a" [("a", tls_server "50002")])).2 =
  (Raise (Exception_ (PDict [("code", PInt 1)])),
   (subscribe_to_block_headers (scripted_world (fun _ => []) (fun _ => 0%Z)) 3
      (connected_client "a" [("a", tls_server "50002")])).2).
Proof.
  apply (push_with_error_raises
           (scripted_world (fun _ => []) (fun _ => 0%Z)) [] 3
           (connected_client "a" [("a", tls_server "50002")]) _ [1%nat] 1
           PNone (PDict [("code", PInt 1)])).
  - right. vm_compute. reflexivity.
  - apply list_elem_of_singleton. reflexivity.
  - reflexivity.
Defined.

(** X9: a push for a request of [subscribe_to_scripthashes] whose first
    element is a scripthash that was not among the keys given at subscribe
    time raises [KeyError] with that scripthash; the callback is not called
    and the client is unchanged. *)
Theorem unknown_scripthash_push_raises (w : World)
    (addrs_scripthashes : list (string * pyval)) (callback : nat) (c c' : Client)
    (ids : list nat) (id_ : nat) (scripthash : string) (error_ : pyval)
    (rest : list pyval) :
  subscribe_to_scripthashes w addrs_scripthashes callback c = (Ok ids, c') ->
  id_ ∈ ids ->
  dict_lookup addrs_scripthashes scripthash = None ->
  truthy error_ = false ->
  dispatch (id_, PList (PStr scripthash :: rest), error_) c' =
    (Raise (KeyError (PStr scripthash)), c').
Proof.
  intros Hsub Hid Ha He. unfold subscribe_to_scripthashes, rpc_subscribe in Hsub.
  destruct (rpc_subscribe_loop_handlers _ _ _ _ _ _ _ Hsub
              ltac:(intros i Hi; inversion Hi) id_ Hid) as (rc & h & Hrc & Hh & Hcb).
  unfold dispatch, bind, gets. rewrite Hrc, Hh. unfold run_handler. rewrite Hcb.
  unfold handle_scripthash_notify. rewrite He. unfold bind, lift. cbn.
  rewrite Ha. reflexivity.
Qed.

(** A push for a scripthash nobody subscribed. *)
Lemma unknown_scripthash_push_raises_witness :
  dispatch (1%nat, PList [PStr "other"; PStr "status-1"], PNone)
    (subscribe_to_scripthashes (scripted_world (fun _ => []) (fun _ => 0%Z))
       [("H", PStr "1Abc")] 7 (connected_client "a" [("a", tls_server "50002")])).2 =
  (Raise (KeyError (PStr "other")),
   (subscribe_to_scripthashes (scripted_world (fun _ => []) (fun _ => 0%Z))
      [("H", PStr "1Abc")] 7 (connected_client "a" [("a", tls_server "50002")])).2).
Proof.
  apply (unknown_scripthash_push_raises
           (scripted_world (fun _ => []) (fun _ => 0%Z))
           [("H", PStr "1Abc")] 7
           (connected_client "a" [("a", tls_server "50002")]) _ [1%nat] 1 "other"
           PNone [PStr "status-1"]).
  - vm_compute. reflexivity.
  - apply list_elem_of_singleton. reflexivity.
  - reflexivity.
  - reflexivity.
Defined.

(** ** [rpc_subscribe] *)

Lemma rpc_subscribe_loop_returns w requests cb ids0 c rc ids c' :
  rpc_client c = Some rc ->
  rpc_subscribe_loop w requests cb ids0 c = (Ok ids, c') ->
  ids = (ids0 ++ seq (next_id rc) (length requests))%list /\
  c' = after_sends cb c rc requests.
Proof.
  revert ids0 c rc. induction requests as [| [m p] rest IH]; intros ids0 c rc Hrc H.
  - cbn in H. injection H as <- <-. cbn. rewrite app_nil_r.
    split; [reflexivity |]. symmetry. apply after_sends_nil, Hrc.
  - cbn [rpc_subscribe_loop] in H. apply bind_ok in H as (i & c1 & Hs & H).
    unfold send_rpc_request, send_request in Hs. cbn in Hs. rewrite Hrc in Hs.
    destruct (send_raises w _ _ _); [discriminate |]. injection Hs as <- <-.
    eapply (IH _ _ (add_handler cb rc (m, p))) in H; [| reflexivity].
    destruct H as [-> ->]. split.
    + cbn. rewrite <- app_assoc. reflexivity.
    + apply (after_sends_cons cb c rc (m, p) rest).
Qed.

(** X10: when [rpc_subscribe] returns on a client with a session, it returns
    one identifier per request, in the order of the requests, consecutive
    from the next free one; each request was sent once, in order, with the
    callback as handler, and nothing else happened: no batch was awaited, no
    connection attempted, host and failed hosts are as before. *)
Theorem rpc_subscribe_returns_consecutive_ids (w : World) (requests : list Request)
    (callback : Callback) (c c' : Client) (rc : RPCClient) (ids : list nat) :
  rpc_client c = Some rc ->
  rpc_subscribe w requests callback c = (Ok ids, c') ->
  ids = seq (next_id rc) (length requests) /\
  sent c' = (sent c ++ map (pair (peer rc)) requests)%list /\
  (forall i r, requests !! i = Some r ->
     exists rc', rpc_client c' = Some rc' /\
       handlers rc' !! (next_id rc + i)%nat = Some (mkHandler callback r.1 r.2)) /\
  gathers c' = gathers c /\ connects c' = connects c /\ host c' = host c /\
  failed_hosts c' = failed_hosts c /\ calls c' = calls c.
Proof.
  intros Hrc H. unfold rpc_subscribe in H.
  apply (rpc_subscribe_loop_returns w requests callback [] c rc) in H as [-> ->];
    [| exact Hrc].
  repeat split.
  intros i r Hr. eexists. split; [reflexivity |].
  apply foldl_add_handler_new, Hr.
Qed.

(** Two subscriptions sent on a connected client. *)
Lemma rpc_subscribe_returns_consecutive_ids_witness :
  let c := connected_client "a" [("a", tls_server "50002")] in
  let c' := (rpc_subscribe (scripted_world (fun _ => []) (fun _ => 0%Z)) two_headers
               (handle_block_headers_notify_cb 3) c).2 in
  [1%nat; 2%nat] = seq 1 (length two_headers) /\
  sent c' = (sent c ++ map (pair "a") two_headers)%list /\
  (forall i r, two_headers !! i = Some r ->
     exists rc', rpc_client c' = Some rc' /\
       handlers rc' !! (1 + i)%nat =
         Some (mkHandler (handle_block_headers_notify_cb 3) r.1 r.2)) /\
  gathers c' = gathers c /\ connects c' = connects c /\ host c' = host c /\
  failed_hosts c' = failed_hosts c /\ calls c' = calls c.
Proof.
  cbn zeta.
  apply (rpc_subscribe_returns_consecutive_ids
           (scripted_world (fun _ => []) (fun _ => 0%Z)) two_headers
           (handle_block_headers_notify_cb 3)
           (connected_client "a" [("a", tls_server "50002")]) _
           (mkRPCClient ∅ ∅ 1 "a" (Some (Some 1%nat)) false) [1%nat; 2%nat]).
  - reflexivity.
  - vm_compute. reflexivity.
Defined.

(** ** The fee cache, entry by entry *)

Lemma cache_kept_by_batch w fuel requests :
  respects (fun c c' => cache_fees c' = cache_fees c)
    (rpc_multiple_send_and_wait w fuel requests).
Proof.
  unfold rpc_multiple_send_and_wait.
  refine (proj2 (respects_cycle (fun c c' => cache_fees c' = cache_fees c)
                   _ _ w _ _ _ _ _ _ _ _ _ _ _ _ _ fuel (recursion_limit w)) requests);
    try (intros; reflexivity).
  - intros c1 c2 c3 H1 H2. congruence.
  - intros c. unfold connect. destruct (create_connection w _ _ _ _); reflexivity.
Qed.

Lemma cache_kept_by_run_command w fuel request c :
  cache_fees (run_command w fuel request c).2 = cache_fees c.
Proof.
  refine (respects_run_command (fun c c' => cache_fees c' = cache_fees c)
            _ _ w _ fuel request c); try (intros; reflexivity).
  - intros c1 c2 c3 H1 H2. congruence.
  - intros fuel0 requests. apply cache_kept_by_batch.
Qed.

Lemma estimate_fee_cached_unfold w fuel numblocks cache c :
  estimate_fee_cached w fuel numblocks cache c =
    let now_ := now w (ticks c) in
    let c1 := set_ticks (S (ticks c)) c in
    let refresh :=
      bind (estimate_fee w fuel numblocks)
        (fun fee_ =>
           bind (lift (timedelta cache)) (fun interval =>
           bind (lift (datetime_add now_ interval)) (fun expiry_ =>
           bind (modify (fun c0 => set_cache_fees
                   (<[numblocks := mkFeeEntry fee_ expiry_]> (cache_fees c0)) c0))
             (fun _ => ret fee_)))) in
    match cache_fees c !! numblocks with
    | Some entry =>
        if (expiry entry <=? now_)%Z then (Ok (fee entry), c1) else refresh c1
    | None => refresh c1
    end.
Proof.
  unfold estimate_fee_cached. unfold bind at 1. unfold datetime_now.
  unfold bind at 1. unfold gets. cbn [cache_fees set_ticks].
  destruct (cache_fees c !! numblocks) as [entry |]; [| reflexivity].
  destruct (expiry entry <=? now w (ticks c))%Z; reflexivity.
Qed.

(** The part of [estimate_fee_cached] that asks the server, from the client
    [c1] the fetch starts on. *)
Lemma estimate_fee_cached_refresh w fuel numblocks cache now_ c1 :
  let fetch := estimate_fee w fuel numblocks c1 in
  let r :=
    bind (estimate_fee w fuel numblocks)
      (fun fee_ =>
         bind (lift (timedelta cache)) (fun interval =>
         bind (lift (datetime_add now_ interval)) (fun expiry_ =>
         bind (modify (fun c0 => set_cache_fees
                 (<[numblocks := mkFeeEntry fee_ expiry_]> (cache_fees c0)) c0))
           (fun _ => ret fee_)))) c1 in
  sent r.2 = sent fetch.2 /\
  ((cache_fees r.2 = cache_fees c1 /\ forall v, r.1 <> Ok v) \/
   (exists fee_,
      fetch.1 = Ok fee_ /\ r.1 = Ok fee_ /\
      timedelta_in_range (timedelta_minutes cache) = true /\
      datetime_in_range (now_ + timedelta_minutes cache) = true /\
      cache_fees r.2 =
        <[numblocks := mkFeeEntry fee_ (now_ + timedelta_minutes cache)]>
          (cache_fees c1))).
Proof.
  cbn zeta. pose proof (cache_kept_by_run_command w fuel (_estimate_fee numblocks) c1) as Hk.
  fold (estimate_fee w fuel numblocks c1) in Hk.
  unfold bind, lift, timedelta, datetime_add.
  destruct (estimate_fee w fuel numblocks c1) as [[v | e |] c2]; cbn in Hk |- *.
  - destruct (timedelta_in_range (timedelta_minutes cache)) eqn:E1.
    + destruct (datetime_in_range (now_ + timedelta_minutes cache)) eqn:E2; cbn.
      * split; [reflexivity |]. right. exists v. cbn. rewrite Hk. auto 10.
      * split; [reflexivity |]. left. split; [exact Hk | discriminate].
    + cbn. split; [reflexivity |]. left. split; [exact Hk | discriminate].
  - split; [reflexivity |]. left. split; [exact Hk | discriminate].
  - split; [reflexivity |]. left. split; [exact Hk | discriminate].
Qed.

(** X11: [estimate_fee_cached(numblocks)] writes the cache under
    [numblocks] only, and only when the fee was fetched.  Every other entry
    is as before whatever the outcome; when the call does not return a value
    the whole cache is as before; when the call is served from the cache (an
    entry whose expiry is not after [now]) the stored fee is returned, the
    whole cache is as before and nothing is sent; and in every case the cache
    is as before unless [estimate_fee] returned a fee, which is then the value
    returned and the value stored, with the expiry [now + cache] minutes. *)
Theorem estimate_fee_cached_writes_one_entry (w : World) (fuel : nat)
    (numblocks cache : Z) (c : Client) :
  let r := estimate_fee_cached w fuel numblocks cache c in
  let now_ := now w (ticks c) in
  let fetch := estimate_fee w fuel numblocks (set_ticks (S (ticks c)) c) in
  (forall k, k <> numblocks -> cache_fees r.2 !! k = cache_fees c !! k) /\
  ((forall v, r.1 <> Ok v) -> cache_fees r.2 = cache_fees c) /\
  (forall entry,
     cache_fees c !! numblocks = Some entry -> (expiry entry <= now_)%Z ->
     r.1 = Ok (fee entry) /\ cache_fees r.2 = cache_fees c /\ sent r.2 = sent c) /\
  (cache_fees r.2 = cache_fees c \/
   exists fee_,
     fetch.1 = Ok fee_ /\ r.1 = Ok fee_ /\
     cache_fees r.2 =
       <[numblocks := mkFeeEntry fee_ (now_ + timedelta_minutes cache)]>
         (cache_fees c)).
Proof.
  cbn zeta. rewrite estimate_fee_cached_unfold. cbn zeta.
  set (c1 := set_ticks (S (ticks c)) c).
  pose proof (estimate_fee_cached_refresh w fuel numblocks cache
                (now w (ticks c)) c1) as Hr.
  cbn zeta in Hr. change (cache_fees c1) with (cache_fees c) in Hr.
  set (refresh := bind (estimate_fee w fuel numblocks) _ c1) in *.
  assert ((forall k, k <> numblocks -> cache_fees refresh.2 !! k = cache_fees c !! k) /\
          ((forall v, refresh.1 <> Ok v) -> cache_fees refresh.2 = cache_fees c) /\
          (cache_fees refresh.2 = cache_fees c \/
           exists fee_,
             (estimate_fee w fuel numblocks c1).1 = Ok fee_ /\ refresh.1 = Ok fee_ /\
             cache_fees refresh.2 =
               <[numblocks := mkFeeEntry fee_ (now w (ticks c) + timedelta_minutes cache)]>
                 (cache_fees c))) as (H1 & H2 & H3).
  { destruct Hr as [_ [[Hc Hn] | (fee_ & Hf & Hv & _ & _ & Hc)]].
    - repeat split; [intros; rewrite Hc; reflexivity | auto | left; exact Hc].
    - repeat split.
      + intros k Hne. rewrite Hc, lookup_insert_ne by congruence. reflexivity.
      + intros Hn. destruct (Hn fee_ Hv).
      + right. exists fee_. auto. }
  destruct (cache_fees c !! numblocks) as [entry |] eqn:He.
  - destruct (expiry entry <=? now w (ticks c))%Z eqn:Hx.
    + cbn. split; [auto |]. split; [auto |]. split; [| auto].
      intros en Hen _. injection Hen as <-. auto.
    + split; [exact H1 |]. split; [exact H2 |]. split; [| exact H3].
      intros en Hen Hle. injection Hen as <-. apply Z.leb_gt in Hx. lia.
  - split; [exact H1 |]. split; [exact H2 |]. split; [| exact H3].
    intros en Hen. discriminate Hen.
Qed.

(** X12: a fetch on a cache miss.  On a connected client with no entry for
    [numblocks], whose request is sent and answered by [(id_, d, e)] with [e]
    not populated, [estimate_fee_cached(numblocks, cache)] has sent the one
    request [('blockchain.estimatefee', (numblocks,))]; when [cache] minutes
    are a duration [timedelta] holds and [now + cache] minutes is a date
    [datetime] holds, it returns [d] and the cache now holds [d] under
    [numblocks] with that expiry, the other entries being as before;
    otherwise it raises [OverflowError] and the cache is as before. *)
Theorem estimate_fee_cached_stores_fetched_fee (w : World) (fuel : nat)
    (numblocks cache : Z) (d e : pyval) (c : Client) (rc : RPCClient) :
  recursion_limit w <> 0%nat ->
  rpc_client c = Some rc ->
  cache_fees c !! numblocks = None ->
  send_raises w (length (sent c)) (peer rc) (_estimate_fee numblocks) = false ->
  arrivals w (gathers c) = [(next_id rc, d, e)] ->
  truthy e = false ->
  let expiry_ := (now w (ticks c) + cache * 60000000)%Z in
  let in_range :=
    timedelta_in_range (cache * 60000000) && datetime_in_range expiry_ in
  exists c',
    estimate_fee_cached w fuel numblocks cache c =
      (if in_range then Ok d else Raise OverflowError, c') /\
    cache_fees c' =
      (if in_range then <[numblocks := mkFeeEntry d expiry_]> (cache_fees c)
       else cache_fees c) /\
    sent c' = (sent c ++ [(peer rc, _estimate_fee numblocks)])%list.
Proof.
  intros Hd Hrc Hmiss Hs Ha He. cbn zeta.
  rewrite estimate_fee_cached_unfold. cbn zeta. rewrite Hmiss.
  unfold estimate_fee, run_command, run_command_with.
  unfold bind at 1. unfold bind at 1.
  rewrite (rpc_multiple_send_and_wait_ok w fuel [_estimate_fee numblocks] [(d, e)]
             (set_ticks (S (ticks c)) c) rc Hd Hrc).
  - cbn [expected_results zip_with error data fst snd]. rewrite He.
    unfold ret at 1. unfold bind, lift, timedelta, datetime_add, timedelta_minutes.
    destruct (timedelta_in_range (cache * 60000000)); cbn [andb].
    + destruct (datetime_in_range (now w (ticks c) + cache * 60000000));
        eexists; (split; [reflexivity |]); cbn; auto.
    + eexists. split; [reflexivity |]. cbn. auto.
  - reflexivity.
  - intros [| i] r Hi; [| done]. injection Hi as <-. cbn. rewrite Nat.add_0_r. exact Hs.
  - cbn. rewrite Ha. reflexivity.
Qed.

(** The first fee request of [fee_world], with ten minutes of cache. *)
Lemma estimate_fee_cached_stores_fetched_fee_witness :
  exists c',
    estimate_fee_cached fee_world 0 6 10
      (connected_client "a" [("a", tls_server "50002")]) = (Ok (PInt 100), c') /\
    cache_fees c' =
      <[6%Z := mkFeeEntry (PInt 100) (0 + 10 * 60000000)]> (∅ : gmap Z FeeEntry) /\
    sent c' =
      (sent (connected_client "a" [("a", tls_server "50002")]) ++
       [("a", _estimate_fee 6)])%list.
Proof.
  apply (estimate_fee_cached_stores_fetched_fee fee_world 0 6 10 (PInt 100) PNone
           (connected_client "a" [("a", tls_server "50002")])
           (mkRPCClient ∅ ∅ 1 "a" (Some (Some 1%nat)) false)).
  - cbn. lia.
  - reflexivity.
  - reflexivity.
  - reflexivity.
  - reflexivity.
  - reflexivity.
Defined.

(** ** No server is drawn after the construction *)

Lemma choose_random_server_empty w c :
  recursion_limit w <> 0%nat -> servers c = [] ->
  choose_random_server w c = (Raise IndexError, c).
Proof.
  intros Hd Hs. unfold choose_random_server.
  destruct (recursion_limit w) as [| d]; [done |].
  cbn [choose_random_server_rec]. unfold bind, gets. rewrite Hs. reflexivity.
Qed.


Lemma draws_nothing_refl c : draws_nothing c c.
Proof. intros Ht Hf. auto. Qed.

Lemma draws_nothing_trans c1 c2 c3 :
  draws_nothing c1 c2 -> draws_nothing c2 c3 -> draws_nothing c1 c3.
Proof.
  intros H1 H2 Ht Hf. destruct (H1 Ht Hf) as (Ht' & Hf' & Hs & Hd & Hu).
  destruct (H2 Ht' Hf') as (? & ? & ? & ? & ?). repeat split; congruence.
Qed.

Lemma draws_nothing_change_server_body w fuel k :
  respects draws_nothing (change_server_body w fuel k).
Proof.
  intros c Ht Hf. rewrite change_server_body_unbound by exact Ht. auto.
Qed.

(** Closes the goals that an assignment to another attribute respects
    [draws_nothing]. *)
Ltac draws_nothing_kept :=
  first [ exact draws_nothing_refl
        | exact draws_nothing_trans
        | lazymatch goal with
          | |- respects _ _ => fail
          | |- _ => unfold draws_nothing; intros; cbn; auto
          end ].

Lemma draws_nothing_batch w fuel depth requests :
  respects draws_nothing (cy_rpc_multiple_send_and_wait (cycle w fuel depth) requests).
Proof.
  revert requests. induction depth as [| depth IH]; intros requests;
    cbn [cycle cy_rpc_multiple_send_and_wait].
  - apply respects_raise. draws_nothing_kept.
  - refine (respects_rpc_multiple_send_and_wait_body draws_nothing
              draws_nothing_refl draws_nothing_trans w _ _ _ _ fuel _ _
              (draws_nothing_change_server_body w fuel _) IH _ requests);
      draws_nothing_kept.
Qed.

Lemma draws_nothing_rpc_multiple_send_and_wait w fuel requests :
  respects draws_nothing (rpc_multiple_send_and_wait w fuel requests).
Proof. exact (draws_nothing_batch w fuel _ requests). Qed.

Lemma draws_nothing_connect_to_server w fuel :
  respects draws_nothing (connect_to_server w fuel).
Proof.
  intros c Ht Hf. unfold connect_to_server.
  destruct (recursion_limit w) as [| d]; cbn [cycle cy_connect_to_server].
  - cbn. auto.
  - pose proof (respects_connect_to_server_body_after draws_nothing
                  draws_nothing_refl draws_nothing_trans w) as H.
    specialize (H ltac:(draws_nothing_kept) ltac:(draws_nothing_kept)
                  ltac:(draws_nothing_kept) ltac:(draws_nothing_kept)
                  ltac:(draws_nothing_kept) ltac:(draws_nothing_kept)
                  ltac:(draws_nothing_kept)
                  fuel (cy_connect_to_server (cycle w fuel d))
                  (cy_rpc_multiple_send_and_wait (cycle w fuel d)) c
                  (draws_nothing_change_server_body _ _ _)
                  (draws_nothing_batch w fuel d)).
    assert (draws_nothing c (connect w c).2) as H0.
    { intros _ _. unfold connect. destruct (create_connection w _ _ _ _); cbn; auto. }
    exact (draws_nothing_trans _ _ _ H0 H Ht Hf).
Qed.

(** On a registry whose descriptors all advertise the port of the TLS
    policy, [choose_random_server] returns at its first draw and deletes
    nothing. *)
Lemma choose_random_server_first_draw w c :
  (forall kv, kv ∈ servers c -> is_Some (kv.2 !! port_key (use_ssl c))) ->
  (recursion_limit w = 0%nat /\ choose_random_server w c = (Raise RecursionError, c)) \/
  (servers c = [] /\ choose_random_server w c = (Raise IndexError, c)) \/
  (exists h p server,
     (h, server) ∈ servers c /\ server !! port_key (use_ssl c) = Some p /\
     choose_random_server w c = (Ok (h, p), set_draws (S (draws c)) c)).
Proof.
  intros Hall. destruct (recursion_limit w) as [| d] eqn:Hd.
  - left. split; [reflexivity |]. unfold choose_random_server. rewrite Hd. reflexivity.
  - right. destruct (decide (servers c = [])) as [Hs | Hs].
    + left. split; [exact Hs |]. apply choose_random_server_empty; [lia | exact Hs].
    + right. unfold choose_random_server. rewrite Hd.
      destruct (choose_random_server_rec_step w d c Hs) as (h & server & Hel & Hrun).
      destruct (Hall _ Hel) as [p Hp]. cbn in Hp. rewrite Hp in Hrun.
      exists h, p, server. auto.
Qed.

(** The registry of a client whose [transport] is unbound, once its
    descriptors all advertise the port: no call changes it. *)
Lemma after_call_keeps_registry w fuel c k :
  transport c = None -> failed_hosts c = [] ->
  (forall kv, kv ∈ servers c -> is_Some (kv.2 !! port_key (use_ssl c))) ->
  let c' := after_call w fuel c k in
  transport c' = None /\ failed_hosts c' = [] /\
  servers c' = servers c /\ use_ssl c' = use_ssl c.
Proof.
  intros Ht Hf Hall. cbn zeta.
  assert (forall c', draws_nothing c c' ->
            transport c' = None /\ failed_hosts c' = [] /\
            servers c' = servers c /\ use_ssl c' = use_ssl c) as Hdn.
  { intros c' H. destruct (H Ht Hf) as (? & ? & ? & ? & ?). auto. }
  destruct k; cbn [after_call].
  - destruct (choose_random_server_first_draw w c Hall)
      as [[_ ->] | [[_ ->] | (h & p & server & _ & _ & ->)]]; cbn; auto.
  - apply Hdn. exact (draws_nothing_connect_to_server w fuel c).
  - apply Hdn. exact (draws_nothing_change_server_body w fuel _ c).
  - apply Hdn.
    refine (respects_get_coroutines draws_nothing draws_nothing_refl
              draws_nothing_trans w _ _ _ _ fuel requests c).
    + draws_nothing_kept.
    + draws_nothing_kept.
    + intros fuel0 requests0. exact (draws_nothing_batch w fuel0 _ requests0).
    + intros fuel0. exact (draws_nothing_change_server_body w fuel0 _).
  - apply Hdn. exact (draws_nothing_batch w fuel _ requests c).
  - apply Hdn.
    exact (respects_run_command draws_nothing draws_nothing_refl draws_nothing_trans w
             (draws_nothing_rpc_multiple_send_and_wait w) fuel request c).
  - apply Hdn.
    exact (respects_run_command draws_nothing draws_nothing_refl draws_nothing_trans w
             (draws_nothing_rpc_multiple_send_and_wait w) fuel
             (_estimate_fee numblocks) c).
  - apply Hdn.
    refine (respects_estimate_fee_cached draws_nothing draws_nothing_refl
              draws_nothing_trans w _
              (draws_nothing_rpc_multiple_send_and_wait w) fuel numblocks cache _ c);
      draws_nothing_kept.
  - apply Hdn.
    exact (respects_broadcast_transaction_rec draws_nothing draws_nothing_refl
             draws_nothing_trans w (draws_nothing_rpc_multiple_send_and_wait w)
             _ fuel raw_tx c).
  - apply Hdn.
    refine (respects_rpc_subscribe_loop draws_nothing draws_nothing_refl
              draws_nothing_trans w _ _ _ _ _ c); draws_nothing_kept.
  - apply Hdn.
    refine (respects_rpc_subscribe_loop draws_nothing draws_nothing_refl
              draws_nothing_trans w _ _ _ _ _ c); draws_nothing_kept.
  - apply Hdn.
    refine (respects_dispatch_all draws_nothing draws_nothing_refl
              draws_nothing_trans _ _ frames c); draws_nothing_kept.
Qed.

Lemma after_calls_keep_registry w fuel ks c :
  transport c = None -> failed_hosts c = [] ->
  (forall kv, kv ∈ servers c -> is_Some (kv.2 !! port_key (use_ssl c))) ->
  let c' := after_calls w fuel c ks in
  transport c' = None /\ failed_hosts c' = [] /\
  servers c' = servers c /\ use_ssl c' = use_ssl c.
Proof.
  revert c. induction ks as [| k ks IH]; intros c Ht Hf Hall; cbn zeta; [cbn; auto |].
  cbn [after_calls foldl].
  destruct (after_call_keeps_registry w fuel c k Ht Hf Hall) as (Ht1 & Hf1 & Hs1 & Hu1).
  destruct (IH (after_call w fuel c k) Ht1 Hf1) as (Ht2 & Hf2 & Hs2 & Hu2).
  { rewrite Hs1, Hu1. exact Hall. }
  unfold after_calls in *. repeat split; congruence.
Qed.

(** The registry [__init__] leaves is the one it built: the usable entries
    of the catalog. *)
Lemma init_keeps_registry w fuel a :
  let c := (__init__ w fuel a).2 in
  transport c = None /\ failed_hosts c = [] /\
  servers c =
    usable_servers (arg_use_ssl a)
      (match arg_servers a with [] => read_json w | l => l end) /\
  use_ssl c = arg_use_ssl a.
Proof.
  cbn zeta. unfold __init__.
  set (self := mkClient _ _ _ _ _ _ _ _ _ _ _ _ _ _ _ _ _ _ _ _).
  assert (forall kv, kv ∈ servers self -> is_Some (kv.2 !! port_key (use_ssl self)))
    as Hall.
  { intros kv Hkv. apply usable_servers_spec in Hkv as (_ & _ & H). exact H. }
  rewrite bind_final.
  assert (exists o c1,
            (if String.eqb (default "" (arg_host a)) ""
             then hp <- choose_random_server w;; modify (set_host_port hp.1 hp.2)
             else ret tt) self = (o, c1) /\
            transport c1 = None /\ failed_hosts c1 = [] /\
            servers c1 = servers self /\ use_ssl c1 = use_ssl self)
    as (o & c1 & -> & Ht & Hf & Hs & Hu).
  { destruct (String.eqb _ _); [| eexists _, _; split; [reflexivity | auto]].
    destruct (choose_random_server_first_draw w self Hall)
      as [[_ E] | [[_ E] | (h & p & server & _ & _ & E)]].
    - eexists _, _. split; [apply bind_raise, E | auto].
    - eexists _, _. split; [apply bind_raise, E | auto].
    - eexists _, _. split; [rewrite (bind_step _ _ _ _ _ E); reflexivity | auto]. }
  destruct o as [[] | e |]; cbn; auto.
  destruct (draws_nothing_connect_to_server w fuel c1 Ht Hf)
    as (Ht2 & Hf2 & Hs2 & _ & Hu2).
  split; [exact Ht2 |]. split; [exact Hf2 |].
  split; [rewrite Hs2; exact Hs | rewrite Hu2; exact Hu].
Qed.

(** ** The first connection *)

(** With the recursion limit not used up, [connect_to_server] on a client
    that never failed over attempts exactly one connection. *)
Lemma connect_to_server_attempts_once w fuel c :
  recursion_limit w <> 0%nat ->
  transport c = None -> failed_hosts c = [] ->
  let c' := (connect_to_server w fuel c).2 in
  connects c' = (connects c ++ [(host c, port c)])%list /\
  host c' = host c /\ port c' = port c.
Proof.
  intros Hd Ht Hf. cbn zeta. unfold connect_to_server.
  destruct (recursion_limit w) as [| d]; [done |]. cbn [cycle cy_connect_to_server].
  pose proof (respects_connect_to_server_body_after stays_put stays_put_refl
                stays_put_trans w) as H.
  specialize (H ltac:(unfold stays_put; intros; cbn; auto)
                ltac:(unfold stays_put; intros; cbn; auto)
                ltac:(unfold stays_put; intros; cbn; auto)
                ltac:(unfold stays_put; intros; cbn; auto)
                ltac:(unfold stays_put; intros; cbn; auto)
                ltac:(unfold stays_put; intros; cbn; auto)
                ltac:(unfold stays_put; intros; cbn; auto)
                fuel (cy_connect_to_server (cycle w fuel d))
                (cy_rpc_multiple_send_and_wait (cycle w fuel d)) c
                (stays_put_change_server_body _ _ _)
                (stays_put_batch w fuel d)).
  assert (transport (connect w c).2 = None /\ failed_hosts (connect w c).2 = [] /\
          host (connect w c).2 = host c /\ port (connect w c).2 = port c /\
          connects (connect w c).2 = (connects c ++ [(host c, port c)])%list)
    as (Ht1 & Hf1 & Hh1 & Hp1 & Hc1).
  { unfold connect. destruct (create_connection w _ _ _ _); cbn; auto. }
  destruct (H Ht1 Hf1) as (Ht2 & Hf2 & Hc2 & Hh2 & Hp2).
  repeat split; congruence.
Qed.

(** X13: [ElectrumXClient(host=h, port=p, ...)] with a host given draws no
    server: [random.choice] is not called and the registry is the usable
    part of the catalog, untouched; the one connection attempt goes to
    [(h, p)], and these stay the client's host and port whether the
    construction succeeds or not. *)
Theorem init_connects_to_given_host (w : World) (fuel : nat) (a : InitArgs)
    (h : string) :
  recursion_limit w <> 0%nat ->
  arg_host a = Some h -> h <> "" ->
  let c0 := (__init__ w fuel a).2 in
  connects c0 = [(h, arg_port a)] /\ host c0 = h /\ port c0 = arg_port a /\
  failed_hosts c0 = [] /\
  draws c0 = 0%nat /\
  servers c0 =
    usable_servers (arg_use_ssl a)
      (match arg_servers a with [] => read_json w | l => l end).
Proof.
  intros Hd Ha Hne. cbn zeta. unfold __init__. rewrite Ha.
  change (default "" (Some h)) with h.
  apply String.eqb_neq in Hne. rewrite Hne. rewrite bind_final. unfold ret at 1.
  match goal with
  | |- context [connect_to_server w fuel ?c] =>
      destruct (connect_to_server_attempts_once w fuel c Hd eq_refl eq_refl)
        as (Hc & Hh & Hp);
      destruct (connect_to_server_stays w fuel c eq_refl eq_refl)
        as (_ & Hf & _);
      destruct (draws_nothing_connect_to_server w fuel c eq_refl eq_refl)
        as (_ & _ & Hs & Hdr & _)
  end.
  cbn in Hc, Hh, Hp, Hs, Hdr. repeat split; assumption.
Qed.

(** A host given with the catalog. *)
Lemma init_connects_to_given_host_witness :
  let c0 := (__init__ rejecting_world 0
               (mkInitArgs three_servers (Some "example.org") (PInt 50002) true 15 5
                  (PStr "1.4") (PStr "cryptos"))).2 in
  connects c0 = [("example.org", PInt 50002)] /\ host c0 = "example.org" /\
  port c0 = PInt 50002 /\ failed_hosts c0 = [] /\
  draws c0 = 0%nat /\
  servers c0 = usable_servers true three_servers.
Proof.
  cbn zeta.
  apply (init_connects_to_given_host rejecting_world 0
           (mkInitArgs three_servers (Some "example.org") (PInt 50002) true 15 5
              (PStr "1.4") (PStr "cryptos")) "example.org").
  - cbn. lia.
  - reflexivity.
  - discriminate.
Defined.

(** X14: [ElectrumXClient(...)] without a host.  When no entry of the
    catalog is usable the construction ends in the [IndexError] of
    [random.choice] before any connection is attempted; otherwise the one
    connection attempt goes to a usable entry of the catalog, at the port that
    entry advertises for the TLS policy, and these become the client's host
    and port. *)
Theorem init_draws_a_usable_server (w : World) (fuel : nat) (a : InitArgs) :
  recursion_limit w <> 0%nat ->
  arg_host a = None ->
  let registry :=
    usable_servers (arg_use_ssl a)
      (match arg_servers a with [] => read_json w | l => l end) in
  let r := __init__ w fuel a in
  (registry = [] -> r.1 = Raise IndexError /\ connects r.2 = []) /\
  (registry <> [] ->
     exists h server p,
       (h, server) ∈ registry /\
       server !! port_key (arg_use_ssl a) = Some p /\
       connects r.2 = [(h, p)] /\ host r.2 = h /\ port r.2 = p).
Proof.
  intros Hd Ha. cbn zeta. unfold __init__. rewrite Ha.
  change (default "" None) with "". cbn [String.eqb].
  set (self := mkClient _ _ _ _ _ _ _ _ _ _ _ _ _ _ _ _ _ _ _ _).
  split.
  - intros Hreg.
    rewrite (bind_raise _ _ self IndexError self); [cbn; auto |].
    apply bind_raise. apply choose_random_server_empty; assumption.
  - intros Hreg.
    assert (servers self <> []) as Hs by exact Hreg.
    assert (exists h server p,
              (h, server) ∈ servers self /\
              server !! port_key (arg_use_ssl a) = Some p /\
              choose_random_server w self = (Ok (h, p), set_draws (S (draws self)) self))
      as (h & server & p & Hel & Hp & Hch).
    { unfold choose_random_server. destruct (recursion_limit w) as [| d]; [done |].
      destruct (choose_random_server_rec_step w d self Hs) as (h & server & Hel & Hrun).
      destruct (usable_servers_spec _ _ _ Hel) as (_ & _ & [p Hp]).
      cbn in Hp. exists h, server, p. repeat split; auto.
      rewrite Hrun. change (use_ssl self) with (arg_use_ssl a). rewrite Hp.
      reflexivity. }
    exists h, server, p. split; [exact Hel |]. split; [exact Hp |].
    rewrite (bind_step _ _ self tt
               (set_host_port h p (set_draws (S (draws self)) self))).
    2:{ rewrite (bind_step _ _ self (h, p) (set_draws (S (draws self)) self) Hch).
        reflexivity. }
    match goal with
    | |- context [connect_to_server w fuel ?c] =>
        destruct (connect_to_server_attempts_once w fuel c Hd eq_refl eq_refl)
          as (Hc & Hh & Hp')
    end.
    cbn in Hc, Hh, Hp'. repeat split; assumption.
Qed.

(** Three usable servers, all refusing the connection. *)
Lemma init_draws_a_usable_server_witness :
  let registry := usable_servers true three_servers in
  let r := __init__ rejecting_world 0 (default_args three_servers 3) in
  (registry = [] -> r.1 = Raise IndexError /\ connects r.2 = []) /\
  (registry <> [] ->
     exists h server p,
       (h, server) ∈ registry /\
       server !! port_key true = Some p /\
       connects r.2 = [(h, p)] /\ host r.2 = h /\ port r.2 = p).
Proof.
  cbn zeta.
  apply (init_draws_a_usable_server rejecting_world 0 (default_args three_servers 3)).
  - cbn. lia.
  - reflexivity.
Defined.

(** ** The scripthash queries *)

Lemma tag_items_dicts addr its acc :
  tag_items addr (map PDict its) acc = Ok (acc ++ map (with_address addr) its)%list.
Proof.
  revert acc. induction its as [| d its IH]; intros acc; cbn.
  - rewrite app_nil_r. reflexivity.
  - rewrite IH, <- app_assoc. reflexivity.
Qed.

Lemma dict_lookup_NoDup (d : list (string * pyval)) k v :
  NoDup (map fst d) -> (k, v) ∈ d -> dict_lookup d k = Some v.
Proof.
  induction d as [| [k' v'] d IH]; intros Hnd Hin; [inversion Hin |].
  cbn [map fst] in Hnd. apply NoDup_cons in Hnd as [Hni Hnd]. cbn.
  apply elem_of_cons in Hin as [[= -> ->] | Hin].
  - rewrite String.eqb_refl. reflexivity.
  - destruct (String.eqb k' k) eqn:E; [| auto].
    apply String.eqb_eq in E as ->. exfalso. apply Hni.
    change k with (fst (k, v)). apply list_elem_of_In, in_map, list_elem_of_In, Hin.
Qed.

(** The loop over the results, on answers that are lists of dicts with no
    error: the items of each answer are appended with the address of the
    scripthash the request was made for. *)
Lemma collect_tagged_items addrs method_ sub answers acc :
  (forall kv, kv ∈ sub -> dict_lookup addrs kv.1 = Some kv.2) ->
  length answers = length sub ->
  Forall (fun a : list (list (string * pyval)) * pyval => truthy a.2 = false) answers ->
  collect_tagged addrs
    (expected_results (map (fun kv => scripthash_request method_ kv.1) sub)
       (map items_answer answers)) acc =
  Ok (acc ++ tagged sub (map fst answers))%list.
Proof.
  revert answers acc. induction sub as [| [k v] sub IH]; intros answers acc Hl Hlen Hok.
  - destruct answers; [| discriminate]. cbn. rewrite app_nil_r. reflexivity.
  - destruct answers as [| [its e] answers]; [discriminate |].
    apply Forall_cons in Hok as [He Hok]. cbn in He.
    cbn [map expected_results zip_with collect_tagged items_answer fst snd
         error params data scripthash_request].
    rewrite He. cbn [getitem lookup list_lookup res_bind addrs_lookup].
    pose proof (Hl (k, v) ltac:(left)) as Hk. cbn in Hk. rewrite Hk.
    cbn [res_bind py_iter].
    rewrite tag_items_dicts. cbn [res_bind].
    fold (expected_results (map (fun kv => scripthash_request method_ kv.1) sub)
            (map items_answer answers)).
    rewrite IH.
    + unfold tagged. cbn. rewrite app_assoc. reflexivity.
    + intros kv Hin. apply Hl. right. exact Hin.
    + cbn in Hlen. lia.
    + exact Hok.
Qed.

(** The same loop when an answer carries a populated error after answers
    that are lists of dicts with no error. *)
Lemma collect_tagged_error addrs method_ sub good d e rest acc :
  (forall kv, kv ∈ sub -> dict_lookup addrs kv.1 = Some kv.2) ->
  (length good < length sub)%nat ->
  Forall (fun a : list (list (string * pyval)) * pyval => truthy a.2 = false) good ->
  truthy e = true ->
  collect_tagged addrs
    (expected_results (map (fun kv => scripthash_request method_ kv.1) sub)
       (map items_answer good ++ (d, e) :: rest)) acc =
  Raise (RPCResponseExecption e).
Proof.
  revert good acc. induction sub as [| [k v] sub IH]; intros good acc Hl Hlen Hok He;
    [cbn in Hlen; lia |].
  destruct good as [| [its e0] good].
  - cbn. rewrite He. reflexivity.
  - apply Forall_cons in Hok as [He0 Hok]. cbn in He0.
    cbn [map app expected_results zip_with collect_tagged items_answer fst snd
         error params data scripthash_request].
    rewrite He0. cbn [getitem lookup list_lookup res_bind addrs_lookup].
    pose proof (Hl (k, v) ltac:(left)) as Hk. cbn in Hk. rewrite Hk.
    cbn [res_bind py_iter].
    rewrite tag_items_dicts. cbn [res_bind].
    fold (expected_results (map (fun kv => scripthash_request method_ kv.1) sub)
            (map items_answer good ++ (d, e) :: rest)).
    apply IH; auto.
    + intros kv Hin. apply Hl. right. exact Hin.
    + cbn in Hlen. lia.
Qed.

Lemma scripthash_queries_spec w method_ q :
  (method_, q) ∈ scripthash_queries w -> q = tagged_query w method_.
Proof.
  unfold scripthash_queries. intros Hin.
  repeat (apply elem_of_cons in Hin as [[= -> ->] | Hin]; [reflexivity |]).
  inversion Hin.
Qed.

Lemma addrs_lookup_all (addrs : list (string * pyval)) :
  NoDup (map fst addrs) ->
  forall kv, kv ∈ addrs -> dict_lookup addrs kv.1 = Some kv.2.
Proof. intros Hnd [k v] Hin. apply dict_lookup_NoDup; assumption. Qed.

Lemma scripthash_requests_sent w method_ (addrs : list (string * pyval)) c rc :
  (forall i kv, addrs !! i = Some kv ->
     send_raises w (length (sent c) + i) (peer rc)
       (scripthash_request method_ kv.1) = false) ->
  forall i r,
    map (fun kv => scripthash_request method_ kv.1) addrs !! i = Some r ->
    send_raises w (length (sent c) + i) (peer rc) r = false.
Proof.
  intros Hs i r Hr. change (map ?f ?l) with (f <$> l) in Hr.
  rewrite list_lookup_fmap in Hr.
  destruct (addrs !! i) as [kv |] eqn:E; [| discriminate].
  injection Hr as <-. eapply Hs, E.
Qed.

(** X15: [unspent], [get_mempool] and [history] on a connected client whose
    sends succeed, when every scripthash of [addrs_scripthashes] is answered
    (in any order of arrival) by a list of dicts with an unpopulated error:
    the call returns the items of all answers in the order of the keys of
    [addrs_scripthashes], each item with the address of the scripthash it
    was asked for stored under ['address']. *)
Theorem scripthash_queries_tag_items_with_address (w : World) (fuel : nat)
    (method_ : string) (q : nat -> list (string * pyval) -> M (list pyval))
    (addrs_scripthashes : list (string * pyval))
    (answers : list (list (list (string * pyval)) * pyval))
    (c : Client) (rc : RPCClient) :
  (method_, q) ∈ scripthash_queries w ->
  recursion_limit w <> 0%nat ->
  rpc_client c = Some rc ->
  NoDup (map fst addrs_scripthashes) ->
  length answers = length addrs_scripthashes ->
  (forall i kv, addrs_scripthashes !! i = Some kv ->
     send_raises w (length (sent c) + i) (peer rc)
       (method_, PList [PStr kv.1]) = false) ->
  arrivals w (gathers c) ≡ₚ
    answer_frames (seq (next_id rc) (length addrs_scripthashes))
      (map items_answer answers) ->
  Forall (fun a => truthy a.2 = false) answers ->
  (q fuel addrs_scripthashes c).1 =
    Ok (tagged addrs_scripthashes (map fst answers)).
Proof.
  intros Hq Hd Hrc Hnd Hlen Hs Hperm Hok.
  rewrite (scripthash_queries_spec _ _ _ Hq). unfold tagged_query.
  erewrite bind_step.
  2:{ apply (rpc_multiple_send_and_wait_ok w fuel _ (map items_answer answers) c rc Hd Hrc).
      - rewrite !length_map. exact Hlen.
      - apply scripthash_requests_sent. exact Hs.
      - rewrite length_map. exact Hperm. }
  unfold lift. cbn [fst].
  rewrite collect_tagged_items; auto using addrs_lookup_all.
Qed.

(** The second scripthash is answered first. *)
Lemma scripthash_queries_tag_items_with_address_witness :
  (unspent two_addrs_world 0 two_addrs (connected_client "a" [("a", tls_server "50002")])).1 =
    Ok (tagged two_addrs (map fst two_addrs_items)).
Proof.
  apply (scripthash_queries_tag_items_with_address two_addrs_world 0
           "blockchain.scripthash.listunspent" (unspent two_addrs_world)
           two_addrs two_addrs_items
           (connected_client "a" [("a", tls_server "50002")])
           (mkRPCClient ∅ ∅ 1 "a" (Some (Some 1%nat)) false)).
  - left.
  - cbn. lia.
  - reflexivity.
  - cbn. apply NoDup_cons. split; [| apply NoDup_singleton].
    rewrite list_elem_of_singleton. discriminate.
  - reflexivity.
  - intros i kv _. reflexivity.
  - cbn. apply perm_swap.
  - repeat constructor.
Defined.

(** X16: on the same client, when the answers to the first scripthashes are
    lists of dicts with an unpopulated error and the next one carries a
    populated error [e], [unspent], [get_mempool] and [history] raise
    [RPCResponseExecption(e)]: the items already collected are not returned.
    The whole batch was sent and awaited before the first result is looked
    at. *)
Theorem scripthash_queries_raise_first_error (w : World) (fuel : nat)
    (method_ : string) (q : nat -> list (string * pyval) -> M (list pyval))
    (addrs_scripthashes : list (string * pyval))
    (good : list (list (list (string * pyval)) * pyval))
    (d e : pyval) (rest : list (pyval * pyval))
    (c : Client) (rc : RPCClient) :
  (method_, q) ∈ scripthash_queries w ->
  recursion_limit w <> 0%nat ->
  rpc_client c = Some rc ->
  NoDup (map fst addrs_scripthashes) ->
  length (map items_answer good ++ (d, e) :: rest) = length addrs_scripthashes ->
  (forall i kv, addrs_scripthashes !! i = Some kv ->
     send_raises w (length (sent c) + i) (peer rc)
       (method_, PList [PStr kv.1]) = false) ->
  arrivals w (gathers c) ≡ₚ
    answer_frames (seq (next_id rc) (length addrs_scripthashes))
      (map items_answer good ++ (d, e) :: rest) ->
  Forall (fun a => truthy a.2 = false) good ->
  truthy e = true ->
  let r := q fuel addrs_scripthashes c in
  r.1 = Raise (RPCResponseExecption e) /\
  sent r.2 =
    (sent c ++ map (fun kv => (peer rc, (method_, PList [PStr kv.1])))
                 addrs_scripthashes)%list /\
  gathers r.2 = S (gathers c).
Proof.
  intros Hq Hd Hrc Hnd Hlen Hs Hperm Hok He. cbn zeta.
  rewrite (scripthash_queries_spec _ _ _ Hq). unfold tagged_query.
  erewrite bind_step.
  2:{ apply (rpc_multiple_send_and_wait_ok w fuel _
               (map items_answer good ++ (d, e) :: rest) c rc Hd Hrc).
      - rewrite length_map. exact Hlen.
      - apply scripthash_requests_sent. exact Hs.
      - rewrite length_map. exact Hperm. }
  unfold lift. cbn [fst snd].
  rewrite collect_tagged_error; auto using addrs_lookup_all.
  - split; [reflexivity |]. split; [| reflexivity].
    cbn. rewrite map_map. reflexivity.
  - rewrite length_app, length_map in Hlen. cbn in Hlen. lia.
Qed.

(** The second scripthash is answered by an error, and first. *)
Lemma scripthash_queries_raise_first_error_witness :
  let c := connected_client "a" [("a", tls_server "50002")] in
  let r := history two_addrs_error_world 0 two_addrs c in
  r.1 = Raise (RPCResponseExecption (PStr "history too large")) /\
  sent r.2 =
    (sent c ++ map (fun kv => ("a", ("blockchain.scripthash.get_history", PList [PStr kv.1])))
                 two_addrs)%list /\
  gathers r.2 = S (gathers c).
Proof.
  cbn zeta.
  apply (scripthash_queries_raise_first_error two_addrs_error_world 0
           "blockchain.scripthash.get_history" (history two_addrs_error_world)
           two_addrs [([[("tx_pos", PInt 0); ("value", PInt 5000)]], PNone)]
           PNone (PStr "history too large") []
           (connected_client "a" [("a", tls_server "50002")])
           (mkRPCClient ∅ ∅ 1 "a" (Some (Some 1%nat)) false)).
  - right. right. left.
  - cbn. lia.
  - reflexivity.
  - cbn. apply NoDup_cons. split; [| apply NoDup_singleton].
    rewrite list_elem_of_singleton. discriminate.
  - reflexivity.
  - intros i kv _. reflexivity.
  - cbn. apply perm_swap.
  - repeat constructor.
  - reflexivity.
Defined.

(** ** The loop of [change_server] *)

(** While every host of the registry is a failed one, each round of the loop
    draws a failed host again; no connection is attempted. *)
Lemma while_host_failed_spins_quietly w fuel c :
  recursion_limit w <> 0%nat ->
  servers c <> [] ->
  (forall kv, kv ∈ servers c ->
     kv.1 ∈ failed_hosts c /\ is_Some (kv.2 !! port_key (use_ssl c))) ->
  host c ∈ failed_hosts c ->
  exists c', while_host_failed w fuel c = (Diverge, c') /\ connects c' = connects c.
Proof.
  intros Hd. revert c. induction fuel as [| fuel IH]; intros c Hne Hall Hh.
  - exists c. split; reflexivity.
  - cbn [while_host_failed]. rewrite !bind_gets_eq.
    rewrite bool_decide_eq_true_2 by exact Hh.
    unfold choose_random_server. destruct (recursion_limit w) as [| d]; [done |].
    destruct (choose_random_server_rec_step w d c Hne) as (h & server & Hel & Hch).
    destruct (Hall _ Hel) as [Hf [p Hp]]. cbn in Hf, Hp. rewrite Hp in Hch.
    rewrite (bind_step _ _ c (h, p) _ Hch).
    cbn beta. unfold bind at 1, modify at 1. cbn [fst snd].
    destruct (IH (set_host_port h p (set_draws (S (draws c)) c)))
      as (c' & Hrun & Hc'); cbn; auto.
    exists c'. split; [exact Hrun | exact Hc'].
Qed.

(** X17: [change_server] with [transport] bound, when every host of the
    registry is the current host or a failed one (each advertising the port
    of the TLS policy) and the failed hosts with the current one number less
    than [max_servers]: the loop [while self.host in self.failed_hosts] never
    ends, whatever the generator draws; the exception for exhausted servers
    is not raised and no connection is attempted. *)
Theorem change_server_never_ends_when_all_failed (w : World) (fuel : nat)
    (c : Client) (t : option nat) :
  recursion_limit w <> 0%nat ->
  transport c = Some t ->
  (is_Some t -> is_Some (rpc_client c)) ->
  servers c <> [] ->
  (forall kv, kv ∈ servers c ->
     (kv.1 ∈ failed_hosts c \/ kv.1 = host c) /\
     is_Some (kv.2 !! port_key (use_ssl c))) ->
  (Z.of_nat (length (failed_hosts c)) + 1 < max_servers c)%Z ->
  let r := change_server w fuel c in
  r.1 = Diverge /\ connects r.2 = connects c.
Proof.
  intros Hd Ht Hrc Hne Hall Hm. cbn zeta.
  unfold change_server, change_server_body. rewrite bind_gets_eq, Ht.
  assert (exists c1,
            (if bool_decide (is_Some t)
             then close_connection;;; modify (set_transport (Some None))
             else ret tt) c = (Ok tt, c1) /\
            host c1 = host c /\ failed_hosts c1 = failed_hosts c /\
            servers c1 = servers c /\ use_ssl c1 = use_ssl c /\
            max_servers c1 = max_servers c /\ connects c1 = connects c)
    as (c1 & E1 & Hh1 & Hf1 & Hs1 & Hu1 & Hm1 & Hc1).
  { destruct t as [n |].
    - destruct Hrc as [rc Hrc]; [eauto |].
      rewrite bool_decide_eq_true_2 by eauto.
      unfold bind, close_connection, modify. rewrite Hrc.
      eexists. split; [reflexivity |]. cbn. auto 10.
    - rewrite bool_decide_eq_false_2 by (intros [? ?]; discriminate).
      exists c. auto 10. }
  rewrite (bind_step _ _ c tt c1 E1). rewrite !bind_gets_eq.
  rewrite <- Hh1, <- Hf1, <- Hs1, <- Hu1, <- Hm1 in *. rewrite <- Hc1. clear E1.
  destruct (bool_decide (host c1 ∈ failed_hosts c1)) eqn:E.
  - apply bool_decide_eq_true in E.
    rewrite (bind_step _ _ c1 tt c1 eq_refl). rewrite !bind_gets_eq.
    rewrite (proj2 (Z.leb_gt _ _)) by lia.
    destruct (while_host_failed_spins_quietly w fuel c1 Hd Hne) as (c' & Hrun & Hc'); auto.
    { intros kv Hkv. destruct (Hall kv Hkv) as [[Hin | ->] Hp]; auto. }
    rewrite (bind_diverge _ _ c1 c' Hrun). auto.
  - rewrite (bind_step _ _ c1 tt
               (set_failed_hosts (failed_hosts c1 ++ [host c1]) c1) eq_refl).
    rewrite !bind_gets_eq.
    change (failed_hosts (set_failed_hosts ?v _)) with v.
    change (max_servers (set_failed_hosts _ ?x)) with (max_servers x).
    rewrite (proj2 (Z.leb_gt _ _)) by (rewrite length_app; cbn; lia).
    destruct (while_host_failed_spins_quietly w fuel
                (set_failed_hosts (failed_hosts c1 ++ [host c1]) c1) Hd)
      as (c' & Hrun & Hc'); cbn; auto.
    { intros kv Hkv. destruct (Hall kv Hkv) as [[Hin | ->] Hp]; split; auto;
        apply elem_of_app; [left | right]; auto. left. }
    { apply elem_of_app. right. left. }
    rewrite (bind_diverge _ _ _ c' Hrun). auto.
Qed.

(** One server, which has just failed, and five servers allowed. *)
Lemma change_server_never_ends_when_all_failed_witness :
  let r := change_server rejecting_world 7 client_all_failed in
  r.1 = Diverge /\ connects r.2 = connects client_all_failed.
Proof.
  cbn zeta.
  apply (change_server_never_ends_when_all_failed rejecting_world 7
           client_all_failed None).
  - cbn. lia.
  - reflexivity.
  - intros [? H]. discriminate H.
  - discriminate.
  - intros kv Hkv. apply list_elem_of_singleton in Hkv as ->.
    split; [right; reflexivity | eexists; reflexivity].
  - cbn. lia.
Defined.

(** ** Transactions without the keys asked for *)

Lemma res_map_cases {A B} (f : A -> Res B) (xs : list A) :
  (forall x, f x <> Diverge) ->
  (exists ys, res_map f xs = Ok ys) \/
  (exists x e, x ∈ xs /\ f x = Raise e /\ res_map f xs = Raise e).
Proof.
  intros Hf. induction xs as [| x xs IH]; [left; eexists; reflexivity |].
  cbn. destruct (f x) as [y | e |] eqn:E.
  - cbn. destruct IH as [[ys ->] | (x' & e & Hin & Hx & ->)]; cbn.
    + left. eexists. reflexivity.
    + right. exists x', e. split; [right; exact Hin | auto].
  - right. exists x, e. split; [left | auto].
  - destruct (Hf x E).
Qed.

Lemma res_map_raises {A B} (f : A -> Res B) (xs : list A) x :
  (forall x, f x <> Diverge) ->
  x ∈ xs -> (forall y, f x <> Ok y) -> exists e, res_map f xs = Raise e.
Proof.
  intros Hf Hin Hx. induction xs as [| x' xs IH]; [inversion Hin |].
  cbn. destruct (f x') as [y | e |] eqn:E.
  - apply elem_of_cons in Hin as [-> | Hin]; [destruct (Hx y E) |].
    destruct (IH Hin) as [e ->]. cbn. eauto.
  - eauto.
  - destruct (Hf x' E).
Qed.

Lemma py_getitem_str_raises v k e :
  py_getitem_str v k = Raise e -> e = TypeError \/ e = KeyError (PStr k).
Proof.
  unfold py_getitem_str. destruct v; try (intros [= <-]; auto).
  destruct (dict_lookup d k); intros [= <-]; auto.
Qed.

Lemma py_getitem_str_returns v k : py_getitem_str v k <> Diverge.
Proof.
  unfold py_getitem_str. destruct v; try discriminate.
  destruct (dict_lookup d k); discriminate.
Qed.

(** X18: [get_merkle] and [get_all_merkle_data] build the requests of all
    transactions before sending any: when one of the transactions is not a
    dict holding both ['tx_hash'] and ['height'], each of the two raises
    [TypeError] or the [KeyError] of the missing key, and the client is
    untouched, nothing having been sent. *)
Theorem merkle_calls_check_every_tx_first (w : World) (fuel : nat)
    (txs : list pyval) (c : Client) :
  forallb has_merkle_keys txs = false ->
  let raised (r : Res (list ResultDict) * Client) :=
    exists e, r = (Raise e, c) /\
      e ∈ [TypeError; KeyError (PStr "tx_hash"); KeyError (PStr "height")] in
  raised (get_merkle w fuel txs c) /\ raised (get_all_merkle_data w fuel txs c).
Proof.
  intros Hbad. cbn zeta.
  set (request_of := fun tx =>
         res_bind (py_getitem_str tx "tx_hash") (fun tx_hash =>
         res_bind (py_getitem_str tx "height") (fun height =>
         Ok ("blockchain.transaction.get_merkle", PList [tx_hash; height])))).
  assert (forall tx, request_of tx <> Diverge) as Hnd.
  { intros tx. unfold request_of.
    destruct (py_getitem_str tx "tx_hash") eqn:E1; cbn; try discriminate.
    - destruct (py_getitem_str tx "height") eqn:E2; cbn; try discriminate.
      destruct (py_getitem_str_returns _ _ E2).
    - destruct (py_getitem_str_returns _ _ E1). }
  assert (forall tx e, request_of tx = Raise e ->
            e ∈ [TypeError; KeyError (PStr "tx_hash"); KeyError (PStr "height")])
    as Hexn.
  { intros tx e. unfold request_of.
    destruct (py_getitem_str tx "tx_hash") eqn:E1; cbn; try discriminate.
    - destruct (py_getitem_str tx "height") eqn:E2; cbn; try discriminate.
      intros [= <-]. destruct (py_getitem_str_raises _ _ _ E2) as [-> | ->];
        first [solve [left] | solve [right; left] | solve [right; right; left]].
    - intros [= <-]. destruct (py_getitem_str_raises _ _ _ E1) as [-> | ->];
        first [solve [left] | solve [right; left] | solve [right; right; left]]. }
  assert (exists e, _get_merkle txs = Raise e /\
            e ∈ [TypeError; KeyError (PStr "tx_hash"); KeyError (PStr "height")])
    as (e & He & Hin).
  { apply not_true_iff_false in Hbad. rewrite forallb_forall in Hbad.
    destruct (res_map_cases request_of txs Hnd)
      as [[ys Hys] | (x & e & Hx & Hfx & Hrun)].
    - exfalso. apply Hbad. intros tx Htx. apply list_elem_of_In in Htx.
      destruct (has_merkle_keys tx) eqn:Hk; [reflexivity | exfalso].
      destruct (res_map_raises request_of txs tx Hnd Htx) as [e He].
      + intros y. unfold request_of, has_merkle_keys, py_getitem_str in *.
        destruct tx; try discriminate.
        destruct (dict_lookup d "tx_hash"); cbn in *; try discriminate.
        destruct (dict_lookup d "height"); cbn in *; discriminate.
      + unfold _get_merkle in *. fold request_of in Hys. congruence.
    - exists e. split; [exact Hrun | eapply Hexn, Hfx]. }
  split.
  - exists e. split; [| exact Hin]. unfold get_merkle.
    apply bind_raise. unfold lift. rewrite He. reflexivity.
  - unfold get_all_merkle_data.
    destruct (res_map_cases (fun tx => py_getitem_str tx "height") txs)
      as [[hs Hhs] | (x & e' & Hx & Hfx & Hrun)].
    { intros x. apply py_getitem_str_returns. }
    + exists e. split; [| exact Hin].
      rewrite (bind_step _ _ c hs c); [| unfold lift; rewrite Hhs; reflexivity].
      apply bind_raise. unfold lift. rewrite He. reflexivity.
    + exists e'. split.
      * apply bind_raise. unfold lift. rewrite Hrun. reflexivity.
      * destruct (py_getitem_str_raises _ _ _ Hfx) as [-> | ->];
          first [solve [left] | solve [right; left] | solve [right; right; left]].
Qed.

(** A transaction with both keys, then one without its height. *)
Lemma merkle_calls_check_every_tx_first_witness :
  let c := connected_client "a" [("a", tls_server "50002")] in
  let txs := [one_tx; PDict [("tx_hash", PStr "cd34")]] in
  let raised (r : Res (list ResultDict) * Client) :=
    exists e, r = (Raise e, c) /\
      e ∈ [TypeError; KeyError (PStr "tx_hash"); KeyError (PStr "height")] in
  raised (get_merkle merkle_world 0 txs c) /\
  raised (get_all_merkle_data merkle_world 0 txs c).
Proof.
  cbn zeta.
  apply (merkle_calls_check_every_tx_first merkle_world 0
           [one_tx; PDict [("tx_hash", PStr "cd34")]]
           (connected_client "a" [("a", tls_server "50002")])).
  reflexivity.
Defined.

(** ** Which server the selection returns *)

(** C6: on every client the constructor has built from a catalog with a
    usable entry, after any calls, [choose_random_server] returns at its
    first draw a host of the registry whose descriptor is a usable entry of
    the catalog, with the port that descriptor advertises for the TLS policy;
    the host is not in [failed_hosts], which is empty on every such client.
    On any client at all, a drawn descriptor that lacks the port is deleted
    from the registry, under its host, and the method calls itself on what is
    left; and no call ever adds an entry to a registry. *)
Theorem choose_random_server_returns_usable_server (w : World) (fuel : nat)
    (a : InitArgs) (ks : list Call) :
  recursion_limit w <> 0%nat ->
  let catalog := match arg_servers a with [] => read_json w | l => l end in
  let c := after_calls w fuel (__init__ w fuel a).2 ks in
  usable_servers (arg_use_ssl a) catalog <> [] ->
  (exists h p server,
     choose_random_server w c = (Ok (h, p), set_draws (S (draws c)) c) /\
     (h, server) ∈ servers c /\ (h, server) ∈ catalog /\
     truthy (server_is_usable (use_ssl c) server) = true /\
     server !! port_key (use_ssl c) = Some p /\
     h ∉ failed_hosts c) /\
  (forall c0 d,
     recursion_limit w = S d -> servers c0 <> [] ->
     exists h server,
       (h, server) ∈ servers c0 /\
       match server !! port_key (use_ssl c0) with
       | Some p =>
           choose_random_server w c0 = (Ok (h, p), set_draws (S (draws c0)) c0)
       | None =>
           (h ∉ map fst (registry_delete (servers c0) h)) /\
           choose_random_server w c0 =
             choose_random_server_rec w d
               (set_servers (registry_delete (servers c0) h)
                  (set_draws (S (draws c0)) c0))
       end) /\
  (forall c0 ks' kv,
     kv ∈ servers (after_calls w fuel c0 ks') -> kv ∈ servers c0).
Proof.
  intros Hd. cbn zeta. intros Hne.
  destruct (init_keeps_registry w fuel a) as (Ht & Hf & Hs & Hu).
  assert (forall kv, kv ∈ servers (__init__ w fuel a).2 ->
            is_Some (kv.2 !! port_key (use_ssl (__init__ w fuel a).2))) as Hall.
  { intros kv Hkv. rewrite Hs in Hkv. rewrite Hu.
    apply usable_servers_spec in Hkv as (_ & _ & H). exact H. }
  destruct (after_calls_keep_registry w fuel ks _ Ht Hf Hall) as (Ht1 & Hf1 & Hs1 & Hu1).
  cbn zeta in Ht1, Hf1, Hs1, Hu1.
  set (c := after_calls w fuel (__init__ w fuel a).2 ks) in *.
  split; [| split].
  - destruct (choose_random_server_first_draw w c)
      as [[H0 _] | [[H0 _] | (h & p & server & Hel & Hp & Hrun)]].
    + intros kv Hkv. rewrite Hs1 in Hkv. rewrite Hu1. exact (Hall kv Hkv).
    + contradiction.
    + rewrite Hs1, Hs in H0. contradiction.
    + exists h, p, server. split; [exact Hrun |]. split; [exact Hel |].
      rewrite Hs1, Hs in Hel. apply usable_servers_spec in Hel as (Hc & Husable & _).
      rewrite Hu1, Hu. repeat split; auto.
      * rewrite <- Hu, <- Hu1. exact Hp.
      * rewrite Hf1. intros H. inversion H.
  - intros c0 d Hlim Hreg. unfold choose_random_server. rewrite Hlim.
    destruct (choose_random_server_rec_step w d c0 Hreg) as (h & server & Hel & Hrun).
    exists h, server. split; [exact Hel |].
    destruct (server !! port_key (use_ssl c0)); [exact Hrun |].
    split; [| exact Hrun].
    intros Hin. apply list_elem_of_In, in_map_iff in Hin as ([k v] & Hk & Hkv).
    apply list_elem_of_In, registry_delete_elem in Hkv as [_ Hkv]. cbn in *. congruence.
  - intros c0 ks' kv Hkv.
    destruct (registry_shrinks_after_calls w fuel ks' c0) as [_ H]. exact (H kv Hkv).
Qed.

(** The catalog of three servers, a constructor that succeeds, and a fee
    request made before the selection. *)
Lemma choose_random_server_returns_usable_server_witness :
  let w := scripted_world (fun _ => [handshake_frame 0]) (fun _ => 0%Z) in
  let a := default_args three_servers 3 in
  let ks := [call_estimate_fee 6] in
  let catalog := three_servers in
  let c := after_calls w 0 (__init__ w 0 a).2 ks in
  (exists h p server,
     choose_random_server w c = (Ok (h, p), set_draws (S (draws c)) c) /\
     (h, server) ∈ servers c /\ (h, server) ∈ catalog /\
     truthy (server_is_usable (use_ssl c) server) = true /\
     server !! port_key (use_ssl c) = Some p /\
     h ∉ failed_hosts c) /\
  (forall c0 d,
     recursion_limit w = S d -> servers c0 <> [] ->
     exists h server,
       (h, server) ∈ servers c0 /\
       match server !! port_key (use_ssl c0) with
       | Some p =>
           choose_random_server w c0 = (Ok (h, p), set_draws (S (draws c0)) c0)
       | None =>
           (h ∉ map fst (registry_delete (servers c0) h)) /\
           choose_random_server w c0 =
             choose_random_server_rec w d
               (set_servers (registry_delete (servers c0) h)
                  (set_draws (S (draws c0)) c0))
       end) /\
  (forall c0 ks' kv,
     kv ∈ servers (after_calls w 0 c0 ks') -> kv ∈ servers c0).
Proof.
  cbn zeta.
  apply (choose_random_server_returns_usable_server
           (scripted_world (fun _ => [handshake_frame 0]) (fun _ => 0%Z)) 0
           (default_args three_servers 3) [call_estimate_fee 6]).
  - cbn. lia.
  - vm_compute. discriminate.
Defined.

(** ** A handshake that is never answered *)

Lemma try_except_raise {A} (m : M A) (h : exn -> option (M A)) c e c1 :
  m c = (Raise e, c1) ->
  try_except m h c = match h e with Some k => k c1 | None => (Raise e, c1) end.
Proof. intros H. unfold try_except. rewrite H. reflexivity. Qed.

(** A batch of one request that nobody answers, whatever the methods that
    close the cycle are. *)
Lemma batch_body_unanswered w fuel k b request c rc :
  rpc_client c = Some rc ->
  send_raises w (length (sent c)) (peer rc) request = false ->
  arrivals w (gathers c) = [] ->
  result rc !! next_id rc = None ->
  rpc_multiple_send_and_wait_body w fuel k b [request] c =
    (Raise TimeoutError,
     set_gathers (S (gathers c)) (after_sends handle_response_cb c rc [request])).
Proof.
  intros Hrc Hs Ha Hr.
  unfold rpc_multiple_send_and_wait_body, get_coroutines_body.
  unfold bind at 1. rewrite (get_coroutines_loop_ok w _ _ _ _ _ _ c rc Hrc).
  2:{ intros [| i] r Hi; [| done]. injection Hi as <-. rewrite Nat.add_0_r. exact Hs. }
  cbn [app length seq map]. unfold run_until_complete_gather. cbn [awaitable_ids option_map].
  unfold bind at 1. unfold bind at 1. unfold gets at 1. unfold bind at 1.
  unfold modify at 1. unfold bind at 1.
  assert (gathers (after_sends handle_response_cb c rc [request]) = gathers c) as ->
    by reflexivity.
  rewrite Ha. cbn [dispatch_all]. unfold ret at 1. cbn [wait_all].
  unfold bind at 1. unfold wait_for_response. cbn. rewrite Hr. reflexivity.
Qed.

(** X19: [connect_to_server] on a client that never failed over, when the
    connection is made and the handshake is sent but no frame arrives: the
    wait raises [asyncio.TimeoutError].  Where that class is not an [OSError]
    the exception leaves [connect_to_server]; where it is the built-in
    [TimeoutError] (Python 3.11 on), [except (OSError, ssl.SSLError)] catches
    it and calls [change_server], which raises [AttributeError] on the unbound
    [transport].  Either way one connection was attempted, one request sent,
    and no host recorded as failed. *)
Theorem unanswered_handshake_leaves_connect_to_server (w : World) (fuel : nat)
    (c : Client) (t : nat) :
  recursion_limit w <> 0%nat ->
  transport c = None ->
  create_connection w (length (connects c)) (host c) (port c) (use_ssl c) =
    ConnReturn (Some t) true ->
  send_raises w (length (sent c)) (host c)
    ("server.version", PList [client_name c; protocol_version c]) = false ->
  arrivals w (gathers c) = [] ->
  let r := connect_to_server w fuel c in
  r.1 = Raise (if timeout_is_oserror w then AttributeError "transport"
               else TimeoutError) /\
  connects r.2 = (connects c ++ [(host c, port c)])%list /\
  sent r.2 =
    (sent c ++ [(host c, ("server.version",
                          PList [client_name c; protocol_version c]))])%list /\
  failed_hosts r.2 = failed_hosts c /\ transport r.2 = None.
Proof.
  intros Hd Ht Hconn Hs Ha. cbn zeta. unfold connect_to_server.
  destruct (recursion_limit w) as [| d]; [done |].
  cbn [cycle cy_connect_to_server]. unfold connect_to_server_body.
  set (k := cy_connect_to_server (cycle w fuel d)).
  set (b := cy_rpc_multiple_send_and_wait (cycle w fuel d)).
  set (c1 := set_rpc_client (Some (new_rpc_client (host c)))
               (set_connects (connects c ++ [(host c, port c)]) c)).
  set (rc2 := mkRPCClient ∅ ∅ 0 (host c) (Some (Some t)) false).
  set (c2 := set_rpc_client (Some rc2) c1).
  set (request := ("server.version", PList [client_name c; protocol_version c])).
  assert (connect w c = (Ok (Some t), c1)) as E1.
  { unfold connect. rewrite Hconn. reflexivity. }
  assert (rpc_multiple_send_and_wait_body w fuel k b [request] c2 =
            (Raise TimeoutError,
             set_gathers (S (gathers c2))
               (after_sends handle_response_cb c2 rc2 [request]))) as E2.
  { apply batch_body_unanswered; [reflexivity | exact Hs | exact Ha | reflexivity]. }
  erewrite try_except_raise.
  2:{ rewrite (bind_step _ _ c (Some t) c1 E1). rewrite bind_gets_eq.
      change (rpc_client c1) with (Some (new_rpc_client (host c))).
      rewrite !bool_decide_eq_true_2 by eauto. cbn [negb orb].
      rewrite (bind_step _ _ c1 tt c1 eq_refl).
      rewrite (bind_step _ _ c1 tt c2 eq_refl).
      erewrite try_except_raise.
      2:{ rewrite (bind_step _server_version _ c2 request c2 eq_refl).
          apply bind_raise. unfold run_command_with. apply bind_raise. exact E2. }
      cbn beta iota. reflexivity. }
  cbn [is_OSError]. destruct (timeout_is_oserror w).
  - rewrite change_server_body_unbound by exact Ht. cbn. auto.
  - cbn. auto.
Qed.

(** A server that accepts the connection and stays silent, where
    [asyncio.TimeoutError] is its own class. *)
Lemma unanswered_handshake_leaves_connect_to_server_witness :
  let w := scripted_world (fun _ => []) (fun _ => 0%Z) in
  let r := connect_to_server w 0 fresh_client in
  r.1 = Raise TimeoutError /\
  connects r.2 = [("a", PStr "50002")] /\
  sent r.2 = [("a", ("server.version", PList [PStr "cryptos"; PStr "1.4"]))] /\
  failed_hosts r.2 = [] /\ transport r.2 = None.
Proof.
  cbn zeta.
  apply (unanswered_handshake_leaves_connect_to_server
           (scripted_world (fun _ => []) (fun _ => 0%Z)) 0 fresh_client 1).
  - cbn. lia.
  - reflexivity.
  - reflexivity.
  - reflexivity.
  - reflexivity.
Defined.
